(** * terminal-mail: a shallow embedding of the composer, registry,
      message validation and delivery engine, with their properties.

    Python values are modelled as follows.
    - [str] is a sequence of Unicode code points ([list N]).
    - [None]-able values are [option]s; truthiness of [str | None] is
      [truthy] (a present, non-empty string).
    - Exceptions are the constructors of [exn]; a computation that may
      raise returns a [result].
    - Calls that reach outside the process (SMTP, the file system, child
      processes, the clock) are operations of an abstract world that is
      threaded through the computation. *)

From Stdlib Require Import ZArith NArith Ascii String DecimalString Lia.
From stdpp Require Import base option list gmap.

Open Scope N_scope.

(* ===================================================================== *)
(** * Part I: definitions                                                  *)
(* ===================================================================== *)

(** ** Python strings *)

Module Py.

(** A character is a code point, a string a list of them. *)
Abbreviation char := N (only parsing).
Abbreviation str := (list N) (only parsing).

(** UTF-8 decoding of a byte sequence ([bytes.decode("utf-8")], strict):
    shortest-form sequences only, no surrogates, at most U+10FFFF. *)
Definition is_cont (b : N) : bool := (128 <=? b) && (b <=? 191).

Fixpoint utf8_decode_fuel (fuel : nat) (bs : list N) : option str :=
  match fuel with
  | O => match bs with [] => Some [] | _ => None end
  | S fuel' =>
    match bs with
    | [] => Some []
    | b0 :: r0 =>
      if b0 <? 128 then cons b0 <$> utf8_decode_fuel fuel' r0
      else if (194 <=? b0) && (b0 <=? 223) then
        match r0 with
        | b1 :: r1 =>
          if is_cont b1
          then cons ((b0 - 192) * 64 + (b1 - 128)) <$> utf8_decode_fuel fuel' r1
          else None
        | _ => None
        end
      else if (224 <=? b0) && (b0 <=? 239) then
        match r0 with
        | b1 :: b2 :: r2 =>
          let lo := if b0 =? 224 then 160 else 128 in
          let hi := if b0 =? 237 then 159 else 191 in
          if (lo <=? b1) && (b1 <=? hi) && is_cont b2
          then cons ((b0 - 224) * 4096 + (b1 - 128) * 64 + (b2 - 128))
                 <$> utf8_decode_fuel fuel' r2
          else None
        | _ => None
        end
      else if (240 <=? b0) && (b0 <=? 244) then
        match r0 with
        | b1 :: b2 :: b3 :: r3 =>
          let lo := if b0 =? 240 then 144 else 128 in
          let hi := if b0 =? 244 then 143 else 191 in
          if (lo <=? b1) && (b1 <=? hi) && is_cont b2 && is_cont b3
          then cons ((b0 - 240) * 262144 + (b1 - 128) * 4096
                     + (b2 - 128) * 64 + (b3 - 128))
                 <$> utf8_decode_fuel fuel' r3
          else None
        | _ => None
        end
      else None
    end
  end.

Definition utf8_decode (bs : list N) : option str :=
  utf8_decode_fuel (length bs) bs.

(** The UTF-8 form of a code point; a surrogate has none. *)
Definition utf8_encode_char (c : char) : option (list N) :=
  if c <? 128 then Some [c]
  else if c <? 2048 then Some [192 + c / 64; 128 + c mod 64]
  else if (55296 <=? c) && (c <=? 57343) then None
  else if c <? 65536 then
    Some [224 + c / 64 / 64; 128 + (c / 64) mod 64; 128 + c mod 64]
  else if c <? 1114112 then
    Some [240 + c / 64 / 64 / 64; 128 + (c / 64 / 64) mod 64;
          128 + (c / 64) mod 64; 128 + c mod 64]
  else None.

(** A string literal of the source, written here as the UTF-8 text it is. *)
Definition py (s : string) : str :=
  default [] (utf8_decode (N_of_ascii <$> list_ascii_of_string s)).

(** The characters [str.strip()] removes (Python's Unicode whitespace). *)
Definition is_space (c : char) : bool :=
  ((9 <=? c) && (c <=? 13)) || ((28 <=? c) && (c <=? 32))
  || (c =? 133) || (c =? 160) || (c =? 5760)
  || ((8192 <=? c) && (c <=? 8202))
  || (c =? 8232) || (c =? 8233) || (c =? 8239) || (c =? 8287) || (c =? 12288).

Fixpoint lstrip (s : str) : str :=
  match s with
  | c :: s' => if is_space c then lstrip s' else s
  | [] => []
  end.

Definition rstrip (s : str) : str := rev (lstrip (rev s)).

Definition strip (s : str) : str := rstrip (lstrip s).

(** Every character of the string is white space. *)
Definition blank (s : str) : Prop := Forall (fun c => is_space c = true) s.

(** [s.startswith(p)] *)
Fixpoint startswith (s p : str) {struct p} : bool :=
  match p, s with
  | [], _ => true
  | _ :: _, [] => false
  | a :: p', b :: s' => (a =? b) && startswith s' p'
  end.

(** [s.find(sub)]: index of the first occurrence, if any. *)
Fixpoint find (sub s : str) : option nat :=
  if startswith s sub then Some O
  else match s with
       | [] => None
       | _ :: s' => S <$> find sub s'
       end.

(** [sub in s] *)
Definition contains (sub s : str) : bool :=
  match find sub s with Some _ => true | None => false end.

(** [s.split(sep, maxsplit)] for a non-empty separator: [n] bounds the
    number of cuts.  [s.split(sep)] cuts at every occurrence; no string
    has more than [length s] of them. *)
Fixpoint split_max (sep : str) (n : nat) (s : str) : list str :=
  match n with
  | O => [s]
  | S n' =>
    match find sep s with
    | None => [s]
    | Some i => take i s :: split_max sep n' (drop (i + length sep) s)
    end
  end.

Definition split (sep s : str) : list str := split_max sep (length s) s.

(** [sep.join(parts)] *)
Fixpoint join (sep : str) (parts : list str) : str :=
  match parts with
  | [] => []
  | [p] => p
  | p :: rest => p ++ sep ++ join sep rest
  end.

(** The first line of a text: what stands before its first newline. *)
Definition first_line (s : str) : str := default [] (head (split [10] s)).

(** [s.lower()] on ASCII letters; the case mapping of the other code
    points is not modelled, they are left as they are. *)
Definition lower_char (c : char) : char :=
  if (65 <=? c) && (c <=? 90) then c + 32 else c.

Definition lower (s : str) : str := lower_char <$> s.

(** [str(n)] for an [int] *)
Definition str_of_Z (z : Z) : str :=
  N_of_ascii <$> list_ascii_of_string (NilEmpty.string_of_int (Z.to_int z)).

(** Truthiness of a [str | None] value. *)
Definition truthy (o : option str) : bool :=
  match o with Some (_ :: _) => true | _ => false end.

(** [o or d] for a [str | None] value [o]. *)
Definition or_else (o : option str) (d : str) : str :=
  match o with Some (c :: s) => c :: s | _ => d end.

End Py.

Import Py.

Arguments py : simpl never.
Arguments strip : simpl never.
Arguments rstrip : simpl never.
Arguments split : simpl never.
Arguments lower : simpl never.
Arguments contains : simpl never.

(** ** Exceptions *)

Inductive exn : Type :=
  | ComposerError (msg : str)
  | ConfigError (msg : str)
  | MessageError (msg : str)
  | MailerError (msg : str)
  | SMTPException (msg : str)
  | OSError (msg : str)
  | IndexError (msg : str)
  | ValueError (msg : str).

(** [str(e)] *)
Definition exn_str (e : exn) : str :=
  match e with
  | ComposerError m | ConfigError m | MessageError m | MailerError m
  | SMTPException m | OSError m | IndexError m | ValueError m => m
  end.

Inductive result (A : Type) : Type :=
  | Ok (a : A)
  | Raise (e : exn).
Arguments Ok {A} a.
Arguments Raise {A} e.

#[global] Instance result_ret : MRet result := fun _ a => Ok a.

#[global] Instance result_bind : MBind result := fun _ _ k r =>
  match r with
  | Ok a => k a
  | Raise e => Raise e
  end.

(** [l[i]] *)
Definition index {A} (l : list A) (i : nat) : result A :=
  match l !! i with
  | Some x => Ok x
  | None => Raise (IndexError (py "list index out of range"))
  end.

(** [a, b = l] *)
Definition unpack2 {A} (l : list A) : result (A * A) :=
  match l with
  | [a; b] => Ok (a, b)
  | _ => Raise (ValueError (py "wrong number of values to unpack"))
  end.

(** ** Standard-library codecs used by config.py and its tests *)

Module Base64.

(** [binascii]'s decoding table: the value of a base64 digit. *)
Definition table_a2b_base64 (c : N) : option N :=
  if (65 <=? c) && (c <=? 90) then Some (c - 65)
  else if (97 <=? c) && (c <=? 122) then Some (c - 71)
  else if (48 <=? c) && (c <=? 57) then Some (c + 4)
  else if c =? 43 then Some 62
  else if c =? 47 then Some 63
  else None.

Definition BASE64_PAD : N := 61.

(** [binascii.a2b_base64] in its default, non-strict mode: characters
    outside the alphabet are skipped, a complete pad sequence ends the
    input, and a final group that is left open is an error.  The state is
    the position in the current group of four digits, the bits left over
    from the previous digit, the pads seen and the bytes produced. *)
Fixpoint a2b_base64 (data : list N) (quad_pos : nat) (leftchar : N)
    (pads : nat) (bin_data : list N) : result (list N) :=
  match data with
  | [] =>
    match quad_pos with
    | O => Ok bin_data
    | 1%nat =>
      Raise (ValueError
        (py "Invalid base64-encoded string: number of data characters ("
         ++ str_of_Z (Z.of_nat (length bin_data / 3 * 4 + 1))
         ++ py ") cannot be 1 more than a multiple of 4"))
    | _ => Raise (ValueError (py "Incorrect padding"))
    end
  | this_ch :: rest =>
    if this_ch =? BASE64_PAD then
      if (2 <=? quad_pos)%nat then
        if (4 <=? quad_pos + S pads)%nat then Ok bin_data
        else a2b_base64 rest quad_pos leftchar (S pads) bin_data
      else a2b_base64 rest quad_pos leftchar pads bin_data
    else
      match table_a2b_base64 this_ch with
      | None => a2b_base64 rest quad_pos leftchar pads bin_data
      | Some v =>
        match quad_pos with
        | O => a2b_base64 rest 1 v 0 bin_data
        | 1%nat =>
          a2b_base64 rest 2 (N.land v 15) 0
            (bin_data ++ [N.lor (N.shiftl leftchar 2) (N.shiftr v 4)])
        | 2%nat =>
          a2b_base64 rest 3 (N.land v 3) 0
            (bin_data ++ [N.lor (N.shiftl leftchar 4) (N.shiftr v 2)])
        | _ =>
          a2b_base64 rest 0 0 0
            (bin_data ++ [N.lor (N.shiftl leftchar 6) v])
        end
      end
  end.

(** [base64.b64decode(s)] for a [str] argument: the text must be ASCII. *)
Definition b64decode (s : str) : result (list N) :=
  if forallb (fun c => c <? 128) s then a2b_base64 s 0 0 0 []
  else Raise (ValueError (py "string argument should contain only ASCII characters")).

(** [bytes.decode("utf-8")] *)
Definition decode_utf8 (bs : list N) : result str :=
  match utf8_decode bs with
  | Some s => Ok s
  | None => Raise (ValueError (py "'utf-8' codec can't decode bytes"))
  end.

(** [binascii]'s encoding table: the digit of a value below 64. *)
Definition table_b2a_base64 (v : N) : N :=
  if v <? 26 then v + 65
  else if v <? 52 then v + 71
  else if v <? 62 then v - 4
  else if v =? 62 then 43
  else 47.

(** [base64.b64encode(data)], with which the tests of config.py write a
    base64 password: three bytes give four digits, and a final group of
    one or two bytes is padded. *)
Fixpoint b64encode (data : list N) : list N :=
  match data with
  | [] => []
  | [a] =>
    [table_b2a_base64 (N.shiftr a 2);
     table_b2a_base64 (N.shiftl (N.land a 3) 4);
     BASE64_PAD; BASE64_PAD]
  | [a; b] =>
    [table_b2a_base64 (N.shiftr a 2);
     table_b2a_base64 (N.lor (N.shiftl (N.land a 3) 4) (N.shiftr b 4));
     table_b2a_base64 (N.shiftl (N.land b 15) 2);
     BASE64_PAD]
  | a :: b :: c :: rest =>
    table_b2a_base64 (N.shiftr a 2)
    :: table_b2a_base64 (N.lor (N.shiftl (N.land a 3) 4) (N.shiftr b 4))
    :: table_b2a_base64 (N.lor (N.shiftl (N.land b 15) 2) (N.shiftr c 6))
    :: table_b2a_base64 (N.land c 63)
    :: b64encode rest
  end.

(** [str.encode("utf-8")]; [None] when the text has a surrogate, for
    which Python raises. *)
Definition encode_utf8 (s : str) : option (list N) :=
  mjoin <$> mapM utf8_encode_char s.

(** The values a byte can have. *)
Definition all_bytes : list N := N.of_nat <$> seq 0 256.

End Base64.

(** ** config.py: the registry *)

(** What [subprocess.run(cmd, shell=True, capture_output=True, text=True,
    timeout=...)] comes back with. *)
Inductive process_outcome : Type :=
  | TimeoutExpired
  | CompletedProcess (returncode : Z) (stdout stderr : str).

Definition DEFAULT_SMTP_PORT : Z := 587.
Definition DEFAULT_RETRIES : Z := 1.

Module SmtpServer.

Record t : Type := {
  name : str;
  host : str;
  ports : list Z;
  user : option str;
  password : option str;
  password_cmd : option str;
  password_encoding : str;
  use_tls : bool;
}.

Section GetPassword.

(** The shell: a command line and a timeout give an outcome. *)
Variable subprocess_run : str -> Z -> process_outcome.

(** [SmtpServer.get_password] *)
Definition get_password (self : t) : result (option str) :=
  match password_cmd self with
  | Some (c :: cmd) =>
    match subprocess_run (c :: cmd) 30 with
    | CompletedProcess returncode stdout stderr =>
      if negb (returncode =? 0)%Z then
        Raise (ConfigError
          (py "Password command failed for SMTP '" ++ name self
           ++ py "': " ++ strip stderr))
      else Ok (Some (strip stdout))
    | TimeoutExpired =>
      Raise (ConfigError
        (py "Password command timed out for SMTP '" ++ name self ++ py "'"))
    end
  | _ =>
    match password self with
    | Some (c :: pw) =>
      if bool_decide (lower (password_encoding self) = py "base64") then
        match bs ← Base64.b64decode (c :: pw); Base64.decode_utf8 bs with
        | Ok plain => Ok (Some plain)
        | Raise e =>
          Raise (ConfigError
            (py "Failed to decode base64 password for SMTP '" ++ name self
             ++ py "': " ++ exn_str e))
        end
      else Ok (Some (c :: pw))
    | _ => Ok None
    end
  end.

End GetPassword.

End SmtpServer.

Module Identity.

Record t : Type := {
  name : str;
  email : str;
  display_name : str;
  smtp_server : str;
  reply_to : list str;
}.

#[global] Instance t_eq_dec : EqDecision t.
Proof. solve_decision. Defined.

(** The constructor with [__post_init__]: an empty list of reply-to
    addresses becomes the identity's own address. *)
Definition make (name email display_name smtp_server : str)
    (reply_to : list str) : t :=
  {| name := name; email := email; display_name := display_name;
     smtp_server := smtp_server;
     reply_to := match reply_to with [] => [email] | _ => reply_to end |}.

(** [Identity.format_from] *)
Definition format_from (self : t) (custom_display_name : option str) : str :=
  match or_else custom_display_name (display_name self) with
  | [] => email self
  | n => n ++ py " <" ++ email self ++ py ">"
  end.

End Identity.

Module Defaults.

Record t : Type := {
  retries : Z;
  interactive : bool;
  skip_confirmation : bool;
  default_identity : option str;
}.

Definition default : t :=
  {| retries := DEFAULT_RETRIES; interactive := true;
     skip_confirmation := false; default_identity := None |}.

End Defaults.

Module Config.

Record t : Type := {
  defaults : Defaults.t;
  smtp_servers : list SmtpServer.t;
  identities : list Identity.t;
}.

(** [Config.get_smtp_server] *)
Definition get_smtp_server (self : t) (name : str) : option SmtpServer.t :=
  List.find (fun server => bool_decide (lower (SmtpServer.name server) = lower name))
    (smtp_servers self).

(** [Config.get_identity] *)
Definition get_identity (self : t) (name : str) : option Identity.t :=
  List.find (fun identity => bool_decide (lower (Identity.name identity) = lower name))
    (identities self).

(** [Config.get_identity_by_email] *)
Definition get_identity_by_email (self : t) (email : str) : option Identity.t :=
  List.find (fun identity => bool_decide (lower (Identity.email identity) = lower email))
    (identities self).

(** [Config.get_default_identity] *)
Definition get_default_identity (self : t) : option Identity.t :=
  let named :=
    match Defaults.default_identity (defaults self) with
    | Some (c :: n) => get_identity self (c :: n)
    | _ => None
    end in
  match named with
  | Some identity => Some identity
  | None => head (identities self)
  end.

(** [Config.get_smtp_for_identity] *)
Definition get_smtp_for_identity (self : t) (identity : Identity.t)
    : option SmtpServer.t :=
  get_smtp_server self (Identity.smtp_server identity).

End Config.

(** The tables of a parsed TOML document, as far as the loader reads
    them.  An absent key is [None]. *)
Inductive ports_value : Type :=
  | PortsInt (p : Z)
  | PortsList (ps : list Z).

Record smtp_table : Type := {
  st_name : option str;
  st_host : option str;
  st_ports : option ports_value;
  st_user : option str;
  st_password : option str;
  st_password_cmd : option str;
  st_password_encoding : option str;
  st_use_tls : option bool;
}.

Record identity_table : Type := {
  it_name : option str;
  it_email : option str;
  it_display_name : option str;
  it_smtp_server : option str;
  it_reply_to : option (list str);
}.

Record defaults_table : Type := {
  dt_retries : option Z;
  dt_interactive : option bool;
  dt_skip_confirmation : option bool;
  dt_default_identity : option str;
}.

Record toml_document : Type := {
  td_defaults : option defaults_table;
  td_smtp_servers : option (list smtp_table);
  td_identities : option (list identity_table);
}.

(** The configuration file as the loader finds it. *)
Inductive config_file : Type :=
  | FileMissing
  | FileInvalid (err : str)
  | FileParsed (data : toml_document).

(** [_parse_smtp_server] *)
Definition _parse_smtp_server (data : smtp_table) : result SmtpServer.t :=
  match st_name data with
  | Some (c :: n) =>
    let name := c :: n in
    match st_host data with
    | Some (h :: hs) =>
      let host := h :: hs in
      let ports :=
        match default (PortsList [DEFAULT_SMTP_PORT]) (st_ports data) with
        | PortsInt p => [p]
        | PortsList ps => ps
        end in
      let password_encoding := default (py "plain") (st_password_encoding data) in
      if negb (bool_decide (lower password_encoding = py "plain")
               || bool_decide (lower password_encoding = py "base64")) then
        Raise (ConfigError
          (py "SMTP server '" ++ name ++ py "' has invalid password_encoding: "
           ++ password_encoding ++ py ". Must be 'plain' or 'base64'"))
      else
        Ok {| SmtpServer.name := name;
              SmtpServer.host := host;
              SmtpServer.ports := ports;
              SmtpServer.user := st_user data;
              SmtpServer.password := st_password data;
              SmtpServer.password_cmd := st_password_cmd data;
              SmtpServer.password_encoding := password_encoding;
              SmtpServer.use_tls := default true (st_use_tls data) |}
    | _ =>
      Raise (ConfigError
        (py "SMTP server '" ++ name ++ py "' missing required 'host' field"))
    end
  | _ => Raise (ConfigError (py "SMTP server missing required 'name' field"))
  end.

(** [_parse_identity] *)
Definition _parse_identity (data : identity_table)
    (smtp_servers : list SmtpServer.t) : result Identity.t :=
  match it_name data with
  | Some (c :: n) =>
    let name := c :: n in
    match it_email data with
    | Some (e :: es) =>
      let email := e :: es in
      match it_smtp_server data with
      | Some (x :: xs) =>
        let smtp_server := x :: xs in
        let server_names := (fun s => lower (SmtpServer.name s)) <$> smtp_servers in
        if negb (bool_decide (lower smtp_server ∈ server_names)) then
          Raise (ConfigError
            (py "Identity '" ++ name ++ py "' references unknown SMTP server '"
             ++ smtp_server ++ py "'. Available: "
             ++ join (py ", ") (SmtpServer.name <$> smtp_servers)))
        else
          Ok (Identity.make name email (default [] (it_display_name data))
                smtp_server (default [] (it_reply_to data)))
      | _ =>
        Raise (ConfigError
          (py "Identity '" ++ name ++ py "' missing required 'smtp_server' field"))
      end
    | _ =>
      Raise (ConfigError
        (py "Identity '" ++ name ++ py "' missing required 'email' field"))
    end
  | _ => Raise (ConfigError (py "Identity missing required 'name' field"))
  end.

(** [_parse_defaults] *)
Definition _parse_defaults (data : defaults_table) : Defaults.t :=
  {| Defaults.retries := default DEFAULT_RETRIES (dt_retries data);
     Defaults.interactive := default true (dt_interactive data);
     Defaults.skip_confirmation := default false (dt_skip_confirmation data);
     Defaults.default_identity := dt_default_identity data |}.

Definition empty_defaults_table : defaults_table :=
  {| dt_retries := None; dt_interactive := None;
     dt_skip_confirmation := None; dt_default_identity := None |}.

(** [load_config], given the path it resolved and what is found there.
    The permission check only warns and is left out. *)
Definition load_config (path : str) (file : config_file) : result Config.t :=
  match file with
  | FileMissing => Raise (ConfigError (py "Config file not found: " ++ path))
  | FileInvalid e =>
    Raise (ConfigError (py "Invalid TOML in config file: " ++ e))
  | FileParsed data =>
    let defaults := _parse_defaults (default empty_defaults_table (td_defaults data)) in
    match default [] (td_smtp_servers data) with
    | [] => Raise (ConfigError (py "No SMTP servers configured in config file"))
    | smtp_servers_data =>
      smtp_servers ← mapM _parse_smtp_server smtp_servers_data;
      match default [] (td_identities data) with
      | [] => Raise (ConfigError (py "No identities configured in config file"))
      | identities_data =>
        identities ← mapM (fun i => _parse_identity i smtp_servers) identities_data;
        let unknown_default :=
          match Defaults.default_identity defaults with
          | Some (c :: n) =>
            negb (bool_decide
                    (lower (c :: n)
                     ∈ (fun i => lower (Identity.name i)) <$> identities))
          | _ => false
          end in
        if unknown_default then
          Raise (ConfigError
            (py "Default identity '"
             ++ default [] (Defaults.default_identity defaults)
             ++ py "' not found. Available: "
             ++ join (py ", ") (Identity.name <$> identities)))
        else
          Ok {| Config.defaults := defaults;
                Config.smtp_servers := smtp_servers;
                Config.identities := identities |}
      end
    end
  end.

(** [create_empty_config] *)
Definition create_empty_config : Config.t :=
  {| Config.defaults := Defaults.default;
     Config.smtp_servers := [];
     Config.identities := [] |}.

(** ** message.py: [EmailData] and its validation *)

(** A [pathlib.Path], by its string form. *)
Definition Path := str.

Module EmailData.

Record t : Type := {
  to : list str;
  cc : list str;
  bcc : list str;
  from_addr : str;
  from_name : option str;
  reply_to : option str;
  subject : str;
  body : str;
  attachments : list Path;
}.

(** [EmailData.all_recipients] *)
Definition all_recipients (d : t) : list str :=
  to d ++ cc d ++ bcc d.

(** [EmailData.is_empty] *)
Definition is_empty (d : t) : bool :=
  bool_decide (strip (body d) = []).

Section Validate.

(** The file system as [Path.exists] and [Path.is_file] see it. *)
Variable path_exists : Path -> bool.
Variable path_is_file : Path -> bool.

(** One iteration of the loop over the attachments. *)
Definition check_attachment (errors : list str) (attachment : Path) : list str :=
  if negb (path_exists attachment) then
    errors ++ [py "Attachment not found: " ++ attachment]
  else if negb (path_is_file attachment) then
    errors ++ [py "Attachment is not a file: " ++ attachment]
  else errors.

(** [EmailData.validate] *)
Definition validate (d : t) : list str :=
  let errors := [] in
  let errors :=
    match to d with
    | [] => errors ++ [py "No recipients specified"]
    | _ => errors
    end in
  let errors :=
    match from_addr d with
    | [] => errors ++ [py "No from address specified"]
    | _ => errors
    end in
  foldl check_attachment errors (attachments d).

(** The attachment is present and is a regular file. *)
Definition attachment_ok (a : Path) : bool :=
  path_exists a && path_is_file a.

End Validate.

End EmailData.

(** ** Computations in a world *)

(** A computation over a state [S] that may raise. *)
Definition io (S A : Type) : Type := S -> result A * S.

#[global] Instance io_ret {S} : MRet (io S) := fun _ a s => (Ok a, s).

#[global] Instance io_bind {S} : MBind (io S) := fun _ _ k m s =>
  match m s with
  | (Ok a, s') => k a s'
  | (Raise e, s') => (Raise e, s')
  end.

(** [raise e] *)
Definition throw {S A} (e : exn) : io S A := fun s => (Raise e, s).

(** A pure step that may raise, run in place. *)
Definition lift {S A} (r : result A) : io S A := fun s => (r, s).

(** A step that only changes the world. *)
Definition effect {S} (f : S -> S) : io S unit := fun s => (Ok tt, f s).

(** [try: body finally: cleanup]: the cleanup always runs; when it raises,
    its exception is the one that propagates. *)
Definition try_finally {S A} (body : io S A) (cleanup : io S unit) : io S A :=
  fun s =>
    let '(r, s') := body s in
    match cleanup s' with
    | (Ok _, s'') => (r, s'')
    | (Raise e, s'') => (Raise e, s'')
    end.

(** [try: body except <caught> as e: handler] *)
Definition try_except {S A} (body : io S A) (caught : exn -> bool)
    (handler : exn -> io S A) : io S A :=
  fun s =>
    match body s with
    | (Raise e, s') => if caught e then handler e s' else (Raise e, s')
    | r => r
    end.

(** [try: body except <caught>: pass] *)
Definition try_pass {S} (caught : exn -> bool) (body : io S unit) : io S unit :=
  try_except body caught (fun _ => mret tt).

(** ** composer.py: the template codec and the editing session *)

Module ComposedEmail.

Record t : Type := {
  to : list str;
  cc : list str;
  bcc : list str;
  from_addr : str;
  from_name : option str;
  reply_to : option str;
  subject : str;
  body : str;
  cancelled : bool;
}.

End ComposedEmail.

Definition NL : str := [10].
Definition DQUOTE : str := [34].

Definition TEMPLATE_SEPARATOR : str := py "---".

Definition INSTRUCTION_LINES : list (list N) :=
  [ py "# Terminal Mail - Email Composer";
    py "# Lines starting with '#' are comments and will be ignored.";
    py "# Edit the headers and body below, then save and exit.";
    py "#";
    py "# FROM IDENTITY: Uncomment ONE line to select your sending identity.";
    py "# DISPLAY NAME: Edit the name portion to customize (e.g., "
      ++ DQUOTE ++ py "Custom Name <email>" ++ DQUOTE ++ py ").";
    py "# REPLY-TO: Uncomment ONE line to select the reply-to address." ].

Definition HEADER_INSTRUCTIONS : str := join NL INSTRUCTION_LINES.

(** [get_editor], over [os.environ] *)
Definition get_editor (environ : str -> option str) : str :=
  or_else (environ (py "VISUAL")) (or_else (environ (py "EDITOR")) (py "vi")).

(** The line of one identity in the From menu. *)
Definition from_line (selected_identity : option Identity.t)
    (custom_display_name : option str) (identity : Identity.t) : str :=
  let is_selected := bool_decide (Some identity = selected_identity) in
  let prefix := if is_selected then [] else py "#" in
  let display_name :=
    if is_selected && truthy custom_display_name
    then default [] custom_display_name
    else Identity.display_name identity in
  let from_value :=
    match display_name with
    | [] => Identity.email identity
    | _ => display_name ++ py " <" ++ Identity.email identity ++ py ">"
    end in
  prefix ++ py "From: " ++ from_value ++ py "  # [" ++ Identity.name identity ++ py "]".

(** The line of one allowed address in the Reply-To menu. *)
Definition reply_to_line (effective_reply_to rt : str) : str :=
  let is_selected := bool_decide (rt = effective_reply_to) in
  let prefix := if is_selected then [] else py "#" in
  prefix ++ py "Reply-To: " ++ rt.

(** The identity the template preselects. *)
Definition select_identity (config : Config.t) (identity_name : option str)
    : option Identity.t :=
  let selected_identity :=
    match identity_name with
    | Some (c :: n) => Config.get_identity config (c :: n)
    | _ => None
    end in
  match selected_identity, Config.identities config with
  | None, _ :: _ => Config.get_default_identity config
  | _, _ => selected_identity
  end.

(** The Reply-To menu of the selected identity. *)
Definition reply_to_block (selected_identity : option Identity.t)
    (reply_to : option str) : list str :=
  match selected_identity with
  | Some sel =>
    match Identity.reply_to sel with
    | first :: _ =>
      let effective_reply_to := or_else reply_to first in
      [ py "# ┌─── REPLY-TO for [" ++ Identity.name sel ++ py "] (select one) ───┐" ]
      ++ (reply_to_line effective_reply_to <$> Identity.reply_to sel)
      ++ [ py "# └──────────────────────────────────────────────┘"; [] ]
    | [] => []
    end
  | None => []
  end.

(** [generate_template] *)
Definition generate_template (config : Config.t)
    (recipients cc bcc : option (list str))
    (identity_name reply_to subject body custom_display_name : option str) : str :=
  let lines := [HEADER_INSTRUCTIONS; []] in
  let identities := Config.identities config in
  let selected_identity := select_identity config identity_name in
  let lines := lines ++ [ py "# ┌─── FROM IDENTITY (select one) ───┐" ] in
  let lines := lines ++ (from_line selected_identity custom_display_name <$> identities) in
  let lines := lines ++ [ py "# └────────────────────────────────────┘"; [] ] in
  let lines := lines ++ reply_to_block selected_identity reply_to in
  let lines := lines ++ [ py "To: " ++ join (py ", ") (default [] recipients) ] in
  let lines := lines ++ [ py "Cc: " ++ join (py ", ") (default [] cc) ] in
  let lines := lines ++ [ py "Bcc: " ++ join (py ", ") (default [] bcc) ] in
  let lines := lines ++ [ py "Subject: " ++ or_else subject [] ] in
  let lines := lines ++ [ [] ] in
  let lines := lines ++ [ TEMPLATE_SEPARATOR ] in
  let lines := lines ++ [ [] ] in
  let lines := lines ++ [ or_else body [] ] in
  join NL lines.

(** [if "  #" in value: value = value.split("  #")[0].strip()] *)
Definition strip_trailing_comment (value : str) : result str :=
  if contains (py "  #") value
  then v ← index (split (py "  #") value) 0; Ok (strip v)
  else Ok value.

(** A header is set, or added after ", " to the value its key has. *)
Definition set_header (headers : gmap (list N) (list N)) (key value : str)
    : gmap (list N) (list N) :=
  match headers !! key with
  | Some (c :: old) => <[key := (c :: old) ++ py ", " ++ value]> headers
  | _ => <[key := value]> headers
  end.

(** One iteration of the loop over the header lines. *)
Definition parse_header_line (headers : gmap (list N) (list N)) (line : str)
    : result (gmap (list N) (list N)) :=
  let line := strip line in
  if bool_decide (line = []) || startswith line (py "#") then Ok headers
  else if contains (py ":") line then
    kv ← unpack2 (split_max (py ":") 1 line);
    let key := lower (strip kv.1) in
    let value := strip kv.2 in
    value ← strip_trailing_comment value;
    Ok (set_header headers key value)
  else Ok headers.

Fixpoint parse_header_lines (headers : gmap (list N) (list N)) (header_lines : list str)
    : result (gmap (list N) (list N)) :=
  match header_lines with
  | [] => Ok headers
  | line :: rest =>
    headers ← parse_header_line headers line;
    parse_header_lines headers rest
  end.

(** [[addr.strip() for addr in s.split(",") if addr.strip()]] *)
Definition parse_address_list (s : str) : list str :=
  strip <$> filter (fun addr => strip addr <> []) (split (py ",") s).

(** The From value as display name and address. *)
Definition parse_from (from_raw : str) : result (option str * str) :=
  if contains (py "<") from_raw && contains (py ">") from_raw then
    let parts := split (py "<") from_raw in
    p0 ← index parts 0;
    let from_name := match strip p0 with [] => None | n => Some n end in
    p1 ← index parts 1;
    a ← index (split (py ">") p1) 0;
    Ok (from_name, strip a)
  else Ok (None, from_raw).

Definition missing_separator_message : str :=
  py "Template missing separator line ('" ++ TEMPLATE_SEPARATOR ++ py "'). "
  ++ py "Please keep the separator between headers and body.".

(** [parse_template] *)
Definition parse_template (content : str) : result ComposedEmail.t :=
  let lines := split NL content in
  match list_find (fun line => strip line = TEMPLATE_SEPARATOR) lines with
  | None => Raise (ComposerError missing_separator_message)
  | Some (separator_idx, _) =>
    let header_lines := take separator_idx lines in
    let body_lines := drop (separator_idx + 1) lines in
    headers ← parse_header_lines ∅ header_lines;
    let from_raw := default [] (headers !! py "from") in
    from ← parse_from from_raw;
    let to_list := parse_address_list (default [] (headers !! py "to")) in
    let cc_list := parse_address_list (default [] (headers !! py "cc")) in
    let bcc_list := parse_address_list (default [] (headers !! py "bcc")) in
    let reply_to_raw := default [] (headers !! py "reply-to") in
    reply_to_raw ← strip_trailing_comment reply_to_raw;
    let reply_to := match reply_to_raw with [] => None | r => Some r end in
    let subject := default [] (headers !! py "subject") in
    let body := strip (join NL body_lines) in
    Ok {| ComposedEmail.to := to_list;
          ComposedEmail.cc := cc_list;
          ComposedEmail.bcc := bcc_list;
          ComposedEmail.from_addr := from.2;
          ComposedEmail.from_name := from.1;
          ComposedEmail.reply_to := reply_to;
          ComposedEmail.subject := subject;
          ComposedEmail.body := body;
          ComposedEmail.cancelled := false |}
  end.

(** *** Notions the round trip is stated with *)

(** A field that fits in a header line: one line, no comment marker. *)
Definition header_safe (s : str) : Prop := (10 ∉ s) /\ (35 ∉ s).

(** A list field after white-space normalization: every entry stripped,
    blank entries dropped, the order kept. *)
Definition stripped_entries (l : list str) : list str :=
  strip <$> filter (fun entry => strip entry <> []) l.

(** A text, or none when it is empty. *)
Definition some_text (s : str) : option str :=
  match s with [] => None | _ => Some s end.

(** A line the parser skips: empty, or a comment. *)
Definition skipped (line : str) : Prop :=
  line = [] \/ exists rest, line = 35 :: rest.

(** A line that cannot be taken for the separator: empty, or starting
    with a character that is neither white space nor a dash. *)
Definition no_separator (line : str) : Prop :=
  line = [] \/ exists c rest,
                 line = c :: rest /\ is_space c = false /\ c <> 45.

(** The name shown for the selected identity. *)
Definition shown_name (sel : Identity.t) (custom_display_name : option str)
    : str :=
  or_else custom_display_name (Identity.display_name sel).

(** The value of the From line of the selected identity. *)
Definition from_value (sel : Identity.t) (custom_display_name : option str)
    : str :=
  match shown_name sel custom_display_name with
  | [] => Identity.email sel
  | shown => shown ++ py " <" ++ Identity.email sel ++ py ">"
  end.

(** The lines of a generated template above the separator. *)
Definition template_header_lines (config : Config.t)
    (selected : option Identity.t) (recipients cc bcc : option (list str))
    (reply_to subject custom_display_name : option str) : list (list N) :=
  INSTRUCTION_LINES
  ++ [ []; py "# ┌─── FROM IDENTITY (select one) ───┐" ]
  ++ (from_line selected custom_display_name <$> Config.identities config)
  ++ [ py "# └────────────────────────────────────┘"; [] ]
  ++ reply_to_block selected reply_to
  ++ [ py "To: " ++ join (py ", ") (default [] recipients);
       py "Cc: " ++ join (py ", ") (default [] cc);
       py "Bcc: " ++ join (py ", ") (default [] bcc);
       py "Subject: " ++ or_else subject [];
       [] ].

(** The headers the parser collects from a generated template. *)
Definition generated_headers (selected : option Identity.t)
    (recipients cc bcc : option (list str))
    (reply_to subject custom_display_name : option str)
    : gmap (list N) (list N) :=
  let headers : gmap (list N) (list N) := ∅ in
  let headers :=
    match selected with
    | Some sel =>
      <[py "from" := strip (from_value sel custom_display_name)]> headers
    | None => headers
    end in
  let headers :=
    match selected with
    | Some sel =>
      match Identity.reply_to sel with
      | first :: _ =>
        if decide (or_else reply_to first ∈ Identity.reply_to sel)
        then <[py "reply-to" := strip (or_else reply_to first)]> headers
        else headers
      | [] => headers
      end
    | None => headers
    end in
  <[py "subject" := strip (default [] subject)]>
    (<[py "bcc" := strip (join (py ", ") (default [] bcc))]>
       (<[py "cc" := strip (join (py ", ") (default [] cc))]>
          (<[py "to" := strip (join (py ", ") (default [] recipients))]>
             headers))).

(** The reply-to address a parsed template gives for the selected
    identity: the effective one when it is among the allowed addresses. *)
Definition chosen_reply_to (sel : Identity.t) (reply_to : option str)
    : option str :=
  match Identity.reply_to sel with
  | first :: _ =>
    let effective_reply_to := or_else reply_to first in
    if decide (effective_reply_to ∈ Identity.reply_to sel)
    then some_text (strip effective_reply_to)
    else None
  | [] => None
  end.

(** The string has no character [c]. *)
Definition no_char (c : char) (s : str) : bool :=
  forallb (fun x => negb (x =? c)) s.

(** The result of a session in which nothing was edited. *)
Definition cancelled_email : ComposedEmail.t :=
  {| ComposedEmail.to := [];
     ComposedEmail.cc := [];
     ComposedEmail.bcc := [];
     ComposedEmail.from_addr := [];
     ComposedEmail.from_name := None;
     ComposedEmail.reply_to := None;
     ComposedEmail.subject := [];
     ComposedEmail.body := [];
     ComposedEmail.cancelled := true |}.

(** What a call into the operating system comes back with: it completes,
    or it raises [OSError]. *)
Inductive os_result (A : Type) : Type :=
  | Done (a : A)
  | Failed (err : str).
Arguments Done {A} a.
Arguments Failed {A} err.

Definition os_call {W A} (f : W -> os_result A * W) : io W A :=
  fun w =>
    match f w with
    | (Done a, w') => (Ok a, w')
    | (Failed err, w') => (Raise (OSError err), w')
    end.

Definition is_OSError (e : exn) : bool :=
  match e with OSError _ => true | _ => false end.

Section Session.

(** The operating system as the session uses it: the environment, the
    temporary file written with the template, [stat().st_mtime] (a
    timestamp, as a number), the editor run on the file and its exit
    code, reading the file back, and removing it. *)
Context {world : Type}.
Variable environ : str -> option str.
Variable NamedTemporaryFile : str -> world -> os_result Path * world.
Variable stat_mtime : Path -> world -> os_result Z * world.
Variable subprocess_run : list str -> world -> os_result Z * world.
Variable read_text : Path -> world -> os_result str * world.
Variable unlink : Path -> world -> os_result unit * world.

(** [compose_interactively] *)
Definition compose_interactively (config : Config.t)
    (recipients cc bcc : option (list str))
    (identity_name reply_to subject body custom_display_name : option str)
    : io world ComposedEmail.t :=
  let template :=
    generate_template config recipients cc bcc identity_name reply_to
      subject body custom_display_name in
  temp_path ← os_call (NamedTemporaryFile template);
  try_finally
    (mtime_before ← os_call (stat_mtime temp_path);
     let editor := get_editor environ in
     returncode ← os_call (subprocess_run [editor; temp_path]);
     if negb (returncode =? 0)%Z then
       throw (ComposerError (py "Editor exited with code " ++ str_of_Z returncode))
     else
       mtime_after ← os_call (stat_mtime temp_path);
       if (mtime_after =? mtime_before)%Z then mret cancelled_email
       else
         content ← os_call (read_text temp_path);
         lift (parse_template content))
    (try_pass is_OSError (os_call (unlink temp_path))).

End Session.

(** ** mailer.py: the delivery engine *)

Module SendResult.

Record t : Type := {
  success : bool;
  message : str;
  attempts : Z;
  smtp_response : option str;
}.

End SendResult.

(** An [EmailMessage], as far as the engine looks at it: [msg["From"]]
    and [msg.as_string()]. *)
Record EmailMessage : Type := {
  msg_From : option str;
  msg_as_string : str;
}.

(** What a delivery does that can be counted afterwards: the connections
    it opens and the waits it makes. *)
Inductive event : Type :=
  | Connect (port : Z)
  | Sleep (seconds : Z).

#[global] Instance event_eq_dec : EqDecision event.
Proof. solve_decision. Defined.

(** The waits of a history, added up. *)
Definition total_wait (history : list event) : Z :=
  foldr (fun e acc => match e with Sleep t => t + acc | Connect _ => acc end)%Z
    0%Z history.

(** The ports connected to, in order. *)
Definition connections (history : list event) : list Z :=
  omap (fun e => match e with Connect p => Some p | Sleep _ => None end) history.

(** The wait after an attempt, when another attempt remains. *)
Definition backoff (retries attempt : Z) : list event :=
  if (attempt <? retries)%Z then [Sleep (2 ^ attempt)] else [].

(** [sum(l)] *)
Definition sum (l : list Z) : Z := foldr Z.add 0%Z l.

(** [range(n)] *)
Definition range (n : Z) : list Z := Z.of_nat <$> seq 0 (Z.to_nat n).

Definition is_SMTPException (e : exn) : bool :=
  match e with SMTPException _ => true | _ => false end.

(** [except (smtplib.SMTPException, OSError)] *)
Definition is_transport_error (e : exn) : bool :=
  match e with SMTPException _ | OSError _ => true | _ => false end.

Section Mailer.

(** The network and the terminal.  An SMTP call either completes or
    raises; [sendmail] completes with the addresses the server refused and
    [noop] with the server's reply as it prints. *)
Context {world : Type}.
Variable subprocess_run : str -> Z -> process_outcome.
Variable print : str -> world -> world.
Variable SMTP_SSL : str -> Z -> io world unit.
Variable SMTP : str -> Z -> io world unit.
Variable starttls : io world unit.
Variable set_debuglevel : world -> world.
Variable login : str -> str -> io world unit.
Variable sendmail : str -> list str -> str -> io world (list str).
Variable noop : io world str.
Variable quit : io world unit.
Variable sleep : Z -> world -> world.

(** A delivery runs in the world and keeps the history of its
    connections and waits. *)
Record state : Type := { net : world; history : list event }.

Definition on_net {A} (m : io world A) : io state A :=
  fun st =>
    let '(r, w) := m (net st) in
    (r, {| net := w; history := history st |}).

Definition record (e : event) : io state unit :=
  effect (fun st => {| net := net st; history := history st ++ [e] |}).

Definition say (verbose : bool) (text : str) : io state unit :=
  if verbose then on_net (effect (print text)) else mret tt.

(** [time.sleep] *)
Definition time_sleep (seconds : Z) : io state unit :=
  record (Sleep seconds);; on_net (effect (sleep seconds)).

(** The connection of a cycle: implicit TLS on port 465, otherwise a
    plain connection upgraded with STARTTLS when [use_tls] is set. *)
Definition connect (host : str) (port : Z) (use_tls verbose : bool)
    : io state unit :=
  record (Connect port);;
  if (port =? 465)%Z then
    say verbose (py "Connecting via SMTPS to " ++ host ++ py ":" ++ str_of_Z port);;
    on_net (SMTP_SSL host port)
  else
    say verbose (py "Connecting via SMTP to " ++ host ++ py ":" ++ str_of_Z port);;
    on_net (SMTP host port);;
    if use_tls then
      say verbose (py "Starting TLS...");;
      on_net starttls
    else mret tt.

(** The authentication of a cycle: only with a user name and a secret. *)
Definition authenticate (username password : option str) (verbose : bool)
    : io state unit :=
  (if verbose then on_net (effect set_debuglevel) else mret tt);;
  if truthy username && truthy password then
    say verbose (py "Authenticating as " ++ default [] username);;
    on_net (login (default [] username) (default [] password))
  else mret tt.

(** The transmission of a cycle: the sender is taken from the message,
    the message goes to all recipients, and a refusal of any of them is
    an error. *)
Definition transmit (msg : EmailMessage) (recipients : list str)
    (verbose : bool) : io state str :=
  match msg_From msg with
  | Some (c :: s) =>
    let sender := c :: s in
    say verbose
      (py "Sending message to "
       ++ str_of_Z (Z.of_nat (length recipients)) ++ py " recipient(s)");;
    refused ← on_net (sendmail sender recipients (msg_as_string msg));
    match refused with
    | _ :: _ =>
      let failed_addrs := join (py ", ") refused in
      throw (MailerError (py "Some recipients were refused: " ++ failed_addrs))
    | [] =>
      response ← on_net noop;
      mret (py "250 OK (server response: " ++ response ++ py ")")
    end
  | _ => throw (MailerError (py "Message has no From header"))
  end.

(** The end of a cycle: [quit], whose SMTP errors are ignored. *)
Definition close : io state unit :=
  try_pass is_SMTPException (on_net quit).

(** [_send_via_smtp]: one connect-authenticate-transmit cycle. *)
Definition _send_via_smtp (msg : EmailMessage) (recipients : list str)
    (host : str) (port : Z) (username password : option str)
    (use_tls verbose : bool) : io state str :=
  connect host port use_tls verbose;;
  try_finally
    (authenticate username password verbose;;
     transmit msg recipients verbose)
    close.

(** The loop over the ports of one attempt.  It ends with the result to
    return ([inl]) or, when every port failed, with the last error. *)
Fixpoint try_ports (msg : EmailMessage) (recipients : list str)
    (smtp_server : SmtpServer.t) (password : option str) (retries : Z)
    (verbose : bool) (attempts : Z) (ports : list Z) (last_error : option exn)
    : io state (SendResult.t + option exn) :=
  match ports with
  | [] => mret (inr last_error)
  | port :: rest =>
    let host := SmtpServer.host smtp_server in
    say verbose
      (py "Attempting to connect to " ++ host ++ py ":" ++ str_of_Z port
       ++ py " (attempt " ++ str_of_Z attempts ++ py "/"
       ++ str_of_Z (retries + 1) ++ py ")");;
    try_except
      (response ← _send_via_smtp msg recipients host port
                    (SmtpServer.user smtp_server) password
                    (SmtpServer.use_tls smtp_server) verbose;
       mret (inl {| SendResult.success := true;
                    SendResult.message :=
                      py "Email sent successfully via " ++ host ++ py ":"
                      ++ str_of_Z port;
                    SendResult.attempts := attempts;
                    SendResult.smtp_response := Some response |}))
      is_transport_error
      (fun e =>
         let last_error := Some e in
         say verbose
           (py "Failed on port " ++ str_of_Z port ++ py ": " ++ exn_str e);;
         try_ports msg recipients smtp_server password retries verbose
           attempts rest last_error)
  end.

(** The result when no attempt is left. *)
Definition failure (attempts : Z) (last_error : option exn) : SendResult.t :=
  let error_msg :=
    match last_error with
    | Some e => exn_str e
    | None => py "Unknown error"
    end in
  {| SendResult.success := false;
     SendResult.message :=
       py "Failed to send email after " ++ str_of_Z attempts
       ++ py " attempt(s): " ++ error_msg;
     SendResult.attempts := attempts;
     SendResult.smtp_response := None |}.

(** The loop over the attempts still to make. *)
Fixpoint try_attempts (msg : EmailMessage) (recipients : list str)
    (smtp_server : SmtpServer.t) (password : option str) (retries : Z)
    (verbose : bool) (todo : list Z) (attempts : Z) (last_error : option exn)
    : io state SendResult.t :=
  match todo with
  | [] => mret (failure attempts last_error)
  | attempt :: rest =>
    let attempts := (attempt + 1)%Z in
    outcome ← try_ports msg recipients smtp_server password retries verbose
                attempts (SmtpServer.ports smtp_server) last_error;
    match outcome with
    | inl sent => mret sent
    | inr last_error =>
      (if (attempt <? retries)%Z then
         let wait_time := (2 ^ attempt)%Z in
         say verbose (py "Waiting " ++ str_of_Z wait_time ++ py "s before retry...");;
         time_sleep wait_time
       else mret tt);;
      try_attempts msg recipients smtp_server password retries verbose
        rest attempts last_error
    end
  end.

(** [send_email] *)
Definition send_email (msg : EmailMessage) (recipients : list str)
    (smtp_server : SmtpServer.t) (retries : Z) (verbose : bool)
    : io state SendResult.t :=
  let last_error : option exn := None in
  let attempts := 0%Z in
  password ← lift (SmtpServer.get_password subprocess_run smtp_server);
  try_attempts msg recipients smtp_server password retries verbose
    (range (retries + 1)) attempts last_error.

(** *** Notions the properties of the engine are stated with *)

(** A computation that leaves the history as it is. *)
Definition keeps_history {A} (m : io state A) : Prop :=
  forall st, history (m st).2 = history st.

(** Every cycle on a port of the server fails with a transport error. *)
Definition every_cycle_fails (msg : EmailMessage) (recipients : list str)
    (smtp_server : SmtpServer.t) (password : option str) (verbose : bool)
    : Prop :=
  forall (st : state) (port : Z),
    port ∈ SmtpServer.ports smtp_server ->
    exists e,
      (_send_via_smtp msg recipients (SmtpServer.host smtp_server) port
         (SmtpServer.user smtp_server) password
         (SmtpServer.use_tls smtp_server) verbose st).1 = Raise e
      /\ is_transport_error e = true.

(** The error a loop ends with is the one raised by the cycle that opened
    the last connection before [tail] was added to the history. *)
Definition raised_last (msg : EmailMessage) (recipients : list str)
    (smtp_server : SmtpServer.t) (password : option str) (verbose : bool)
    (ports : list Z) (last_error : option exn) (st' : state)
    (tail : list event) : Prop :=
  forall p, last ports = Some p ->
    exists e st_pre,
      last_error = Some e
      /\ (_send_via_smtp msg recipients (SmtpServer.host smtp_server) p
            (SmtpServer.user smtp_server) password
            (SmtpServer.use_tls smtp_server) verbose st_pre).1 = Raise e
      /\ history st' = history st_pre ++ [Connect p] ++ tail.

End Mailer.

Arguments state : clear implicits.

(** ** Concrete inputs *)

Module Example.

(** *** A server on two ports and a message to two recipients *)

Definition server : SmtpServer.t :=
  {| SmtpServer.name := py "test";
     SmtpServer.host := py "smtp.example.com";
     SmtpServer.ports := [587; 465]%Z;
     SmtpServer.user := None;
     SmtpServer.password := None;
     SmtpServer.password_cmd := None;
     SmtpServer.password_encoding := py "plain";
     SmtpServer.use_tls := true |}.

Definition message : EmailMessage :=
  {| msg_From := Some (py "sender@example.com");
     msg_as_string := py "From: sender@example.com" |}.

Definition recipients : list str :=
  [py "a@example.com"; py "b@example.com"].

(** *** The configuration of the composer's tests *)

Definition personal : Identity.t :=
  Identity.make (py "Personal Email") (py "user@example.com") (py "Test User")
    (py "personal_smtp") [py "user@example.com"; py "alias@example.com"].

Definition work : Identity.t :=
  Identity.make (py "Work Email") (py "work@company.com") []
    (py "work_smtp") [py "work@company.com"].

Definition sample_config : Config.t :=
  {| Config.defaults :=
       {| Defaults.retries := DEFAULT_RETRIES;
          Defaults.interactive := true;
          Defaults.skip_confirmation := false;
          Defaults.default_identity := Some (py "Personal Email") |};
     Config.smtp_servers := [];
     Config.identities := [personal; work] |}.

(** A template for [personal] with a reply-to address that is not one of
    its allowed addresses. *)
Definition template_other_reply_to : str :=
  generate_template sample_config (Some [py "friend@example.org"]) None None
    (Some (py "Personal Email")) (Some (py "other@example.org"))
    (Some (py "Hello")) (Some (py "How are you?")) None.

(** *** Secrets *)

(** A server whose secret comes from a command. *)
Definition command_server : SmtpServer.t :=
  {| SmtpServer.name := py "test";
     SmtpServer.host := py "smtp.example.com";
     SmtpServer.ports := [587]%Z;
     SmtpServer.user := Some (py "sender@example.com");
     SmtpServer.password := Some (py "static_password");
     SmtpServer.password_cmd := Some (py "pass show mail");
     SmtpServer.password_encoding := py "plain";
     SmtpServer.use_tls := true |}.

(** A password manager that prints the secret and a note below it. *)
Definition two_line_shell (cmd : str) (timeout : Z) : process_outcome :=
  CompletedProcess 0 (py "hunter2" ++ [10] ++ py "login: sender" ++ [10]) [].

(** A command that prints the secret alone. *)
Definition echo_shell (cmd : str) (timeout : Z) : process_outcome :=
  CompletedProcess 0 (py "hunter2" ++ [10]) [].

(** A server with a static base64 password. *)
Definition base64_server (password : str) : SmtpServer.t :=
  {| SmtpServer.name := py "test";
     SmtpServer.host := py "smtp.example.com";
     SmtpServer.ports := [587]%Z;
     SmtpServer.user := None;
     SmtpServer.password := Some password;
     SmtpServer.password_cmd := None;
     SmtpServer.password_encoding := py "base64";
     SmtpServer.use_tls := true |}.

(** A configuration file whose server has the password of the test for
    invalid base64. *)
Definition bad_password_file : config_file :=
  FileParsed
    {| td_defaults := None;
       td_smtp_servers :=
         Some [ {| st_name := Some (py "test");
                   st_host := Some (py "smtp.example.com");
                   st_ports := None;
                   st_user := None;
                   st_password := Some (py "not-valid-base64!!!");
                   st_password_cmd := None;
                   st_password_encoding := Some (py "base64");
                   st_use_tls := None |} ];
       td_identities :=
         Some [ {| it_name := Some (py "me");
                   it_email := Some (py "sender@example.com");
                   it_display_name := None;
                   it_smtp_server := Some (py "test");
                   it_reply_to := None |} ] |}.

(** *** Worlds without a state of their own *)

Definition no_shell (cmd : str) (timeout : Z) : process_outcome :=
  TimeoutExpired.

Definition silent (text : str) (w : unit) : unit := w.

Definition fine {A} (a : A) : io unit A := fun w => (Ok a, w).

Definition unreachable {A} : io unit A :=
  fun w => (Raise (OSError (py "Connection refused")), w).

(** A server that accepts the first recipient and refuses the others. *)
Definition refuse_rest (sender : str) (rcpts : list str) (data : str)
    : io unit (list str) :=
  fun w => (Ok (drop 1 rcpts), w).

Definition start : state unit := {| net := tt; history := [] |}.

(** A delivery to a server that refuses the second recipient. *)
Definition send_refused (retries : Z) : io (state unit) SendResult.t :=
  send_email no_shell silent (fun _ _ => fine tt) (fun _ _ => fine tt)
    (fine tt) (fun w => w) (fun _ _ => fine tt) refuse_rest
    (fine (py "(250, b'OK')")) (fine tt) (fun _ w => w)
    message recipients server retries false.

(** A delivery to a server that cannot be reached. *)
Definition send_unreachable (retries : Z) : io (state unit) SendResult.t :=
  send_email no_shell silent (fun _ _ => unreachable) (fun _ _ => unreachable)
    (fine tt) (fun w => w) (fun _ _ => fine tt) refuse_rest
    (fine (py "(250, b'OK')")) (fine tt) (fun _ w => w)
    message recipients server retries false.

(** *** An editing session in which the file is left as it was *)

Definition temp_file : Path := py "/tmp/tmpk3v9.tmail".

Definition no_environ (name : str) : option str := None.

Definition untouched_session : io unit ComposedEmail.t :=
  compose_interactively no_environ
    (fun _ w => (Done temp_file, w))
    (fun _ w => (Done 1700000000%Z, w))
    (fun _ w => (Done 0%Z, w))
    (fun _ w => (Done [], w))
    (fun _ w => (Done tt, w))
    create_empty_config None None None None None None None None.

End Example.

(** *** Notions the properties of the loader are stated with *)

(** A server table the loader accepts. *)
Definition smtp_table_valid (data : smtp_table) : Prop :=
  truthy (st_name data) = true /\ truthy (st_host data) = true
  /\ (lower (default (py "plain") (st_password_encoding data)) = py "plain"
      \/ lower (default (py "plain") (st_password_encoding data)) = py "base64").

(** An identity table the loader accepts, given the server tables. *)
Definition identity_table_valid (servers : list smtp_table)
    (data : identity_table) : Prop :=
  truthy (it_name data) = true /\ truthy (it_email data) = true
  /\ truthy (it_smtp_server data) = true
  /\ lower (default [] (it_smtp_server data))
     ∈ (fun s => lower (default [] (st_name s))) <$> servers.

(** ** config.py: the permission check *)

(** [stat.S_IRGRP], [stat.S_IWGRP], [stat.S_IROTH], [stat.S_IWOTH] *)
Definition S_IRGRP : Z := 32.
Definition S_IWGRP : Z := 16.
Definition S_IROTH : Z := 4.
Definition S_IWOTH : Z := 2.

Definition others_warning (config_path : Path) : str :=
  [10] ++ py "⚠️  WARNING: Config file " ++ config_path
  ++ py " is readable or writable by others!" ++ [10]
  ++ py "   This may expose passwords and sensitive information." ++ [10]
  ++ py "   Recommended: chmod 600 " ++ config_path.

Definition group_warning (config_path : Path) : str :=
  [10] ++ py "⚠️  WARNING: Config file " ++ config_path
  ++ py " is readable or writable by group!" ++ [10]
  ++ py "   Consider restricting permissions if it contains sensitive data."
  ++ [10] ++ py "   Recommended: chmod 600 " ++ config_path.

(** [_check_config_permissions], given what [os.stat(...).st_mode] comes
    back with ([Failed] when it raises the [OSError] or [AttributeError]
    the function catches).  The result is the warnings it issues. *)
Definition _check_config_permissions (os_stat : Path -> os_result Z)
    (config_path : Path) : list str :=
  match os_stat config_path with
  | Done mode =>
    let is_group_readable := negb (Z.land mode S_IRGRP =? 0)%Z in
    let is_other_readable := negb (Z.land mode S_IROTH =? 0)%Z in
    let is_group_writable := negb (Z.land mode S_IWGRP =? 0)%Z in
    let is_other_writable := negb (Z.land mode S_IWOTH =? 0)%Z in
    if is_other_readable || is_other_writable then
      [others_warning config_path]
    else if is_group_readable || is_group_writable then
      [group_warning config_path]
    else []
  | Failed _ => []
  end.

(** ** More concrete inputs *)

Module Sample.

(** The configuration file of the loader's test. *)
Definition valid_file : config_file :=
  FileParsed
    {| td_defaults :=
         Some {| dt_retries := Some 3%Z;
                 dt_interactive := Some false;
                 dt_skip_confirmation := Some true;
                 dt_default_identity := Some (py "personal") |};
       td_smtp_servers :=
         Some [ {| st_name := Some (py "gmail");
                   st_host := Some (py "smtp.gmail.com");
                   st_ports := Some (PortsList [587; 465]%Z);
                   st_user := Some (py "user@gmail.com");
                   st_password := Some (py "secret");
                   st_password_cmd := None;
                   st_password_encoding := Some (py "plain");
                   st_use_tls := None |} ];
       td_identities :=
         Some [ {| it_name := Some (py "personal");
                   it_email := Some (py "user@example.com");
                   it_display_name := Some (py "Test User");
                   it_smtp_server := Some (py "gmail");
                   it_reply_to :=
                     Some [py "user@example.com"; py "alias@example.com"] |} ] |}.

End Sample.

(** ** message.py: the domain of an address and the summary *)

(** [_extract_domain] *)
Definition _extract_domain (email : str) : result str :=
  if contains (py "@") email then index (split (py "@") email) 1
  else Ok (py "localhost").

Section Summary.

(** [Path.name], from the standard library. *)
Variable Path_name : Path -> str.

(** [format_message_summary] *)
Definition format_message_summary (data : EmailData.t) : str :=
  let lines := [] in
  let lines :=
    lines
    ++ [ py "From: "
         ++ (if truthy (EmailData.from_name data)
             then default [] (EmailData.from_name data) ++ py " <"
                  ++ EmailData.from_addr data ++ py ">"
             else EmailData.from_addr data) ] in
  let lines := lines ++ [ py "To: " ++ join (py ", ") (EmailData.to data) ] in
  let lines :=
    match EmailData.cc data with
    | [] => lines
    | _ => lines ++ [ py "Cc: " ++ join (py ", ") (EmailData.cc data) ]
    end in
  let lines :=
    match EmailData.bcc data with
    | [] => lines
    | _ => lines ++ [ py "Bcc: " ++ join (py ", ") (EmailData.bcc data) ]
    end in
  let lines :=
    if truthy (EmailData.reply_to data)
    then lines ++ [ py "Reply-To: " ++ default [] (EmailData.reply_to data) ]
    else lines in
  let lines := lines ++ [ py "Subject: " ++ EmailData.subject data ] in
  let lines :=
    match EmailData.attachments data with
    | [] => lines
    | _ =>
      lines
      ++ [ py "Attachments: "
           ++ join (py ", ") (Path_name <$> EmailData.attachments data) ]
    end in
  let lines := lines ++ [ [] ] in
  let lines := lines ++ [ py "--- Body ---" ] in
  let body_lines := split NL (strip (EmailData.body data)) in
  let lines :=
    if (10 <? length body_lines)%nat then
      (lines ++ take 10 body_lines)
      ++ [ py "... (" ++ str_of_Z (Z.of_nat (length body_lines) - 10)
           ++ py " more lines)" ]
    else lines ++ body_lines in
  join NL lines.

End Summary.

(** ** composer.py: the confirmation prompt *)

(** What [input()] comes back with: a line the user typed, the end of the
    input ([EOFError]) or an interrupt ([KeyboardInterrupt]). *)
Inductive answer : Type :=
  | Typed (line : str)
  | EndOfInput
  | Interrupt.

(** The terminal: the answers still to come (after the last of them the
    input has ended) and the texts printed, one for each [print]. *)
Record terminal : Type := {
  stdin : list answer;
  stdout : list str;
}.

Definition print_line (text : str) (t : terminal) : terminal :=
  {| stdin := stdin t; stdout := stdout t ++ [text] |}.

(** The loop of [confirm_send]: it asks until it gets an answer it
    knows, or none. *)
Fixpoint ask (answers : list answer) (printed : list str) : bool * terminal :=
  match answers with
  | Typed line :: rest =>
    let response := lower (strip line) in
    if bool_decide (response ∈ [ []; py "y"; py "yes" ]) then
      (true, {| stdin := rest; stdout := printed |})
    else if bool_decide (response ∈ [ py "n"; py "no" ]) then
      (false, {| stdin := rest; stdout := printed |})
    else ask rest (printed ++ [ py "Please answer 'y' or 'n'" ])
  | EndOfInput :: rest | Interrupt :: rest =>
    (false, {| stdin := rest; stdout := printed ++ [ [] ] |})
  | [] => (false, {| stdin := []; stdout := printed ++ [ [] ] |})
  end.

(** [confirm_send] *)
Definition confirm_send (Path_name : Path -> str) (email_data : EmailData.t)
    (t : terminal) : bool * terminal :=
  let t := print_line ([10] ++ replicate 60 61) t in
  let t := print_line (py "EMAIL SUMMARY") t in
  let t := print_line (replicate 60 61) t in
  let t := print_line (format_message_summary Path_name email_data) t in
  let t := print_line (replicate 60 61) t in
  ask (stdin t) (stdout t).

(** *** Notions the properties of the prompt are stated with *)

(** An answer the prompt takes for a yes, for a no, for neither. *)
Definition says_yes (line : str) : Prop :=
  lower (strip line) ∈ [ []; py "y"; py "yes" ].

Definition says_no (line : str) : Prop :=
  lower (strip line) ∈ [ py "n"; py "no" ].

Definition says_neither (line : str) : Prop :=
  ~ says_yes line /\ ~ says_no line.

(** What [confirm_send] prints before it asks. *)
Definition summary_banner (Path_name : Path -> str) (email_data : EmailData.t)
    : list str :=
  [ [10] ++ replicate 60 61; py "EMAIL SUMMARY"; replicate 60 61;
    format_message_summary Path_name email_data; replicate 60 61 ].

Module SampleMessage.

(** The message of the validation test. *)
Definition email : EmailData.t :=
  {| EmailData.to := [py "to@example.com"]; EmailData.cc := [];
     EmailData.bcc := []; EmailData.from_addr := py "from@example.com";
     EmailData.from_name := None; EmailData.reply_to := None;
     EmailData.subject := py "Test"; EmailData.body := py "Hello";
     EmailData.attachments := [] |}.

(** [Path.name] for a file name without a directory. *)
Definition bare_name (p : Path) : str := p.

End SampleMessage.

Module SampleSession.

(** A file system that is the list of the temporary files it holds, and
    an editor that changes the file and fails. *)
Definition create (template : str) (files : list Path)
    : os_result Path * list Path :=
  (Done Example.temp_file, Example.temp_file :: files).

Definition stat_mtime (path : Path) (files : list Path)
    : os_result Z * list Path :=
  (Done 1700000000%Z, files).

Definition failing_editor (argv : list str) (files : list Path)
    : os_result Z * list Path :=
  (Done 2%Z, files).

Definition read_text (path : Path) (files : list Path)
    : os_result str * list Path :=
  (Done (py "To: a@example.com"), files).

Definition unlink (path : Path) (files : list Path)
    : os_result unit * list Path :=
  (Done tt, filter (fun f => f <> path) files).

Definition failed_session : io (list Path) ComposedEmail.t :=
  compose_interactively Example.no_environ create stat_mtime failing_editor
    read_text unlink create_empty_config None None None None None None None
    None.

End SampleSession.

Module SampleDelivery.

(** A server that accepts every recipient. *)
Definition accept_all (sender : str) (rcpts : list str) (data : str)
    : io unit (list str) :=
  Example.fine [].

(** A delivery to a server that is reachable on its SMTPS port only. *)
Definition send_smtps_only (retries : Z) : io (state unit) SendResult.t :=
  send_email Example.no_shell Example.silent
    (fun _ _ => Example.fine tt) (fun _ _ => Example.unreachable)
    (Example.fine tt) (fun w => w) (fun _ _ => Example.fine tt) accept_all
    (Example.fine (py "(250, b'OK')")) (Example.fine tt) (fun _ w => w)
    Example.message Example.recipients Example.server retries false.

End SampleDelivery.

(** ** mailer.py: the connection test *)

Section Probe.

Context {world : Type}.
Variable subprocess_run : str -> Z -> process_outcome.
Variable print : str -> world -> world.
Variable SMTP_SSL : str -> Z -> io world unit.
Variable SMTP : str -> Z -> io world unit.
Variable starttls : io world unit.
Variable set_debuglevel : world -> world.
Variable login : str -> str -> io world unit.
Variable quit : io world unit.

(** The loop of [test_connection] over the ports: connect, authenticate
    when there is a user name and a secret, quit. *)
Fixpoint probe_ports (smtp_server : SmtpServer.t) (password : option str)
    (verbose : bool) (ports : list Z) : io (state world) SendResult.t :=
  match ports with
  | [] =>
    mret {| SendResult.success := false;
            SendResult.message :=
              py "Failed to connect to " ++ SmtpServer.host smtp_server
              ++ py " on any port";
            SendResult.attempts := 1;
            SendResult.smtp_response := None |}
  | port :: rest =>
    let host := SmtpServer.host smtp_server in
    try_except
      (record (Connect port);;
       (if (port =? 465)%Z then on_net (SMTP_SSL host port)
        else
          (on_net (SMTP host port);;
           if SmtpServer.use_tls smtp_server then on_net starttls
           else mret tt));;
       (if verbose then on_net (effect set_debuglevel) else mret tt);;
       (if truthy (SmtpServer.user smtp_server) && truthy password then
          on_net (login (default [] (SmtpServer.user smtp_server))
                    (default [] password))
        else mret tt);;
       on_net quit;;
       mret {| SendResult.success := true;
               SendResult.message :=
                 py "Successfully connected to " ++ host ++ py ":"
                 ++ str_of_Z port;
               SendResult.attempts := 1;
               SendResult.smtp_response := None |})
      is_transport_error
      (fun e =>
         say print verbose
           (py "Connection failed on port " ++ str_of_Z port ++ py ": "
            ++ exn_str e);;
         probe_ports smtp_server password verbose rest)
  end.

(** [test_connection] *)
Definition test_connection (smtp_server : SmtpServer.t) (verbose : bool)
    : io (state world) SendResult.t :=
  password ← lift (SmtpServer.get_password subprocess_run smtp_server);
  probe_ports smtp_server password verbose (SmtpServer.ports smtp_server).

End Probe.

Module SampleProbe.

(** The connection test of a server reachable on its SMTPS port only. *)
Definition probe_smtps_only : io (state unit) SendResult.t :=
  test_connection Example.no_shell Example.silent
    (fun _ _ => Example.fine tt) (fun _ _ => Example.unreachable)
    (Example.fine tt) (fun w => w) (fun _ _ => Example.fine tt)
    (Example.fine tt) Example.server false.

End SampleProbe.

(** ** message.py: building the message *)

Section BuildMessage.

(** The standard library as [build_message] uses it: an [EmailMessage]
    is a value of [M]; setting a header or the content and adding an
    attachment give the message back or raise; the date comes from the
    clock and the message id from the clock and the random source, both
    in the world [W]. *)
Context {W M : Type}.
Variable path_exists : Path -> bool.
Variable path_is_file : Path -> bool.
Variable EmailMessage_new : M.
Variable setitem : str -> str -> M -> result M.
Variable formataddr : str -> str -> result str.
Variable formatdate : W -> str * W.
Variable make_msgid : str -> W -> str * W.
Variable set_content : str -> M -> result M.
Variable guess_type : Path -> option str.
Variable read_bytes : Path -> W -> os_result (list N) * W.
Variable add_attachment : list N -> str -> str -> str -> M -> result M.
Variable Path_name : Path -> str.

(** [_add_attachment] *)
Definition _add_attachment (msg : M) (path : Path) : io W M :=
  let mime_type := default (py "application/octet-stream") (guess_type path) in
  types ← lift (unpack2 (split_max (py "/") 1 mime_type));
  content ← os_call (read_bytes path);
  lift (add_attachment content types.1 types.2 (Path_name path) msg).

(** The loop over the attachments. *)
Fixpoint add_attachments (msg : M) (attachments : list Path) : io W M :=
  match attachments with
  | [] => mret msg
  | attachment_path :: rest =>
    msg ← _add_attachment msg attachment_path;
    add_attachments msg rest
  end.

(** [build_message] *)
Definition build_message (data : EmailData.t) : io W M :=
  let errors := EmailData.validate path_exists path_is_file data in
  match errors with
  | _ :: _ =>
    throw (MessageError
             (py "Invalid email data:" ++ NL
              ++ join NL ((fun e => py "  - " ++ e) <$> errors)))
  | [] =>
    let msg := EmailMessage_new in
    msg ← (if truthy (EmailData.from_name data) then
             from ← lift (formataddr (default [] (EmailData.from_name data))
                            (EmailData.from_addr data));
             lift (setitem (py "From") from msg)
           else lift (setitem (py "From") (EmailData.from_addr data) msg));
    msg ← lift (setitem (py "To") (join (py ", ") (EmailData.to data)) msg);
    msg ← match EmailData.cc data with
          | [] => mret msg
          | _ => lift (setitem (py "Cc") (join (py ", ") (EmailData.cc data)) msg)
          end;
    msg ← (if truthy (EmailData.reply_to data) then
             lift (setitem (py "Reply-To")
                     (default [] (EmailData.reply_to data)) msg)
           else mret msg);
    msg ← lift (setitem (py "Subject") (EmailData.subject data) msg);
    date ← (fun w => let '(d, w') := formatdate w in (Ok d, w'));
    msg ← lift (setitem (py "Date") date msg);
    domain ← lift (_extract_domain (EmailData.from_addr data));
    msgid ← (fun w => let '(i, w') := make_msgid domain w in (Ok i, w'));
    msg ← lift (setitem (py "Message-ID") msgid msg);
    match EmailData.attachments data with
    | _ :: _ =>
      msg ← lift (set_content (EmailData.body data) msg);
      add_attachments msg (EmailData.attachments data)
    | [] => lift (set_content (EmailData.body data) msg)
    end
  end.

End BuildMessage.

(** ** cli.py: the parsed arguments *)

Module Args.

Record t : Type := {
  recipients : list str;
  subject : option str;
  cc : list str;
  bcc : list str;
  from_addr : option str;
  attachments : list Path;
  ignore_interrupts : bool;
  verbose : bool;
  no_config : bool;
  discard_empty : bool;
  config_path : Path;
  identity : option str;
  display_name : option str;
  reply_to : option str;
  interactive : option bool;
  skip_confirmation : bool;
  retries : option Z;
  dry_run : bool;
  list_accounts : bool;
}.

End Args.

(** ** __main__.py: the program *)

(** Where the program runs: the terminal, the error stream and the rest
    of the operating system. *)
Record machine (W : Type) : Type := {
  console : terminal;
  stderr : list str;
  os : W;
}.
Arguments console {W} m.
Arguments stderr {W} m.
Arguments os {W} m.

(** [print(text)] and [print(text, file=sys.stderr)] *)
Definition print_out {W} (text : str) (m : machine W) : machine W :=
  {| console := print_line text (console m); stderr := stderr m; os := os m |}.

Definition print_err {W} (text : str) (m : machine W) : machine W :=
  {| console := console m; stderr := stderr m ++ [text]; os := os m |}.

(** A step in the operating system, run on the machine. *)
Definition on_os {W A} (step : io W A) : io (machine W) A :=
  fun m =>
    let '(r, w) := step (os m) in
    (r, {| console := console m; stderr := stderr m; os := w |}).

Definition on_os_call {W A} (call : W -> os_result A * W)
    (m : machine W) : os_result A * machine W :=
  let '(r, w) := call (os m) in
  (r, {| console := console m; stderr := stderr m; os := w |}).

(** A step on the terminal, run on the machine. *)
Definition on_console {W A} (step : terminal -> A * terminal)
    : io (machine W) A :=
  fun m =>
    let '(a, t) := step (console m) in
    (Ok a, {| console := t; stderr := stderr m; os := os m |}).

(** [a or b] for values that are a string or [None]. *)
Definition or_opt (a b : option str) : option str :=
  if truthy a then a else b.

(** The lines [for line in sys.stdin] gives before the input ends or is
    interrupted, and what is left of the input.  Here a typed line is
    taken with its line end. *)
Fixpoint stdin_lines (answers : list answer) : list str * list answer :=
  match answers with
  | Typed line :: rest =>
    let '(lines, remaining) := stdin_lines rest in (line :: lines, remaining)
  | EndOfInput :: rest | Interrupt :: rest => ([], rest)
  | [] => ([], [])
  end.

(** [read_body_from_stdin] *)
Definition read_body_from_stdin (isatty : bool) (t : terminal)
    : str * terminal :=
  let t :=
    if isatty then print_line (py "Enter message body (Ctrl+D to finish):") t
    else t in
  let '(lines, remaining) := stdin_lines (stdin t) in
  (mjoin lines, {| stdin := remaining; stdout := stdout t |}).

(** [repr] of a list of integers *)
Definition repr_ports (ports : list Z) : str :=
  py "[" ++ join (py ", ") (str_of_Z <$> ports) ++ py "]".

(** What [_list_accounts] prints for a configuration with identities. *)
Definition accounts_listing (config : Config.t) : list str :=
  [ py "SMTP Servers:" ]
  ++ (Config.smtp_servers config ≫= fun server =>
        [ py "  [" ++ SmtpServer.name server ++ py "]";
          py "    Host: " ++ SmtpServer.host server;
          py "    Ports: " ++ repr_ports (SmtpServer.ports server) ])
  ++ [ [10] ++ py "Identities:" ]
  ++ (Config.identities config ≫= fun identity =>
        let smtp := Config.get_smtp_for_identity config identity in
        let smtp_info :=
          match smtp with
          | Some _ => py " via [" ++ Identity.smtp_server identity ++ py "]"
          | None => []
          end in
        let default_marker :=
          if bool_decide (Some (Identity.name identity)
                          = Defaults.default_identity (Config.defaults config))
          then py " (default)" else [] in
        [ py "  [" ++ Identity.name identity ++ py "]" ++ default_marker;
          py "    Email: " ++ Identity.email identity;
          py "    Display Name: "
          ++ or_else (Some (Identity.display_name identity)) (py "(none)");
          py "    SMTP Server: " ++ Identity.smtp_server identity;
          py "    Reply-To options: "
          ++ join (py ", ") (Identity.reply_to identity) ]).

(** [_list_accounts] *)
Definition _list_accounts {W} (config : Config.t) : io (machine W) Z :=
  match Config.identities config with
  | [] => effect (print_out (py "No identities configured."));; mret 0%Z
  | _ =>
    effect (fun m => foldl (fun m text => print_out text m) m
                       (accounts_listing config));;
    mret 0%Z
  end.

(** What [_run] needs from outside the program: the file system, the
    terminal, the shell, the editor, the clock, the warnings and e-mail
    packages of the standard library and the network. *)
Module Platform.

Set Implicit Arguments.

Record t (W M : Type) : Type := {
  expanduser : Path -> Path;
  config_file_at : Path -> W -> config_file;
  os_stat : Path -> W -> os_result Z;
  warn : str -> W -> W;
  shell : str -> Z -> process_outcome;
  isatty : bool;
  environ : str -> option str;
  NamedTemporaryFile : str -> W -> os_result Path * W;
  stat_mtime : Path -> W -> os_result Z * W;
  run_editor : list str -> W -> os_result Z * W;
  read_text : Path -> W -> os_result str * W;
  unlink : Path -> W -> os_result unit * W;
  path_exists : Path -> bool;
  path_is_file : Path -> bool;
  Path_name : Path -> str;
  EmailMessage_new : M;
  setitem : str -> str -> M -> result M;
  formataddr : str -> str -> result str;
  formatdate : W -> str * W;
  make_msgid : str -> W -> str * W;
  set_content : str -> M -> result M;
  guess_type : Path -> option str;
  read_bytes : Path -> W -> os_result (list N) * W;
  add_attachment : list N -> str -> str -> str -> M -> result M;
  getitem_From : M -> option str;
  as_string : M -> str;
  SMTP_SSL : str -> Z -> io W unit;
  SMTP : str -> Z -> io W unit;
  starttls : io W unit;
  set_debuglevel : W -> W;
  login : str -> str -> io W unit;
  sendmail : str -> list str -> str -> io W (list str);
  noop : io W str;
  quit : io W unit;
  sleep : Z -> W -> W;
}.

Unset Implicit Arguments.

End Platform.

Definition is_ConfigError (e : exn) : bool :=
  match e with ConfigError _ => true | _ => false end.

Section Program.

Context {W M : Type}.
Variable p : Platform.t W M.

Definition out (text : str) : io (state (machine W)) unit :=
  on_net (effect (print_out text)).

Definition err (text : str) : io (state (machine W)) unit :=
  on_net (effect (print_err text)).

Fixpoint err_each (texts : list str) : io (state (machine W)) unit :=
  match texts with
  | [] => mret tt
  | text :: rest => err text;; err_each rest
  end.

Definition in_os {A} (step : io W A) : io (state (machine W)) A :=
  on_net (on_os step).

Definition on_os_world (f : W -> W) (m : machine W) : machine W :=
  {| console := console m; stderr := stderr m; os := f (os m) |}.

(** [send_email], on the machine. *)
Definition deliver (msg : M) (recipients : list str)
    (smtp_server : SmtpServer.t) (retries : Z) (verbose : bool)
    : io (state (machine W)) SendResult.t :=
  send_email (Platform.shell p) print_out
    (fun host port => on_os (Platform.SMTP_SSL p host port))
    (fun host port => on_os (Platform.SMTP p host port))
    (on_os (Platform.starttls p))
    (on_os_world (Platform.set_debuglevel p))
    (fun user password => on_os (Platform.login p user password))
    (fun sender rcpts data =>
       on_os (Platform.sendmail p sender rcpts data))
    (on_os (Platform.noop p))
    (on_os (Platform.quit p))
    (fun seconds => on_os_world (Platform.sleep p seconds))
    {| msg_From := Platform.getitem_From p msg;
       msg_as_string := Platform.as_string p msg |}
    recipients smtp_server retries verbose.

(** [warnings.warn], for each warning of a list *)
Fixpoint warn_each (texts : list str) : io (state (machine W)) unit :=
  match texts with
  | [] => mret tt
  | text :: rest =>
    on_net (effect (on_os_world (Platform.warn p text)));;
    warn_each rest
  end.

(** [load_config], on the machine: the file is looked up, the permission
    check issues its warnings when the file is there, and what the file
    holds is parsed. *)
Definition load_config_on (config_path : Path)
    : io (state (machine W)) Config.t :=
  fun st =>
    let path := Platform.expanduser p config_path in
    let file := Platform.config_file_at p path (os (net st)) in
    match file with
    | FileMissing => lift (load_config path file) st
    | _ =>
      (warn_each
         (_check_config_permissions
            (fun q => Platform.os_stat p q (os (net st))) path);;
       lift (load_config path file)) st
    end.

(** The configuration [_run] works with: none with [-n]; the loaded one;
    or none, after a warning, when loading fails with an error that says
    "not found" and a from address is given. *)
Definition resolve_config (args : Args.t) : io (state (machine W)) Config.t :=
  if Args.no_config args then mret create_empty_config
  else
    try_except (load_config_on (Args.config_path args)) is_ConfigError
      (fun e =>
         if contains (py "not found") (exn_str e)
            && truthy (Args.from_addr args)
         then err (py "Warning: " ++ exn_str e);; mret create_empty_config
         else throw e).

(** The identity [_run] resolves, or the exit code when it gives up. *)
Definition resolve_identity (args : Args.t) (config : Config.t)
    : io (state (machine W)) (Z + option Identity.t) :=
  if truthy (Args.identity args) then
    match Config.get_identity config (default [] (Args.identity args)) with
    | Some identity => mret (inr (Some identity))
    | None =>
      err (py "Error: Identity '" ++ default [] (Args.identity args)
           ++ py "' not found.");;
      err (py "Available identities: "
           ++ join (py ", ") (Identity.name <$> Config.identities config));;
      mret (inl 1%Z)
    end
  else if truthy (Args.from_addr args) then
    match Config.get_identity_by_email config
            (default [] (Args.from_addr args)) with
    | Some identity => mret (inr (Some identity))
    | None =>
      if negb (Args.no_config args) then
        err (py "Error: No identity configured for '"
             ++ default [] (Args.from_addr args) ++ py "'");;
        err (py "Available identities: "
             ++ join (py ", ")
                  ((fun i => Identity.name i ++ py " (" ++ Identity.email i
                             ++ py ")") <$> Config.identities config));;
        mret (inl 1%Z)
      else mret (inr None)
    end
  else
    match Config.identities config with
    | _ :: _ => mret (inr (Config.get_default_identity config))
    | [] => mret (inr None)
    end.

(** The end of [_run], from the check of the body on. *)
Definition finish (args : Args.t) (skip_confirmation : bool) (retries : Z)
    (smtp_server : option SmtpServer.t) (email_data : EmailData.t)
    : io (state (machine W)) Z :=
  let checked : io (state (machine W)) Z :=
    let errors :=
      EmailData.validate (Platform.path_exists p)
        (Platform.path_is_file p) email_data in
    match errors with
    | _ :: _ =>
      err_each ((fun error => py "Error: " ++ error) <$> errors);;
      mret 1%Z
    | [] =>
      if Args.dry_run args then
        out (py "DRY RUN - Email would be sent:");;
        out (format_message_summary (Platform.Path_name p) email_data);;
        match smtp_server with
        | Some server =>
          out ([10] ++ py "Using SMTP: " ++ SmtpServer.name server
               ++ py " (" ++ SmtpServer.host server ++ py ")")
        | None => mret tt
        end;;
        mret 0%Z
      else
        confirmed ←
          (if negb skip_confirmation && Platform.isatty p then
             on_net (on_console
                       (confirm_send (Platform.Path_name p) email_data))
           else mret true);
        if negb confirmed then out (py "Email not sent.");; mret 0%Z
        else
          match smtp_server with
          | None =>
            err (py "Error: No SMTP server available for sending.");;
            mret 1%Z
          | Some server =>
            msg ← in_os
                    (build_message (Platform.path_exists p)
                       (Platform.path_is_file p)
                       (Platform.EmailMessage_new p)
                       (Platform.setitem p) (Platform.formataddr p)
                       (Platform.formatdate p) (Platform.make_msgid p)
                       (Platform.set_content p) (Platform.guess_type p)
                       (Platform.read_bytes p)
                       (Platform.add_attachment p)
                       (Platform.Path_name p) email_data);
            let recipients := EmailData.all_recipients email_data in
            (if Args.verbose args then
               out (py "Sending email via " ++ SmtpServer.name server
                    ++ py " (" ++ SmtpServer.host server ++ py ")...")
             else mret tt);;
            result ← deliver msg recipients server retries
                       (Args.verbose args);
            if SendResult.success result then
              out (SendResult.message result);; mret 0%Z
            else
              err (py "Error: " ++ SendResult.message result);; mret 1%Z
          end
    end in
  if EmailData.is_empty email_data then
    if Args.discard_empty args then
      (if Args.verbose args then
         out (py "Message body is empty, discarding.")
       else mret tt);;
      mret 0%Z
    else err (py "Warning: Message body is empty.");; checked
  else checked.

(** [_run] *)
Definition _run (args : Args.t) : io (state (machine W)) Z :=
  config ← resolve_config args;
  if Args.list_accounts args then on_net (_list_accounts config)
  else
    let interactive :=
      default (Defaults.interactive (Config.defaults config))
        (Args.interactive args) in
    let skip_confirmation :=
      Args.skip_confirmation args
      || Defaults.skip_confirmation (Config.defaults config) in
    let retries :=
      default (Defaults.retries (Config.defaults config))
        (Args.retries args) in
    resolved ← resolve_identity args config;
    match resolved with
    | inl code => mret code
    | inr identity =>
      match identity, Args.no_config args with
      | None, false =>
        err (py "Error: No identity available. Configure an identity in "
             ++ py "~/.tmail.conf or use --identity.");;
        mret 1%Z
      | _, _ =>
        let smtp_server :=
          identity ≫= Config.get_smtp_for_identity config in
        match identity, smtp_server with
        | Some chosen, None =>
          err (py "Error: SMTP server '" ++ Identity.smtp_server chosen
               ++ py "' not found for identity '" ++ Identity.name chosen
               ++ py "'.");;
          mret 1%Z
        | _, _ =>
          match identity with
          | Some chosen =>
            if truthy (Args.reply_to args)
               && negb (bool_decide (default [] (Args.reply_to args)
                                     ∈ Identity.reply_to chosen))
            then
              err (py "Warning: Reply-To '" ++ default [] (Args.reply_to args)
                   ++ py "' not in allowed list for '"
                   ++ Identity.name chosen ++ py "'.");;
              err (py "Allowed: "
                   ++ join (py ", ") (Identity.reply_to chosen))
            else mret tt
          | None => mret tt
          end;;
          if interactive && Platform.isatty p then
            composed ←
              in_os
                (compose_interactively (Platform.environ p)
                   (Platform.NamedTemporaryFile p)
                   (Platform.stat_mtime p) (Platform.run_editor p)
                   (Platform.read_text p) (Platform.unlink p)
                   config (Some (Args.recipients args)) (Some (Args.cc args))
                   (Some (Args.bcc args)) (Identity.name <$> identity)
                   (Args.reply_to args) (Args.subject args) None
                   (Args.display_name args));
            if ComposedEmail.cancelled composed then
              out (py "Email composition cancelled.");; mret 0%Z
            else
              let new_identity :=
                match ComposedEmail.from_addr composed with
                | [] => None
                | from_addr => Config.get_identity_by_email config from_addr
                end in
              let identity :=
                match new_identity with
                | Some found => Some found
                | None => identity
                end in
              let smtp_server :=
                match new_identity with
                | Some found => Config.get_smtp_for_identity config found
                | None => smtp_server
                end in
              let effective_display_name :=
                or_opt (ComposedEmail.from_name composed)
                  (or_opt (Args.display_name args)
                     (Identity.display_name <$> identity)) in
              finish args skip_confirmation retries smtp_server
                {| EmailData.to := ComposedEmail.to composed;
                   EmailData.cc := ComposedEmail.cc composed;
                   EmailData.bcc := ComposedEmail.bcc composed;
                   EmailData.from_addr := ComposedEmail.from_addr composed;
                   EmailData.from_name := effective_display_name;
                   EmailData.reply_to := ComposedEmail.reply_to composed;
                   EmailData.subject := ComposedEmail.subject composed;
                   EmailData.body := ComposedEmail.body composed;
                   EmailData.attachments := Args.attachments args |}
          else
            body ← on_net (on_console
                             (read_body_from_stdin (Platform.isatty p)));
            let effective_display_name :=
              or_opt (Args.display_name args)
                (Identity.display_name <$> identity) in
            finish args skip_confirmation retries smtp_server
              {| EmailData.to := Args.recipients args;
                 EmailData.cc := Args.cc args;
                 EmailData.bcc := Args.bcc args;
                 EmailData.from_addr :=
                   match Args.from_addr args with
                   | Some (c :: s) => c :: s
                   | _ =>
                     match identity with
                     | Some chosen => Identity.email chosen
                     | None => []
                     end
                   end;
                 EmailData.from_name := effective_display_name;
                 EmailData.reply_to := Args.reply_to args;
                 EmailData.subject := or_else (Args.subject args) [];
                 EmailData.body := body;
                 EmailData.attachments := Args.attachments args |}
        end
      end
    end.

End Program.

(** *** Notions the properties of the program are stated with *)

(** A step of the program that ends with exit code 0 or 1 when it
    returns, and that adds to the history only events that satisfy [C]. *)
Definition sends_only {W} (C : result Z -> list event -> Prop)
    (m : io (state (machine W)) Z) : Prop :=
  forall st r st', m st = (r, st') ->
    (forall code, r = Ok code -> code = 0 \/ code = 1)%Z
    /\ (history st' = history st
        \/ exists tail, history st' = history st ++ tail /\ C r tail).


(** A machine for [_run]: the configuration file of the loader's test is
    at [tmail.conf] and nowhere else, standard input is not a terminal,
    and the server is reachable on its SMTPS port only. *)
Module SampleProgram.

Definition platform : Platform.t unit unit :=
  {| Platform.expanduser := fun path => path;
     Platform.config_file_at := fun path _ =>
       if bool_decide (path = py "tmail.conf") then Sample.valid_file
       else FileMissing;
     Platform.os_stat := fun _ _ => Done 33152%Z;
     Platform.warn := fun _ w => w;
     Platform.shell := Example.no_shell;
     Platform.isatty := false;
     Platform.environ := fun _ => None;
     Platform.NamedTemporaryFile := fun _ w => (Failed (py "Read-only file system"), w);
     Platform.stat_mtime := fun _ w => (Done 0%Z, w);
     Platform.run_editor := fun _ w => (Done 0%Z, w);
     Platform.read_text := fun _ w => (Done [], w);
     Platform.unlink := fun _ w => (Done tt, w);
     Platform.path_exists := fun _ => true;
     Platform.path_is_file := fun _ => true;
     Platform.Path_name := fun path => path;
     Platform.EmailMessage_new := tt;
     Platform.setitem := fun _ _ msg => Ok msg;
     Platform.formataddr := fun name addr => Ok (name ++ py " <" ++ addr ++ py ">");
     Platform.formatdate := fun w => (py "Thu, 01 Jan 1970 00:00:00 -0000", w);
     Platform.make_msgid := fun domain w => (py "<0@" ++ domain ++ py ">", w);
     Platform.set_content := fun _ msg => Ok msg;
     Platform.guess_type := fun _ => None;
     Platform.read_bytes := fun _ w => (Done [], w);
     Platform.add_attachment := fun _ _ _ _ msg => Ok msg;
     Platform.getitem_From := fun _ => Some (py "user@example.com");
     Platform.as_string := fun _ => py "Subject: Hello";
     Platform.SMTP_SSL := fun _ _ => Example.fine tt;
     Platform.SMTP := fun _ _ => Example.unreachable;
     Platform.starttls := Example.fine tt;
     Platform.set_debuglevel := fun w => w;
     Platform.login := fun _ _ => Example.fine tt;
     Platform.sendmail := SampleDelivery.accept_all;
     Platform.noop := Example.fine (py "(250, b'OK')");
     Platform.quit := Example.fine tt;
     Platform.sleep := fun _ w => w |}.

(** [tmail -s Hello -c <config_path> friend@example.org] *)
Definition args (config_path : Path) (from_addr : option str) : Args.t :=
  {| Args.recipients := [py "friend@example.org"];
     Args.subject := Some (py "Hello");
     Args.cc := [];
     Args.bcc := [];
     Args.from_addr := from_addr;
     Args.attachments := [];
     Args.ignore_interrupts := false;
     Args.verbose := false;
     Args.no_config := false;
     Args.discard_empty := false;
     Args.config_path := config_path;
     Args.identity := None;
     Args.display_name := None;
     Args.reply_to := None;
     Args.interactive := None;
     Args.skip_confirmation := false;
     Args.retries := None;
     Args.dry_run := false;
     Args.list_accounts := false |}.

(** The machine at the start, with one line on standard input. *)
Definition start : state (machine unit) :=
  {| net :=
       {| console :=
            {| stdin := [Typed (py "How are you?" ++ [10]); EndOfInput];
               stdout := [] |};
          stderr := [];
          os := tt |};
     history := [] |}.

End SampleProgram.

(* ===================================================================== *)
(** * Part II: properties                                                  *)
(* ===================================================================== *)

(** ** Validation of [EmailData] *)

Section ValidateProps.

Import EmailData.

Variable path_exists : Path -> bool.
Variable path_is_file : Path -> bool.

Abbreviation check_attachment := (check_attachment path_exists path_is_file).
Abbreviation validate := (validate path_exists path_is_file).
Abbreviation attachment_ok := (attachment_ok path_exists path_is_file).

(** What one attachment adds to the errors collected so far. *)
Lemma check_attachment_app (errors : list str) (a : Path) :
  check_attachment errors a
  = errors ++ (if attachment_ok a then []
               else if path_exists a
                    then [py "Attachment is not a file: " ++ a]
                    else [py "Attachment not found: " ++ a]).
Proof.
  unfold EmailData.check_attachment, EmailData.attachment_ok.
  destruct (path_exists a), (path_is_file a); cbn [negb andb];
    by rewrite ?app_nil_r.
Qed.

Lemma foldl_check_attachment (errors : list str) (l : list Path) :
  foldl check_attachment errors l = errors ++ foldl check_attachment [] l.
Proof.
  revert errors. induction l as [|a l IH]; intros errors; cbn [foldl].
  - by rewrite app_nil_r.
  - rewrite IH, (IH (check_attachment [] a)), !check_attachment_app.
    by rewrite app_assoc.
Qed.

Lemma check_attachments_length (l : list Path) :
  length (foldl check_attachment [] l)
  = length (filter (fun a => attachment_ok a = false) l).
Proof.
  induction l as [|a l IH]; [done|].
  cbn [foldl]. rewrite foldl_check_attachment, length_app, IH.
  rewrite filter_cons, check_attachment_app.
  destruct (attachment_ok a); [done|].
  by destruct (path_exists a).
Qed.

Lemma check_attachments_nil (l : list Path) :
  foldl check_attachment [] l = [] <-> Forall (fun a => attachment_ok a = true) l.
Proof.
  induction l as [|a l IH]; cbn [foldl].
  - split; [constructor|done].
  - rewrite foldl_check_attachment, Forall_cons, check_attachment_app.
    destruct (attachment_ok a).
    + rewrite <- IH. cbn [app]. tauto.
    + split; [|intros [? _]; done].
      intros H. apply app_eq_nil in H as [H _].
      by destruct (path_exists a).
Qed.

Lemma check_attachments_elem (l : list Path) (a : Path) :
  a ∈ l ->
  (path_exists a = false ->
     (py "Attachment not found: " ++ a) ∈ foldl check_attachment [] l)
  /\ (path_exists a = true -> path_is_file a = false ->
       (py "Attachment is not a file: " ++ a) ∈ foldl check_attachment [] l).
Proof.
  induction 1 as [a l|a b l Hin IH]; cbn [foldl];
    rewrite foldl_check_attachment, check_attachment_app.
  - unfold EmailData.attachment_ok. split.
    + intros ->. cbn [andb]. set_solver.
    + intros -> ->. cbn [andb]. set_solver.
  - destruct IH as [IH1 IH2]. split; intros; set_solver.
Qed.

(** C8.  [validate] returns no error exactly when the message has at least
    one To recipient, a non-empty from address, and every attachment path
    exists and is a regular file.  Otherwise every violated condition has
    an entry of its own: the two fixed messages for a missing recipient
    and sender, one message naming each offending attachment, and the
    number of entries is the number of violated conditions. *)
Theorem validate_complete (d : EmailData.t) :
  (validate d = []
     <-> to d <> [] /\ from_addr d <> []
         /\ Forall (fun a => attachment_ok a = true) (attachments d))
  /\ (to d = [] -> py "No recipients specified" ∈ validate d)
  /\ (from_addr d = [] -> py "No from address specified" ∈ validate d)
  /\ (forall a, a ∈ attachments d -> path_exists a = false ->
        (py "Attachment not found: " ++ a) ∈ validate d)
  /\ (forall a, a ∈ attachments d -> path_exists a = true ->
        path_is_file a = false ->
        (py "Attachment is not a file: " ++ a) ∈ validate d)
  /\ length (validate d)
      = ((if decide (to d = []) then 1 else 0)
         + (if decide (from_addr d = []) then 1 else 0)
         + length (filter (fun a => attachment_ok a = false) (attachments d)))%nat.
Proof.
  unfold EmailData.validate. rewrite foldl_check_attachment.
  pose proof (check_attachments_nil (attachments d)) as Hnil.
  pose proof (check_attachments_elem (attachments d)) as Helem.
  pose proof (check_attachments_length (attachments d)) as Hlen.
  split_and!.
  - split.
    + intros H0. apply app_eq_nil in H0 as [H1 H2].
      destruct (to d), (from_addr d); try done.
      split_and!; [done..|by apply Hnil].
    + intros (H1 & H2 & H3). apply Hnil in H3. rewrite H3.
      destruct (to d), (from_addr d); done.
  - intros ->. destruct (from_addr d); set_solver.
  - intros ->. destruct (to d); set_solver.
  - intros a Ha Hex. apply elem_of_app. right. by apply Helem.
  - intros a Ha Hex Hf. apply elem_of_app. right. by apply Helem.
  - rewrite length_app, Hlen.
    destruct (to d), (from_addr d); repeat case_decide; done.
Qed.

(** The recipients the validation asks for are the To addresses: the
    Cc and Bcc lists, like the name, reply-to, subject and body, play no
    part in it. *)
Lemma validate_reads_to_from_attachments (d d' : EmailData.t) :
  to d = to d' -> from_addr d = from_addr d' ->
  attachments d = attachments d' ->
  validate d = validate d'.
Proof. unfold EmailData.validate. by intros -> -> ->. Qed.

End ValidateProps.

(** ** Computations in a world *)

Lemma io_bind_ok {S A B} (m : io S A) (k : A -> io S B) s a s' :
  m s = (Ok a, s') -> (m ≫= k) s = k a s'.
Proof. intros H. unfold mbind, io_bind. by rewrite H. Qed.

Lemma io_bind_raise {S A B} (m : io S A) (k : A -> io S B) s e s' :
  m s = (Raise e, s') -> (m ≫= k) s = (Raise e, s').
Proof. intros H. unfold mbind, io_bind. by rewrite H. Qed.

Lemma os_call_done {W A} (f : W -> os_result A * W) w a w' :
  f w = (Done a, w') -> os_call f w = (Ok a, w').
Proof. intros H. unfold os_call. by rewrite H. Qed.

Lemma try_pass_os_call {W} (f : W -> os_result unit * W) w :
  try_pass is_OSError (os_call f) w = (Ok tt, (f w).2).
Proof.
  unfold try_pass, try_except, os_call.
  by destruct (f w) as [[[]|err] w'].
Qed.

(** ** The editing session *)

Section SessionProps.

Context {world : Type}.
Variable environ : str -> option str.
Variable NamedTemporaryFile : str -> world -> os_result Path * world.
Variable stat_mtime : Path -> world -> os_result Z * world.
Variable subprocess_run : list str -> world -> os_result Z * world.
Variable read_text : Path -> world -> os_result str * world.
Variable unlink : Path -> world -> os_result unit * world.

Abbreviation compose := (compose_interactively environ NamedTemporaryFile stat_mtime subprocess_run read_text unlink).

(** C9.  When the editor exits with code zero and the temporary file has
    the same modification time before and after it ran, the session
    returns the cancelled [ComposedEmail], all of whose fields are empty;
    it does not raise, whatever the removal of the file does. *)
Theorem unmodified_session_is_cancelled
    (config : Config.t) (recipients cc bcc : option (list str))
    (identity_name reply_to subject body custom_display_name : option str)
    (w0 w1 w2 w3 w4 : world) (temp_path : Path) (mtime : Z) :
  let template :=
    generate_template config recipients cc bcc identity_name reply_to
      subject body custom_display_name in
  NamedTemporaryFile template w0 = (Done temp_path, w1) ->
  stat_mtime temp_path w1 = (Done mtime, w2) ->
  subprocess_run [get_editor environ; temp_path] w2 = (Done 0%Z, w3) ->
  stat_mtime temp_path w3 = (Done mtime, w4) ->
  compose config recipients cc bcc identity_name reply_to subject body
      custom_display_name w0 = (Ok cancelled_email, (unlink temp_path w4).2)
  /\ ComposedEmail.cancelled cancelled_email = true
  /\ ComposedEmail.to cancelled_email = []
  /\ ComposedEmail.cc cancelled_email = []
  /\ ComposedEmail.bcc cancelled_email = []
  /\ ComposedEmail.from_addr cancelled_email = []
  /\ ComposedEmail.from_name cancelled_email = None
  /\ ComposedEmail.reply_to cancelled_email = None
  /\ ComposedEmail.subject cancelled_email = []
  /\ ComposedEmail.body cancelled_email = [].
Proof.
  intros template Htmp Hbefore Hrun Hafter.
  split; [|done].
  unfold compose_interactively. fold template.
  rewrite (io_bind_ok _ _ _ _ _ (os_call_done _ _ _ _ Htmp)).
  unfold try_finally.
  rewrite (io_bind_ok _ _ _ _ _ (os_call_done _ _ _ _ Hbefore)).
  rewrite (io_bind_ok _ _ _ _ _ (os_call_done _ _ _ _ Hrun)).
  cbn [negb Z.eqb].
  rewrite (io_bind_ok _ _ _ _ _ (os_call_done _ _ _ _ Hafter)).
  rewrite Z.eqb_refl. cbn [mret io_ret].
  by rewrite try_pass_os_call.
Qed.

Lemma parse_template_not_cancelled content c :
  parse_template content = Ok c -> ComposedEmail.cancelled c = false.
Proof.
  unfold parse_template.
  destruct (list_find _ _) as [[idx ?]|]; [|done].
  destruct (parse_header_lines _ _) as [headers|]; [|done]. cbn.
  destruct (parse_from _) as [from|]; [|done]. cbn.
  destruct (strip_trailing_comment _) as [r|]; [|done]. cbn.
  by intros [= <-].
Qed.

(** C10.  A [ComposedEmail] that [parse_template] returns is never
    cancelled; a session that returns a cancelled one went through the
    unmodified-file path: the editor exited with zero and both
    modification times are the same. *)
Theorem cancelled_only_when_unmodified :
  (forall content c,
     parse_template content = Ok c -> ComposedEmail.cancelled c = false)
  /\ (forall config recipients cc bcc identity_name reply_to subject body
        custom_display_name w0 c w',
       compose config recipients cc bcc identity_name reply_to subject body
         custom_display_name w0 = (Ok c, w') ->
       ComposedEmail.cancelled c = true ->
       c = cancelled_email
       /\ exists temp_path w1 mtime w2 w3 w4,
            NamedTemporaryFile
              (generate_template config recipients cc bcc identity_name
                 reply_to subject body custom_display_name) w0
            = (Done temp_path, w1)
            /\ stat_mtime temp_path w1 = (Done mtime, w2)
            /\ subprocess_run [get_editor environ; temp_path] w2 = (Done 0%Z, w3)
            /\ stat_mtime temp_path w3 = (Done mtime, w4)).
Proof.
  split; [apply parse_template_not_cancelled|].
  intros config recipients cc bcc identity_name reply_to subject body
    custom_display_name w0 c w'.
  unfold compose_interactively, try_finally, mbind, io_bind, os_call.
  destruct (NamedTemporaryFile _ w0) as [[temp_path|?] w1] eqn:Htmp; [|done].
  destruct (stat_mtime temp_path w1) as [[mtime|?] w2] eqn:Hbefore.
  2:{ by destruct (try_pass _ _ _) as [[]]. }
  destruct (subprocess_run _ w2) as [[rc|?] w3] eqn:Hrun.
  2:{ by destruct (try_pass _ _ _) as [[]]. }
  destruct (rc =? 0)%Z eqn:Hrc; cbn [negb].
  2:{ unfold throw. by destruct (try_pass _ _ _) as [[]]. }
  apply Z.eqb_eq in Hrc as ->.
  destruct (stat_mtime temp_path w3) as [[mtime'|?] w4] eqn:Hafter.
  2:{ by destruct (try_pass _ _ _) as [[]]. }
  destruct (mtime' =? mtime)%Z eqn:Hm.
  - apply Z.eqb_eq in Hm as ->. cbn [mret io_ret].
    destruct (try_pass _ _ _) as [[]]; [|done].
    intros [= <- <-] _. split; [done|]. by exists temp_path, w1, mtime, w2, w3, w4.
  - destruct (read_text _ _) as [[content|?] w5].
    2:{ by destruct (try_pass _ _ _) as [[]]. }
    unfold lift. destruct (parse_template content) as [c'|] eqn:Hparse.
    2:{ by destruct (try_pass _ _ _) as [[]]. }
    destruct (try_pass _ _ _) as [[]]; [|done].
    intros [= <- <-] Hc. apply parse_template_not_cancelled in Hparse. congruence.
Qed.

End SessionProps.

(** ** Python strings: what [split] returns *)

Lemma split_max_cons (sep : str) (n : nat) (s : str) :
  exists x l, split_max sep n s = x :: l.
Proof.
  destruct n as [|n]; cbn [split_max]; [by eexists _, _|].
  destruct (find sep s); by eexists _, _.
Qed.

Lemma index_split_max_0 (sep : str) (n : nat) (s : str) :
  exists x, index (split_max sep n s) 0 = Ok x.
Proof.
  destruct (split_max_cons sep n s) as (x & l & ->). by exists x.
Qed.

Lemma contains_find (sub s : str) :
  contains sub s = true <-> exists i, find sub s = Some i.
Proof.
  unfold contains. destruct (find sub s); split; try done; eauto.
  by intros [? ?].
Qed.

Lemma find_nil_inv (sub : str) (i : nat) :
  find sub [] = Some i -> sub = [].
Proof. cbn. by destruct sub. Qed.

(** One cut is made as soon as the separator occurs. *)
Lemma split_max_1_contains (sep s : str) :
  contains sep s = true ->
  exists a b, split_max sep 1 s = [a; b].
Proof.
  intros [i Hi]%contains_find. cbn [split_max]. rewrite Hi. by eexists _, _.
Qed.

Lemma split_contains (sep s : str) :
  sep <> [] -> contains sep s = true ->
  exists a b l, split sep s = a :: b :: l.
Proof.
  intros Hsep [i Hi]%contains_find. unfold split.
  destruct s as [|c s]; [by apply find_nil_inv in Hi|].
  cbn [length split_max]. rewrite Hi.
  destruct (split_max_cons sep (length s) (drop (i + length sep) (c :: s)))
    as (b & l & ->).
  by eexists _, _, _.
Qed.

(** ** The template parser never fails past the separator *)

Lemma strip_trailing_comment_ok (value : str) :
  exists v, strip_trailing_comment value = Ok v.
Proof.
  unfold strip_trailing_comment.
  destruct (contains _ _); [|by eexists].
  destruct (index_split_max_0 (py "  #") (length value) value) as [x Hx].
  unfold split. rewrite Hx. by eexists.
Qed.

Lemma parse_header_line_ok (headers : gmap (list N) (list N)) (line : str) :
  exists headers', parse_header_line headers line = Ok headers'.
Proof.
  unfold parse_header_line.
  destruct (_ || _); [by eexists|].
  destruct (contains (py ":") _) eqn:Hc; [|by eexists].
  destruct (split_max_1_contains _ _ Hc) as (a & b & ->). cbn.
  destruct (strip_trailing_comment_ok (strip b)) as [v ->]. cbn.
  by eexists.
Qed.

Lemma parse_header_lines_ok (header_lines : list str) (headers : gmap (list N) (list N)) :
  exists headers', parse_header_lines headers header_lines = Ok headers'.
Proof.
  revert headers. induction header_lines as [|line rest IH]; intros headers.
  - by eexists.
  - cbn [parse_header_lines].
    destruct (parse_header_line_ok headers line) as [h ->]. cbn. apply IH.
Qed.

Lemma parse_from_ok (from_raw : str) :
  exists from, parse_from from_raw = Ok from.
Proof.
  unfold parse_from.
  destruct (contains (py "<") from_raw) eqn:Hlt; [|by eexists].
  destruct (contains (py ">") from_raw); [|by eexists]. cbn [andb].
  destruct (split_contains (py "<") from_raw) as (a & b & l & ->); [done..|].
  cbn.
  destruct (index_split_max_0 (py ">") (length b) b) as [x Hx].
  unfold split. rewrite Hx. by eexists.
Qed.

Lemma parse_template_separator (content : str) (i : nat) (line : str) :
  list_find (fun line => strip line = TEMPLATE_SEPARATOR) (split NL content)
  = Some (i, line) ->
  exists c, parse_template content = Ok c.
Proof.
  intros Hfind. unfold parse_template. rewrite Hfind.
  destruct (parse_header_lines_ok (take i (split NL content)) ∅) as [h ->].
  cbn.
  destruct (parse_from_ok (default [] (h !! py "from"))) as [from ->]. cbn.
  destruct (strip_trailing_comment_ok (default [] (h !! py "reply-to"))) as [v ->].
  cbn. by eexists.
Qed.

(** C5.  [parse_template] raises exactly when no line of the text strips
    to the separator, and what it raises then is the missing-separator
    [ComposerError]; on every other text it returns a [ComposedEmail],
    whatever the headers are. *)
Theorem parse_template_fails_iff_no_separator (content : str) :
  (parse_template content = Raise (ComposerError missing_separator_message)
   <-> Forall (fun line => strip line <> TEMPLATE_SEPARATOR) (split NL content))
  /\ ((exists c, parse_template content = Ok c)
      <-> Exists (fun line => strip line = TEMPLATE_SEPARATOR) (split NL content))
  /\ (forall e, parse_template content = Raise e ->
        e = ComposerError missing_separator_message).
Proof.
  destruct (list_find (fun line => strip line = TEMPLATE_SEPARATOR)
              (split NL content)) as [[i line]|] eqn:Hfind.
  - destruct (parse_template_separator _ _ _ Hfind) as [c Hc].
    apply list_find_Some in Hfind as (Hi & Hline & _).
    assert (Exists (fun line => strip line = TEMPLATE_SEPARATOR)
              (split NL content)) as Hex.
    { apply Exists_exists. exists line. split; [|done].
      by eapply list_elem_of_lookup_2. }
    split_and!.
    + split; [by rewrite Hc|].
      intros Hall. apply Exists_exists in Hex as (l & Hl & Hs).
      rewrite Forall_forall in Hall. by destruct (Hall l Hl).
    + split; [done|by exists c].
    + intros e. by rewrite Hc.
  - assert (parse_template content
            = Raise (ComposerError missing_separator_message)) as Hp.
    { unfold parse_template. by rewrite Hfind. }
    apply list_find_None in Hfind.
    split_and!.
    + done.
    + split; [intros [c Hc]; by rewrite Hp in Hc|].
      intros (l & Hl & Hs)%Exists_exists.
      rewrite Forall_forall in Hfind. by destruct (Hfind l Hl).
    + intros e. rewrite Hp. by intros [= <-].
Qed.

(** ** The delivery engine *)

Lemma range_succ (n : Z) : (0 <= n)%Z -> range (n + 1) = range n ++ [n].
Proof.
  intros Hn. unfold range.
  replace (Z.to_nat (n + 1)) with (S (Z.to_nat n)) by lia.
  rewrite seq_S, fmap_app. cbn. by rewrite Z2Nat.id.
Qed.

Lemma elem_of_range (n a : Z) : a ∈ range n -> (0 <= a < n)%Z.
Proof.
  unfold range. intros (k & -> & Hk)%list_elem_of_fmap.
  apply elem_of_seq in Hk. lia.
Qed.

Lemma sum_app (l1 l2 : list Z) : sum (l1 ++ l2) = (sum l1 + sum l2)%Z.
Proof.
  unfold sum. induction l1 as [|x l1 IH]; cbn; [done|]. rewrite IH. lia.
Qed.

(** [sum(2**i for i in range(n))] is [2**n - 1]. *)
Lemma sum_powers_of_two (n : Z) :
  (0 <= n)%Z -> sum ((fun i => 2 ^ i)%Z <$> range n) = (2 ^ n - 1)%Z.
Proof.
  intros Hn. pattern n. apply natlike_ind; [done| |done].
  clear n Hn. intros n Hn IH. unfold Z.succ.
  rewrite range_succ, fmap_app, sum_app, IH by done.
  cbn. rewrite Z.pow_add_r by lia. lia.
Qed.

Lemma total_wait_app (h1 h2 : list event) :
  total_wait (h1 ++ h2) = (total_wait h1 + total_wait h2)%Z.
Proof.
  unfold total_wait. induction h1 as [|[p|t] h1 IH]; cbn; [done|done|].
  rewrite IH. lia.
Qed.

Lemma total_wait_connections (ports : list Z) :
  total_wait (Connect <$> ports) = 0%Z.
Proof. by induction ports. Qed.

Lemma connections_app (h1 h2 : list event) :
  connections (h1 ++ h2) = connections h1 ++ connections h2.
Proof. unfold connections. apply omap_app. Qed.

Lemma connections_connect (ports : list Z) :
  connections (Connect <$> ports) = ports.
Proof. induction ports as [|p ports IH]; cbn; [done|]. by f_equal. Qed.

(** The history of a delivery in which every cycle fails: for each
    attempt but the last, a connection to every port and then the wait;
    for the last attempt the connections only. *)
Lemma failing_history (retries : Z) (ports : list Z) :
  (0 <= retries)%Z ->
  (range (retries + 1) ≫= fun attempt =>
     (Connect <$> ports) ++ backoff retries attempt)
  = (range retries ≫= fun attempt =>
       (Connect <$> ports) ++ [Sleep (2 ^ attempt)])
    ++ (Connect <$> ports).
Proof.
  intros Hn. rewrite range_succ, bind_app by done. f_equal.
  - apply Forall_bind_ext, Forall_forall. intros a Ha%elem_of_range.
    unfold backoff. destruct (Z.ltb_spec a retries); [done|lia].
  - rewrite bind_cons. unfold backoff. rewrite Z.ltb_irrefl.
    by rewrite !app_nil_r.
Qed.

Lemma waits_history (ports : list Z) (l : list Z) :
  total_wait (l ≫= fun attempt => (Connect <$> ports) ++ [Sleep (2 ^ attempt)])
  = sum ((fun i => 2 ^ i)%Z <$> l).
Proof.
  induction l as [|a l IH]; [done|].
  rewrite bind_cons, fmap_cons, !total_wait_app, total_wait_connections, IH.
  unfold sum. cbn. lia.
Qed.

Lemma connections_history (ports : list Z) (l : list Z) :
  connections
    (l ≫= fun attempt => (Connect <$> ports) ++ [Sleep (2 ^ attempt)])
  = mjoin (replicate (length l) ports).
Proof.
  induction l as [|a l IH]; [done|].
  rewrite bind_cons, !connections_app, connections_connect, IH.
  cbn. by rewrite app_nil_r.
Qed.

Section MailerProps.

Context {world : Type}.
Variable subprocess_run : str -> Z -> process_outcome.
Variable print : str -> world -> world.
Variable SMTP_SSL : str -> Z -> io world unit.
Variable SMTP : str -> Z -> io world unit.
Variable starttls : io world unit.
Variable set_debuglevel : world -> world.
Variable login : str -> str -> io world unit.
Variable sendmail : str -> list str -> str -> io world (list str).
Variable noop : io world str.
Variable quit : io world unit.
Variable sleep : Z -> world -> world.

Abbreviation cycle :=
  (_send_via_smtp print SMTP_SSL SMTP starttls set_debuglevel login sendmail
     noop quit).
Abbreviation ports_loop :=
  (try_ports print SMTP_SSL SMTP starttls set_debuglevel login sendmail
     noop quit).
Abbreviation attempts_loop :=
  (try_attempts print SMTP_SSL SMTP starttls set_debuglevel login sendmail
     noop quit sleep).
Abbreviation send :=
  (send_email subprocess_run print SMTP_SSL SMTP starttls set_debuglevel
     login sendmail noop quit sleep).

Abbreviation keeps_history := (@keeps_history world).

Lemma keeps_ret {A} (a : A) : keeps_history (mret a).
Proof. done. Qed.

Lemma keeps_throw {A} (e : exn) : keeps_history (@throw _ A e).
Proof. done. Qed.

Lemma keeps_on_net {A} (m : io world A) : keeps_history (on_net m).
Proof. intros st. unfold on_net. by destruct (m (net st)). Qed.

Lemma keeps_say (verbose : bool) (text : str) :
  keeps_history (say print verbose text).
Proof. unfold say. destruct verbose; [apply keeps_on_net|apply keeps_ret]. Qed.

Lemma keeps_bind {A B} (m : io (state world) A) (k : A -> io (state world) B) :
  keeps_history m -> (forall a, keeps_history (k a)) -> keeps_history (m ≫= k).
Proof.
  intros Hm Hk st. unfold mbind, io_bind.
  specialize (Hm st). destruct (m st) as [[a|e] st']; cbn in *.
  - by rewrite Hk.
  - done.
Qed.

Lemma keeps_try_except {A} (body : io (state world) A) caught handler :
  keeps_history body -> (forall e, keeps_history (handler e)) ->
  keeps_history (try_except body caught handler).
Proof.
  intros Hb Hh st. unfold try_except.
  specialize (Hb st). destruct (body st) as [[a|e] st']; cbn in *; [done|].
  destruct (caught e); [by rewrite Hh|done].
Qed.

Lemma keeps_try_finally {A} (body : io (state world) A) cleanup :
  keeps_history body -> keeps_history cleanup ->
  keeps_history (try_finally body cleanup).
Proof.
  intros Hb Hc st. unfold try_finally.
  specialize (Hb st). destruct (body st) as [r st']; cbn in *.
  specialize (Hc st'). destruct (cleanup st') as [[[]|e] st'']; cbn in *;
    congruence.
Qed.

(** Saying something never raises. *)
Lemma say_ok (verbose : bool) (text : str) (st : state world) :
  (say print verbose text st).1 = Ok tt.
Proof. unfold say. by destruct verbose. Qed.

Lemma say_bind {A} verbose text (k : io (state world) A) st :
  (say print verbose text;; k) st = k (say print verbose text st).2.
Proof.
  unfold mbind, io_bind. pose proof (say_ok verbose text st) as H.
  destruct (say print verbose text st) as [[[]|] ?]; cbn in *; done.
Qed.

Lemma connect_history host port use_tls verbose (st : state world) :
  history (connect print SMTP_SSL SMTP starttls host port use_tls verbose st).2
  = history st ++ [Connect port].
Proof.
  unfold connect, record, effect.
  unfold mbind at 1. unfold io_bind at 1. cbn beta iota.
  match goal with |- history (?k _).2 = _ => assert (keeps_history k) as Hk end.
  { destruct (port =? 465)%Z.
    - apply keeps_bind; [apply keeps_say|intros _; apply keeps_on_net].
    - apply keeps_bind; [apply keeps_say|intros _].
      apply keeps_bind; [apply keeps_on_net|intros _].
      destruct use_tls; [|apply keeps_ret].
      apply keeps_bind; [apply keeps_say|intros _; apply keeps_on_net]. }
  by rewrite Hk.
Qed.

Lemma keeps_authenticate username password verbose :
  keeps_history
    (authenticate print set_debuglevel login username password verbose).
Proof.
  unfold authenticate. apply keeps_bind; [|intros _].
  { destruct verbose; [apply keeps_on_net|apply keeps_ret]. }
  destruct (_ && _); [|apply keeps_ret].
  apply keeps_bind; [apply keeps_say|intros _; apply keeps_on_net].
Qed.

Lemma keeps_transmit msg recipients verbose :
  keeps_history (transmit print sendmail noop msg recipients verbose).
Proof.
  unfold transmit.
  destruct (msg_From msg) as [[|c s]|]; try apply keeps_throw.
  apply keeps_bind; [apply keeps_say|intros _].
  apply keeps_bind; [apply keeps_on_net|intros refused].
  destruct refused; [|apply keeps_throw].
  apply keeps_bind; [apply keeps_on_net|intros ?; apply keeps_ret].
Qed.

Lemma keeps_close : keeps_history (close quit).
Proof.
  apply keeps_try_except; [apply keeps_on_net|intros; apply keeps_ret].
Qed.

(** A cycle opens exactly one connection, to its port, and never waits. *)
Lemma cycle_history msg recipients host port username password use_tls verbose
    (st : state world) :
  history (cycle msg recipients host port username password use_tls verbose st).2
  = history st ++ [Connect port].
Proof.
  unfold _send_via_smtp.
  unfold mbind at 1. unfold io_bind at 1.
  pose proof (connect_history host port use_tls verbose st) as Hc.
  destruct (connect _ _ _ _ _ _ _ _ st) as [[[]|e] st1]; cbn in Hc; [|done].
  rewrite <- Hc.
  match goal with |- history (?k _).2 = _ => assert (keeps_history k) as Hk end.
  { apply keeps_try_finally; [|apply keeps_close].
    apply keeps_bind; [apply keeps_authenticate|intros _; apply keeps_transmit]. }
  by rewrite Hk.
Qed.

(** *** Recipient refusal *)

Lemma transmit_refused msg recipients verbose (st st2 : state world)
    (sender : str) (refused : list str) :
  msg_From msg = Some sender -> sender <> [] ->
  on_net (sendmail sender recipients (msg_as_string msg))
    (say print verbose
       (py "Sending message to "
        ++ str_of_Z (Z.of_nat (length recipients)) ++ py " recipient(s)") st).2
  = (Ok refused, st2) ->
  refused <> [] ->
  transmit print sendmail noop msg recipients verbose st
  = (Raise (MailerError
              (py "Some recipients were refused: " ++ join (py ", ") refused)),
     st2).
Proof.
  intros Hfrom Hsender Hsend Hrefused. unfold transmit. rewrite Hfrom.
  destruct sender as [|c s]; [done|].
  rewrite say_bind. unfold mbind at 1. unfold io_bind at 1. rewrite Hsend.
  by destruct refused.
Qed.

Lemma transmit_ok_inv msg recipients verbose (st st' : state world) (r : str) :
  transmit print sendmail noop msg recipients verbose st = (Ok r, st') ->
  exists sender st1 st2,
    msg_From msg = Some sender
    /\ on_net (sendmail sender recipients (msg_as_string msg)) st1 = (Ok [], st2).
Proof.
  unfold transmit. destruct (msg_From msg) as [[|c s]|]; try done.
  rewrite say_bind. unfold mbind at 1. unfold io_bind at 1.
  destruct (on_net (sendmail _ _ _) _) as [[[|x refused]|e] st2] eqn:Hsend;
    try done.
  intros _. by eexists _, _, _.
Qed.

Lemma cycle_ok_inv msg recipients host port username password use_tls verbose
    (st st' : state world) (r : str) :
  cycle msg recipients host port username password use_tls verbose st
  = (Ok r, st') ->
  exists sender st1 st2,
    msg_From msg = Some sender
    /\ on_net (sendmail sender recipients (msg_as_string msg)) st1 = (Ok [], st2).
Proof.
  unfold _send_via_smtp, try_finally. unfold mbind at 1. unfold io_bind at 1.
  destruct (connect _ _ _ _ _ _ _ _ st) as [[[]|e] st1]; [|done].
  unfold mbind at 1. unfold io_bind at 1.
  destruct (authenticate _ _ _ _ _ _ st1) as [[[]|e] st2].
  - destruct (transmit _ _ _ _ _ _ st2) as [[r'|e] st3] eqn:Htr.
    + intros _. by eapply transmit_ok_inv.
    + by destruct (close quit st3) as [[[]|?] ?].
  - by destruct (close quit st2) as [[[]|?] ?].
Qed.

(** The result of a cycle when its steps are known: an error of the
    session is raised again once the connection is closed. *)
Lemma cycle_raise msg recipients host port username password use_tls verbose
    (st st1 st2 st3 st4 : state world) (e : exn) :
  connect print SMTP_SSL SMTP starttls host port use_tls verbose st
  = (Ok tt, st1) ->
  authenticate print set_debuglevel login username password verbose st1
  = (Ok tt, st2) ->
  transmit print sendmail noop msg recipients verbose st2 = (Raise e, st3) ->
  close quit st3 = (Ok tt, st4) ->
  cycle msg recipients host port username password use_tls verbose st
  = (Raise e, st4).
Proof.
  intros Hc Ha Ht Hq. unfold _send_via_smtp, try_finally.
  unfold mbind at 1. unfold io_bind at 1. rewrite Hc.
  unfold mbind at 1. unfold io_bind at 1. rewrite Ha, Ht, Hq. done.
Qed.

Lemma ports_loop_raise msg recipients smtp_server password retries verbose
    attempts port rest last_error (st st' : state world) (e : exn) :
  cycle msg recipients (SmtpServer.host smtp_server) port
    (SmtpServer.user smtp_server) password (SmtpServer.use_tls smtp_server)
    verbose
    (say print verbose
       (py "Attempting to connect to " ++ SmtpServer.host smtp_server
        ++ py ":" ++ str_of_Z port ++ py " (attempt " ++ str_of_Z attempts
        ++ py "/" ++ str_of_Z (retries + 1) ++ py ")") st).2
  = (Raise e, st') ->
  is_transport_error e = false ->
  ports_loop msg recipients smtp_server password retries verbose attempts
    (port :: rest) last_error st
  = (Raise e, st').
Proof.
  intros Hcycle He. cbn [try_ports]. rewrite say_bind.
  unfold try_except. unfold mbind at 1. unfold io_bind at 1.
  by rewrite Hcycle, He.
Qed.

Lemma attempts_loop_raise msg recipients smtp_server password retries verbose
    attempt todo attempts last_error (st st' : state world) (e : exn) :
  ports_loop msg recipients smtp_server password retries verbose (attempt + 1)
    (SmtpServer.ports smtp_server) last_error st
  = (Raise e, st') ->
  attempts_loop msg recipients smtp_server password retries verbose
    (attempt :: todo) attempts last_error st
  = (Raise e, st').
Proof.
  intros Hports. cbn [try_attempts].
  unfold mbind at 1. unfold io_bind at 1. by rewrite Hports.
Qed.

Lemma ports_loop_sent_inv msg recipients smtp_server password retries verbose
    attempts ports last_error (st st' : state world) (r : SendResult.t) :
  ports_loop msg recipients smtp_server password retries verbose attempts
    ports last_error st
  = (Ok (inl r), st') ->
  exists port st1 response,
    cycle msg recipients (SmtpServer.host smtp_server) port
      (SmtpServer.user smtp_server) password (SmtpServer.use_tls smtp_server)
      verbose st1
    = (Ok response, st').
Proof.
  revert last_error st. induction ports as [|port rest IH];
    intros last_error st; [done|].
  cbn [try_ports]. rewrite say_bind.
  unfold try_except. unfold mbind at 1. unfold io_bind at 1.
  destruct (cycle _ _ _ port _ _ _ _ _) as [[response|e] st1] eqn:Hcycle.
  - intros [= <- <-]. by eexists _, _, _.
  - destruct (is_transport_error e); [|done].
    rewrite say_bind. apply IH.
Qed.

Lemma attempts_loop_sent_inv msg recipients smtp_server password retries
    verbose todo attempts last_error (st st' : state world) (r : SendResult.t) :
  attempts_loop msg recipients smtp_server password retries verbose todo
    attempts last_error st
  = (Ok r, st') ->
  SendResult.success r = true ->
  exists port st1 response,
    cycle msg recipients (SmtpServer.host smtp_server) port
      (SmtpServer.user smtp_server) password (SmtpServer.use_tls smtp_server)
      verbose st1
    = (Ok response, st').
Proof.
  revert attempts last_error st. induction todo as [|attempt rest IH];
    intros attempts last_error st.
  - by intros [= <- <-].
  - cbn [try_attempts]. unfold mbind at 1. unfold io_bind at 1.
    destruct (ports_loop _ _ _ _ _ _ _ _ _ st) as [[[sent|last1]|e] st1]
      eqn:Hports; [| |done].
    + intros [= <- <-] _. by eapply ports_loop_sent_inv.
    + unfold mbind at 1. unfold io_bind at 1.
      match goal with
      | |- context [match ?pause st1 with _ => _ end] =>
          destruct (pause st1) as [[[]|e] st2]; [|done]
      end.
      apply IH.
Qed.

(** C1 (as the code has it).  When the server refuses some of the
    recipients, the transmission raises a [MailerError] that names them.
    [send_email] does not catch a [MailerError]: whichever cycle raises
    it, the loop over the ports and the loop over the attempts end there
    (the error is not recorded as the last error, no further port or
    attempt is tried and nothing is waited for), so that a call whose
    first cycle raises it ends with that error after its single
    connection.  A call that reports success got an empty refusal set
    from [sendmail]: a partial delivery is never reported as success. *)
Theorem partial_refusal_aborts_delivery
    (msg : EmailMessage) (recipients : list str) (smtp_server : SmtpServer.t)
    (password : option str) (retries : Z) (verbose : bool) :
  let cycle_on port :=
    cycle msg recipients (SmtpServer.host smtp_server) port
      (SmtpServer.user smtp_server) password (SmtpServer.use_tls smtp_server)
      verbose in
  let announce port attempts :=
    say print verbose
      (py "Attempting to connect to " ++ SmtpServer.host smtp_server
       ++ py ":" ++ str_of_Z port ++ py " (attempt " ++ str_of_Z attempts
       ++ py "/" ++ str_of_Z (retries + 1) ++ py ")") in
  (forall st st2 sender refused,
     msg_From msg = Some sender -> sender <> [] ->
     on_net (sendmail sender recipients (msg_as_string msg))
       (say print verbose
          (py "Sending message to "
           ++ str_of_Z (Z.of_nat (length recipients)) ++ py " recipient(s)")
          st).2
     = (Ok refused, st2) ->
     refused <> [] ->
     transmit print sendmail noop msg recipients verbose st
     = (Raise (MailerError
                 (py "Some recipients were refused: "
                  ++ join (py ", ") refused)), st2))
  /\ (forall attempts port rest last_error st m st',
        cycle_on port (announce port attempts st).2
        = (Raise (MailerError m), st') ->
        ports_loop msg recipients smtp_server password retries verbose
          attempts (port :: rest) last_error st
        = (Raise (MailerError m), st'))
  /\ (forall attempt todo attempts last_error st m st',
        ports_loop msg recipients smtp_server password retries verbose
          (attempt + 1) (SmtpServer.ports smtp_server) last_error st
        = (Raise (MailerError m), st') ->
        attempts_loop msg recipients smtp_server password retries verbose
          (attempt :: todo) attempts last_error st
        = (Raise (MailerError m), st'))
  /\ (forall port rest st m st',
        (0 <= retries)%Z ->
        SmtpServer.get_password subprocess_run smtp_server = Ok password ->
        SmtpServer.ports smtp_server = port :: rest ->
        cycle_on port (announce port 1%Z st).2 = (Raise (MailerError m), st') ->
        send msg recipients smtp_server retries verbose st
        = (Raise (MailerError m), st')
        /\ history st' = history st ++ [Connect port])
  /\ (forall st r st',
        SmtpServer.get_password subprocess_run smtp_server = Ok password ->
        send msg recipients smtp_server retries verbose st = (Ok r, st') ->
        SendResult.success r = true ->
        exists sender st1 st2,
          msg_From msg = Some sender
          /\ on_net (sendmail sender recipients (msg_as_string msg)) st1
             = (Ok [], st2)).
Proof.
  intros cycle_on announce. split_and!.
  - intros st st2 sender refused. apply transmit_refused.
  - intros attempts port rest last_error st m st' Hcycle.
    by apply ports_loop_raise.
  - intros attempt todo attempts last_error st m st'.
    apply attempts_loop_raise.
  - intros port rest st m st' Hretries Hpw Hports Hcycle.
    split.
    + unfold send_email, lift. unfold mbind at 1. unfold io_bind at 1.
      rewrite Hpw.
      replace (retries + 1)%Z with (Z.succ retries) by lia.
      unfold range. rewrite Z2Nat.inj_succ by done. cbn [seq fmap list_fmap].
      apply attempts_loop_raise. rewrite Hports.
      by apply ports_loop_raise.
    + pose proof (cycle_history msg recipients (SmtpServer.host smtp_server)
                    port (SmtpServer.user smtp_server) password
                    (SmtpServer.use_tls smtp_server) verbose
                    (announce port 1%Z st).2) as Hh.
      fold (cycle_on port) in Hh. rewrite Hcycle in Hh. cbn in Hh.
      rewrite Hh. f_equal. apply keeps_say.
  - intros st r st' Hpw. unfold send_email, lift.
    unfold mbind at 1. unfold io_bind at 1. rewrite Hpw.
    intros Hrun Hsuccess.
    destruct (attempts_loop_sent_inv _ _ _ _ _ _ _ _ _ _ _ _ Hrun Hsuccess)
      as (port & st1 & response & Hcycle).
    by eapply cycle_ok_inv.
Qed.

Section AllFail.

Variable msg : EmailMessage.
Variable recipients : list str.
Variable smtp_server : SmtpServer.t.
Variable password : option str.
Variable retries : Z.
Variable verbose : bool.

Abbreviation cycle_on port :=
  (cycle msg recipients (SmtpServer.host smtp_server) port
     (SmtpServer.user smtp_server) password
     (SmtpServer.use_tls smtp_server) verbose).

Abbreviation every_cycle_fails :=
  (every_cycle_fails print SMTP_SSL SMTP starttls set_debuglevel login
     sendmail noop quit msg recipients smtp_server password verbose).
Abbreviation raised_last :=
  (raised_last print SMTP_SSL SMTP starttls set_debuglevel login sendmail
     noop quit msg recipients smtp_server password verbose).

Lemma ports_loop_all_fail (attempts : Z) (ports : list Z) :
  every_cycle_fails ->
  ports ⊆ SmtpServer.ports smtp_server ->
  forall (last_error : option exn) (st : state world),
  exists last_error' st',
    ports_loop msg recipients smtp_server password retries verbose attempts
      ports last_error st = (Ok (inr last_error'), st')
    /\ history st' = history st ++ (Connect <$> ports)
    /\ (ports = [] -> last_error' = last_error)
    /\ raised_last ports last_error' st' [].
Proof.
  intros Hfail.
  induction ports as [|port rest IH]; intros Hsub last_error st.
  - exists last_error, st. split_and!; [done|by rewrite app_nil_r|done|].
    by intros p.
  - cbn [try_ports]. rewrite say_bind.
    set (st1 := (say print verbose _ st).2).
    assert (history st1 = history st) as Hst1 by apply keeps_say.
    unfold try_except. unfold mbind at 1. unfold io_bind at 1.
    destruct (Hfail st1 port) as (e & He & Htr); [set_solver|].
    pose proof (cycle_history msg recipients (SmtpServer.host smtp_server) port
                  (SmtpServer.user smtp_server) password
                  (SmtpServer.use_tls smtp_server) verbose st1) as Hh.
    destruct (cycle_on port st1) as [r st2] eqn:Hcycle.
    cbn in He, Hh. subst r. rewrite Htr. rewrite say_bind.
    set (st3 := (say print verbose _ st2).2).
    assert (history st3 = history st2) as Hst3 by apply keeps_say.
    destruct (IH ltac:(set_solver) (Some e) st3)
      as (last_error' & st' & Hrun & Hhist & Hnil & Hlast).
    exists last_error', st'. split_and!.
    + done.
    + rewrite Hhist, Hst3, Hh, Hst1, fmap_cons, <- app_assoc. done.
    + done.
    + intros p Hp. destruct rest as [|port' rest'].
      * cbn in Hp. injection Hp as <-.
        exists e, st1. split_and!.
        -- by apply Hnil.
        -- by rewrite Hcycle.
        -- rewrite Hhist, Hst3, Hh. by rewrite app_nil_r.
      * apply Hlast. by rewrite last_cons_cons in Hp.
Qed.

Lemma attempts_loop_all_fail (todo : list Z) :
  every_cycle_fails ->
  forall (attempts : Z) (last_error : option exn) (st : state world),
  exists last_error' st',
    attempts_loop msg recipients smtp_server password retries verbose todo
      attempts last_error st
    = (Ok (failure (default attempts ((fun a => a + 1)%Z <$> last todo))
             last_error'), st')
    /\ history st'
       = history st
         ++ (todo ≫= fun attempt =>
               (Connect <$> SmtpServer.ports smtp_server)
               ++ backoff retries attempt)
    /\ (todo = [] \/ SmtpServer.ports smtp_server = [] ->
        last_error' = last_error)
    /\ (forall a, last todo = Some a ->
          raised_last (SmtpServer.ports smtp_server) last_error' st'
            (backoff retries a)).
Proof.
  intros Hfail.
  induction todo as [|attempt rest IH]; intros attempts last_error st.
  - exists last_error, st. split_and!; [done|by rewrite app_nil_r|done|done].
  - cbn [try_attempts].
    destruct (ports_loop_all_fail (attempt + 1) (SmtpServer.ports smtp_server)
                Hfail ltac:(done) last_error st)
      as (last1 & st1 & Hports & Hh1 & Hnil1 & Hlast1).
    unfold mbind at 1. unfold io_bind at 1. rewrite Hports.
    set (pause := if (attempt <? retries)%Z then _ else _).
    assert (exists st2, pause st1 = (Ok tt, st2)
              /\ history st2 = history st1 ++ backoff retries attempt)
      as (st2 & Hpause & Hh2).
    { subst pause. unfold backoff. destruct (attempt <? retries)%Z.
      - rewrite say_bind. set (st1' := (say _ _ _ _).2).
        assert (history st1' = history st1) as Hs by apply keeps_say.
        unfold time_sleep, record, on_net, effect, mbind, io_bind.
        eexists. split; [reflexivity|]. cbn. by rewrite Hs.
      - exists st1. split; [done|by rewrite app_nil_r]. }
    unfold mbind at 1. unfold io_bind at 1. rewrite Hpause.
    destruct (IH (attempt + 1)%Z last1 st2)
      as (last2 & st' & Hrun & Hh & Hnil & Hlast).
    exists last2, st'. split_and!.
    + rewrite Hrun. destruct rest as [|a rest']; [done|].
      rewrite last_cons_cons.
      destruct (last (a :: rest')) eqn:Hl; [done|].
      by apply last_None in Hl.
    + rewrite Hh, Hh2, Hh1. cbn [mbind list_bind]. by rewrite <- !app_assoc.
    + intros [?|Hp]; [done|]. rewrite Hnil, Hnil1; auto.
    + intros a Ha. destruct rest as [|a' rest'].
      * cbn in Ha. injection Ha as <-.
        rewrite (Hnil (or_introl eq_refl)).
        cbn in Hh. rewrite app_nil_r in Hh.
        intros p Hp. destruct (Hlast1 p Hp) as (e & st_pre & He & Hc & Hhp).
        exists e, st_pre. split_and!; [done..|].
        rewrite Hh, Hh2, Hhp. by rewrite <- !app_assoc.
      * apply Hlast. by rewrite last_cons_cons in Ha.
Qed.

(** C2.  With a retry budget [retries >= 0], once the secret is
    resolved and when every cycle on every port fails with a transport
    error, [send_email] makes [retries + 1] passes over the ports, waits
    [2 ^ attempt] after each pass but the last and nowhere else, and
    returns the failed result: attempt count [retries + 1] and the
    description of the error raised by the cycle that made the last
    connection.  The waits add up to [sum(2**i for i in range(retries))]. *)
Theorem send_email_exhausts_retries (st : state world) :
  (0 <= retries)%Z ->
  SmtpServer.get_password subprocess_run smtp_server = Ok password ->
  every_cycle_fails ->
  let ports := SmtpServer.ports smtp_server in
  exists (error_msg : str) (st' : state world),
    send msg recipients smtp_server retries verbose st
    = (Ok {| SendResult.success := false;
             SendResult.message :=
               py "Failed to send email after " ++ str_of_Z (retries + 1)
               ++ py " attempt(s): " ++ error_msg;
             SendResult.attempts := (retries + 1)%Z;
             SendResult.smtp_response := None |}, st')
    /\ history st'
       = history st
         ++ (range retries ≫= fun attempt =>
               (Connect <$> ports) ++ [Sleep (2 ^ attempt)])
         ++ (Connect <$> ports)
    /\ connections (history st')
       = connections (history st)
         ++ mjoin (replicate (Z.to_nat (retries + 1)) ports)
    /\ total_wait (history st')
       = (total_wait (history st) + sum ((fun i => 2 ^ i)%Z <$> range retries))%Z
    /\ match last ports with
       | None => error_msg = py "Unknown error"
       | Some p =>
         exists e st_pre,
           (cycle_on p st_pre).1 = Raise e
           /\ history st' = history st_pre ++ [Connect p]
           /\ error_msg = exn_str e
       end.
Proof.
  intros Hretries Hpw Hfail ports.
  destruct (attempts_loop_all_fail (range (retries + 1)) Hfail 0%Z None st)
    as (last_error & st' & Hrun & Hh & Hnil & Hlast).
  assert (last (range (retries + 1)) = Some retries) as Hlast_attempt.
  { rewrite range_succ by done. apply last_snoc. }
  rewrite Hlast_attempt in Hrun. cbn [fmap option_fmap option_map default] in Hrun.
  rewrite failing_history in Hh by done. fold ports in Hh.
  specialize (Hlast retries Hlast_attempt).
  unfold backoff in Hlast. rewrite Z.ltb_irrefl in Hlast.
  exists (match last_error with
          | Some e => exn_str e
          | None => py "Unknown error"
          end), st'.
  split_and!.
  - unfold send_email, lift. unfold mbind at 1. unfold io_bind at 1.
    by rewrite Hpw.
  - done.
  - rewrite Hh, !connections_app, connections_history, connections_connect.
    f_equal.
    replace (Z.to_nat (retries + 1)) with (S (Z.to_nat retries)) by lia.
    unfold range. rewrite length_fmap, length_seq.
    generalize (Z.to_nat retries). intros n. 
    induction n as [|n IH]; cbn; [by rewrite app_nil_r|].
    rewrite <- app_assoc. f_equal. exact IH.
  - rewrite Hh, !total_wait_app, waits_history, total_wait_connections. lia.
  - fold ports in Hlast, Hnil. destruct (last ports) as [p|] eqn:Hp.
    + destruct (Hlast p Hp) as (e & st_pre & -> & He & Hhp).
      exists e, st_pre. by rewrite app_nil_r in Hhp.
    + apply last_None in Hp. rewrite Hnil; auto.
Qed.

End AllFail.

End MailerProps.

(** *** The engine on concrete servers *)

(** A concrete delivery under C2: two ports, two retries, a server that
    cannot be reached. *)
Lemma send_email_exhausts_retries_witness :
  exists (error_msg : str) (st' : state unit),
    Example.send_unreachable 2 Example.start
    = (Ok {| SendResult.success := false;
             SendResult.message :=
               py "Failed to send email after " ++ str_of_Z (2 + 1)
               ++ py " attempt(s): " ++ error_msg;
             SendResult.attempts := (2 + 1)%Z;
             SendResult.smtp_response := None |}, st')
    /\ total_wait (history st') = 3%Z
    /\ connections (history st') = [587; 465; 587; 465; 587; 465]%Z.
Proof.
  destruct (send_email_exhausts_retries
              Example.no_shell Example.silent
              (fun _ _ => Example.unreachable) (fun _ _ => Example.unreachable)
              (Example.fine tt) (fun w => w) (fun _ _ => Example.fine tt)
              Example.refuse_rest (Example.fine (py "(250, b'OK')"))
              (Example.fine tt) (fun _ w => w)
              Example.message Example.recipients Example.server None 2 false
              Example.start)
    as (error_msg & st' & Hrun & Hh & Hconn & Hwait & Hlast).
  - lia.
  - reflexivity.
  - intros st port Hport. exists (OSError (py "Connection refused")).
    split; [|reflexivity].
    unfold _send_via_smtp, connect.
    destruct (port =? 465)%Z; reflexivity.
  - exists error_msg, st'. split; [exact Hrun|].
    split; [rewrite Hwait; reflexivity|rewrite Hconn; reflexivity].
Defined.

(** A delivery in which the server refuses the second of two recipients:
    the call raises after the cycle on the first port.  It returns no
    result, the second port is never connected to, and nothing is retried. *)
Lemma partial_refusal_is_not_retried :
  Example.send_refused 1 Example.start
  = (Raise (MailerError (py "Some recipients were refused: b@example.com")),
     {| net := tt; history := [Connect 587] |})
  /\ ~ (exists r st', Example.send_refused 1 Example.start = (Ok r, st'))
  /\ connections (history (Example.send_refused 1 Example.start).2)
     <> [587; 465; 587; 465]%Z.
Proof.
  split; [vm_compute; reflexivity|].
  split; [intros (r & st' & H); vm_compute in H; discriminate|].
  vm_compute. discriminate.
Qed.

(** The same delivery, through the theorem. *)
Lemma partial_refusal_aborts_delivery_witness :
  Example.send_refused 1 Example.start
  = (Raise (MailerError (py "Some recipients were refused: b@example.com")),
     {| net := tt; history := [Connect 587] |}).
Proof.
  pose proof (partial_refusal_aborts_delivery
                Example.no_shell Example.silent
                (fun _ _ => Example.fine tt) (fun _ _ => Example.fine tt)
                (Example.fine tt) (fun w => w) (fun _ _ => Example.fine tt)
                Example.refuse_rest (Example.fine (py "(250, b'OK')"))
                (Example.fine tt) (fun _ w => w)
                Example.message Example.recipients Example.server None 1 false)
    as (_ & _ & _ & Hsend & _).
  apply (Hsend 587%Z [465%Z] Example.start
           (py "Some recipients were refused: b@example.com")).
  - lia.
  - reflexivity.
  - reflexivity.
  - vm_compute. reflexivity.
Defined.

(** *** A concrete editing session *)

Lemma unmodified_session_is_cancelled_witness :
  Example.untouched_session tt = (Ok cancelled_email, tt).
Proof.
  apply (unmodified_session_is_cancelled Example.no_environ
           (fun _ w => (Done Example.temp_file, w))
           (fun _ w => (Done 1700000000%Z, w))
           (fun _ w => (Done 0%Z, w))
           (fun _ w => (Done [], w))
           (fun _ w => (Done tt, w))
           create_empty_config None None None None None None None None
           tt tt tt tt tt Example.temp_file 1700000000%Z);
    reflexivity.
Defined.

Lemma cancelled_only_when_unmodified_witness :
  parse_template (py "---") = Ok
    {| ComposedEmail.to := []; ComposedEmail.cc := []; ComposedEmail.bcc := [];
       ComposedEmail.from_addr := []; ComposedEmail.from_name := None;
       ComposedEmail.reply_to := None; ComposedEmail.subject := [];
       ComposedEmail.body := []; ComposedEmail.cancelled := false |}
  /\ Example.untouched_session tt = (Ok cancelled_email, tt)
  /\ exists temp_path mtime,
       (Done temp_path, tt) = (Done Example.temp_file, tt)
       /\ (Done mtime, tt) = (Done 1700000000%Z, tt).
Proof.
  pose proof (@cancelled_only_when_unmodified unit Example.no_environ
           (fun _ w => (Done Example.temp_file, w))
           (fun _ w => (Done 1700000000%Z, w))
           (fun _ w => (Done 0%Z, w))
           (fun _ w => (Done [], w))
           (fun _ w => (Done tt, w))) as [Hparse Hsession].
  assert (parse_template (py "---") = Ok
    {| ComposedEmail.to := []; ComposedEmail.cc := []; ComposedEmail.bcc := [];
       ComposedEmail.from_addr := []; ComposedEmail.from_name := None;
       ComposedEmail.reply_to := None; ComposedEmail.subject := [];
       ComposedEmail.body := []; ComposedEmail.cancelled := false |}) as Hp.
  { vm_compute. reflexivity. }
  pose proof (Hparse _ _ Hp) as Hc.
  assert (Example.untouched_session tt = (Ok cancelled_email, tt)) as Hs.
  { vm_compute. reflexivity. }
  destruct (Hsession create_empty_config None None None None None None None
              None tt cancelled_email tt Hs eq_refl)
    as (_ & temp_path & w1 & mtime & w2 & w3 & w4 & H1 & H2 & H3 & H4).
  split; [exact Hp|]. split; [exact Hs|].
  exists temp_path, mtime. destruct w1, w2. split; [symmetry; exact H1|].
  symmetry; exact H2.
Defined.

(** ** Python strings: [strip] *)

Lemma blank_nil : blank [].
Proof. constructor. Qed.

Lemma lstrip_blank (w s : str) : blank w -> lstrip (w ++ s) = lstrip s.
Proof.
  induction 1 as [|c w Hc _ IH]; [done|]. cbn. by rewrite Hc.
Qed.

Lemma lstrip_cons (c : char) (s : str) :
  is_space c = false -> lstrip (c :: s) = c :: s.
Proof. intros Hc. cbn. by rewrite Hc. Qed.

Lemma lstrip_decompose (s : str) :
  exists w, s = w ++ lstrip s /\ blank w.
Proof.
  induction s as [|c s (w & Hs & Hw)]; [exists []; split; [done|constructor]|].
  cbn. destruct (is_space c) eqn:Hc.
  - exists (c :: w). split; [cbn; by f_equal|by constructor].
  - exists []. split; [done|constructor].
Qed.

Lemma lstrip_head (s : str) :
  match lstrip s with [] => True | c :: _ => is_space c = false end.
Proof.
  induction s as [|c s IH]; [done|]. cbn.
  destruct (is_space c) eqn:Hc; [done|]. done.
Qed.

Lemma lstrip_idem (s : str) : lstrip (lstrip s) = lstrip s.
Proof.
  pose proof (lstrip_head s) as H. destruct (lstrip s) as [|c t]; [done|].
  by apply lstrip_cons.
Qed.

Lemma lstrip_nil_blank (s : str) : lstrip s = [] <-> blank s.
Proof.
  split.
  - intros H. destruct (lstrip_decompose s) as (w & Hs & Hw).
    rewrite H, app_nil_r in Hs. by subst.
  - intros H. rewrite <- (app_nil_r s). by rewrite lstrip_blank.
Qed.

Lemma lstrip_app (s t : str) : lstrip s <> [] -> lstrip (s ++ t) = lstrip s ++ t.
Proof.
  induction s as [|c s IH]; [done|]. cbn.
  destruct (is_space c); [done|]. done.
Qed.

Lemma blank_rev (w : str) : blank (rev w) <-> blank w.
Proof.
  unfold blank. rewrite !Forall_forall.
  split; intros H c Hc%list_elem_of_In; apply H, list_elem_of_In.
  - by apply in_rev in Hc.
  - by apply in_rev.
Qed.

Lemma rstrip_blank (s w : str) : blank w -> rstrip (s ++ w) = rstrip s.
Proof.
  intros Hw. unfold rstrip. rewrite rev_app_distr.
  by rewrite lstrip_blank by by apply blank_rev.
Qed.

Lemma rstrip_snoc (s : str) (c : char) :
  is_space c = false -> rstrip (s ++ [c]) = s ++ [c].
Proof.
  intros Hc. unfold rstrip. rewrite rev_app_distr. cbn [rev app lstrip].
  rewrite Hc. cbn [rev]. by rewrite rev_involutive.
Qed.

Lemma rstrip_decompose (s : str) :
  exists w, s = rstrip s ++ w /\ blank w.
Proof.
  destruct (lstrip_decompose (rev s)) as (w & Hs & Hw).
  exists (rev w). split; [|by apply blank_rev].
  unfold rstrip. rewrite <- rev_app_distr, <- Hs. by rewrite rev_involutive.
Qed.

Lemma rstrip_nil_blank (s : str) : rstrip s = [] <-> blank s.
Proof.
  unfold rstrip. rewrite <- blank_rev, <- lstrip_nil_blank.
  split; [|by intros ->].
  intros H. apply (f_equal (@rev _)) in H. by rewrite rev_involutive in H.
Qed.

Lemma rstrip_app (s t : str) : rstrip t <> [] -> rstrip (s ++ t) = s ++ rstrip t.
Proof.
  intros Ht. unfold rstrip in *. rewrite rev_app_distr, lstrip_app.
  - by rewrite rev_app_distr, rev_involutive.
  - intros H. apply Ht. by rewrite H.
Qed.

Lemma rstrip_idem (s : str) : rstrip (rstrip s) = rstrip s.
Proof. unfold rstrip. by rewrite rev_involutive, lstrip_idem. Qed.

(** What is stripped on the left does not matter on the right. *)
Lemma lstrip_rstrip (s : str) : lstrip (rstrip s) = rstrip (lstrip s).
Proof.
  destruct (lstrip_decompose s) as (w & Hs & Hw).
  destruct (decide (lstrip s = [])) as [Hnil|Hne].
  - rewrite Hnil. change (rstrip []) with (@nil N).
    apply lstrip_nil_blank in Hnil. apply rstrip_nil_blank in Hnil.
    by rewrite Hnil.
  - assert (rstrip (lstrip s) <> []) as Hr.
    { intros H%rstrip_nil_blank%lstrip_nil_blank.
      by rewrite lstrip_idem in H. }
    rewrite Hs at 1. rewrite rstrip_app by done. rewrite lstrip_blank by done.
    pose proof (lstrip_head s) as Hh.
    destruct (rstrip_decompose (lstrip s)) as (w' & Hs' & Hw').
    destruct (rstrip (lstrip s)) as [|c t] eqn:Hrs; [done|].
    rewrite Hs' in Hh. cbn in Hh. by apply lstrip_cons.
Qed.

Lemma strip_nil : strip [] = [].
Proof. done. Qed.

Lemma strip_decompose (s : str) :
  exists w1 w2, s = w1 ++ strip s ++ w2 /\ blank w1 /\ blank w2.
Proof.
  destruct (lstrip_decompose s) as (w1 & Hs & Hw1).
  destruct (rstrip_decompose (lstrip s)) as (w2 & Hs' & Hw2).
  exists w1, w2. unfold strip. split_and!; [|done..].
  by rewrite <- Hs', <- Hs.
Qed.

Lemma strip_blank_iff (s : str) : strip s = [] <-> blank s.
Proof.
  unfold strip. rewrite rstrip_nil_blank.
  rewrite <- !lstrip_nil_blank. by rewrite lstrip_idem.
Qed.

Lemma strip_blank_l (w s : str) : blank w -> strip (w ++ s) = strip s.
Proof. intros Hw. unfold strip. by rewrite lstrip_blank. Qed.

Lemma strip_blank_r (s w : str) : blank w -> strip (s ++ w) = strip s.
Proof.
  intros Hw. unfold strip. rewrite <- !lstrip_rstrip.
  by rewrite rstrip_blank.
Qed.

Lemma strip_idem (s : str) : strip (strip s) = strip s.
Proof.
  unfold strip. by rewrite lstrip_rstrip, lstrip_idem, rstrip_idem.
Qed.

Lemma strip_lstrip (s : str) : strip (lstrip s) = strip s.
Proof. unfold strip. by rewrite lstrip_idem. Qed.

Lemma strip_rstrip (s : str) : strip (rstrip s) = strip s.
Proof. unfold strip. by rewrite lstrip_rstrip, rstrip_idem. Qed.

(** A string between two characters that are not white space is kept. *)
Lemma strip_solid (c d : char) (s : str) :
  is_space c = false -> is_space d = false ->
  strip (c :: s ++ [d]) = c :: s ++ [d].
Proof.
  intros Hc Hd. unfold strip. rewrite lstrip_cons by done.
  by apply (rstrip_snoc (c :: s)).
Qed.

Lemma strip_solid_1 (c : char) : is_space c = false -> strip [c] = [c].
Proof.
  intros Hc. unfold strip. rewrite lstrip_cons by done.
  by apply (rstrip_snoc []).
Qed.

(** The first character of a string that does not start with white
    space survives. *)
Lemma strip_cons (c : char) (s : str) :
  is_space c = false -> exists t, strip (c :: s) = c :: t.
Proof.
  intros Hc. unfold strip. rewrite lstrip_cons by done.
  destruct (decide (rstrip s = [])) as [Hs|Hs].
  - exists []. apply rstrip_nil_blank in Hs.
    change (c :: s) with ([c] ++ s). rewrite rstrip_blank by done.
    by apply (rstrip_snoc []).
  - exists (rstrip s). change (c :: s) with ([c] ++ s). by rewrite rstrip_app.
Qed.

(** Stripping removes characters, it adds none. *)
Lemma elem_of_strip (c : char) (s : str) : c ∈ strip s -> c ∈ s.
Proof.
  destruct (strip_decompose s) as (w1 & w2 & Hs & _).
  intros Hc. rewrite Hs. set_solver.
Qed.

Lemma elem_of_lstrip (c : char) (s : str) : c ∈ lstrip s -> c ∈ s.
Proof.
  destruct (lstrip_decompose s) as (w & Hs & _).
  intros Hc. rewrite Hs. set_solver.
Qed.

(** ** Python strings: [find], [split] and [join] *)

Lemma startswith_app (p s : str) : startswith (p ++ s) p = true.
Proof. induction p as [|a p IH]; [done|]. cbn. by rewrite N.eqb_refl. Qed.

Lemma startswith_prefix (s p : str) :
  startswith s p = true <-> exists t, s = p ++ t.
Proof.
  revert s. induction p as [|a p IH]; intros s.
  - split; [by exists s|done].
  - destruct s as [|b s]; cbn.
    + split; [done|by intros [t ?]].
    + rewrite andb_true_iff, N.eqb_eq, IH. split.
      * intros [-> [t ->]]. by exists t.
      * intros [t [= -> ->]]. split; [done|by exists t].
Qed.

Lemma find_unfold (sub s : str) :
  find sub s
  = if startswith s sub then Some O
    else match s with
         | [] => None
         | _ :: s' => S <$> find sub s'
         end.
Proof. by destruct s. Qed.

(** A separator that ends with a character the string does not have does
    not occur in it. *)
Lemma find_absent (sep : str) (c : char) (s : str) :
  c ∉ s -> find (sep ++ [c]) s = None.
Proof.
  intros Hc. induction s as [|b s IH].
  - cbn. by destruct sep.
  - cbn [find].
    destruct (startswith (b :: s) (sep ++ [c])) eqn:Hp.
    + apply startswith_prefix in Hp as [t Ht]. exfalso. apply Hc.
      rewrite Ht. set_solver.
    + rewrite IH; [done|set_solver].
Qed.

Lemma contains_absent (sep : str) (c : char) (s : str) :
  c ∉ s -> contains (sep ++ [c]) s = false.
Proof. intros Hc. unfold contains. by rewrite find_absent. Qed.

(** The first occurrence of a separator that ends with a character found
    nowhere before it. *)
Lemma find_first (sep : str) (c : char) (s t : str) :
  c ∉ s -> c ∉ sep -> find (sep ++ [c]) (s ++ sep ++ [c] ++ t) = Some (length s).
Proof.
  intros Hs Hsep. induction s as [|b s IH].
  - rewrite app_nil_l, (app_assoc sep [c] t), find_unfold.
    by rewrite startswith_app.
  - rewrite <- app_comm_cons, find_unfold. cbn [length].
    destruct (startswith (b :: s ++ sep ++ [c] ++ t) (sep ++ [c])) eqn:Hp.
    + exfalso. apply startswith_prefix in Hp as [u Hu].
      (* the character [c] of the separator would lie in [b :: s ++ sep] *)
      assert (exists k, (b :: s ++ sep ++ [c] ++ t) !! k = Some c
                        /\ (k < length (b :: s ++ sep))%nat) as (k & Hk & Hlt).
      { exists (length sep). split.
        - rewrite Hu, <- app_assoc. rewrite lookup_app_r by done.
          by rewrite Nat.sub_diag.
        - cbn. rewrite length_app. lia. }
      rewrite (app_comm_cons), app_assoc in Hk.
      rewrite lookup_app_l in Hk by done.
      apply list_elem_of_lookup_2 in Hk. set_solver.
    + rewrite IH by set_solver. done.
Qed.

Lemma find_Some_bound (sep s : str) (i : nat) :
  find sep s = Some i -> (i + length sep <= length s)%nat.
Proof.
  revert i. induction s as [|b s IH]; intros i.
  - cbn. destruct sep; [|done]. by intros [= <-].
  - cbn [find]. destruct (startswith (b :: s) sep) eqn:Hp.
    + intros [= <-]. apply startswith_prefix in Hp as [t ->].
      rewrite length_app. lia.
    + destruct (find sep s) as [j|]; [|done]. intros [= <-].
      specialize (IH j eq_refl). cbn. lia.
Qed.

(** Enough fuel: no string has more cuts than characters. *)
Lemma split_max_enough (sep : str) (n m : nat) (s : str) :
  sep <> [] -> (length s <= n)%nat -> (length s <= m)%nat ->
  split_max sep n s = split_max sep m s.
Proof.
  intros Hsep. revert m s. induction n as [|n IH]; intros m s Hn Hm.
  - destruct s; [|cbn in Hn; lia].
    destruct m; [done|]. cbn. by destruct sep.
  - destruct m as [|m].
    + destruct s; [|cbn in Hm; lia]. cbn. by destruct sep.
    + cbn [split_max]. destruct (find sep s) as [i|] eqn:Hi; [|done].
      f_equal. apply find_Some_bound in Hi.
      assert (0 < length sep)%nat by (destruct sep; [done|cbn; lia]).
      apply IH; rewrite length_drop; lia.
Qed.

Lemma split_cut (sep s : str) (i : nat) :
  sep <> [] -> find sep s = Some i ->
  split sep s = take i s :: split sep (drop (i + length sep) s).
Proof.
  intros Hsep Hi. unfold split.
  pose proof (find_Some_bound _ _ _ Hi) as Hb.
  assert (0 < length sep)%nat by (destruct sep; [done|cbn; lia]).
  destruct (length s) as [|n] eqn:Hn; [lia|].
  cbn [split_max]. rewrite Hi. f_equal.
  apply split_max_enough; [done|rewrite length_drop; lia..].
Qed.

Lemma split_whole (sep s : str) : find sep s = None -> split sep s = [s].
Proof.
  intros Hi. unfold split. destruct (length s); [done|].
  cbn [split_max]. by rewrite Hi.
Qed.

(** Splitting at a character. *)
Lemma split_char_absent (c : char) (s : str) : c ∉ s -> split [c] s = [s].
Proof. intros Hc. apply split_whole. by apply (find_absent []). Qed.

Lemma split_char_cut (c : char) (s t : str) :
  c ∉ s -> split [c] (s ++ c :: t) = s :: split [c] t.
Proof.
  intros Hc.
  rewrite (split_cut [c] _ (length s)); [|done|].
  - rewrite take_app_length. f_equal. cbn [length].
    by rewrite <- drop_drop, drop_app_length.
  - apply (find_first [] c s t); [done|]. apply not_elem_of_nil.
Qed.

Lemma join_cons (sep p : str) (rest : list str) :
  rest <> [] -> join sep (p :: rest) = p ++ sep ++ join sep rest.
Proof. by destruct rest. Qed.

Lemma join_app (sep : str) (xs ys : list str) :
  xs <> [] -> ys <> [] ->
  join sep (xs ++ ys) = join sep xs ++ sep ++ join sep ys.
Proof.
  intros Hx Hy. induction xs as [|x xs IH]; [done|].
  destruct xs as [|x' xs].
  - cbn [app]. by rewrite join_cons.
  - rewrite <- app_comm_cons, !join_cons by done.
    rewrite IH by done. by rewrite <- !app_assoc.
Qed.

(** Lines that have no newline inside are found again when the text they
    are joined into is split; the last piece may be any text. *)
Lemma split_join_lines (c : char) (ls : list str) (rest : str) :
  Forall (fun l => c ∉ l) ls ->
  split [c] (join [c] (ls ++ [rest])) = ls ++ split [c] rest.
Proof.
  induction 1 as [|l ls Hl _ IH]; [done|].
  rewrite <- app_comm_cons, join_cons by by destruct ls.
  cbn [app]. by rewrite split_char_cut, IH.
Qed.

(** A string has no [c], or a first one. *)
Lemma first_char (c : char) (s : str) :
  c ∉ s \/ exists pre post, s = pre ++ c :: post /\ c ∉ pre.
Proof.
  induction s as [|b s IH]; [left; apply not_elem_of_nil|].
  destruct (decide (b = c)) as [->|Hb].
  - right. exists [], s. split; [done|apply not_elem_of_nil].
  - destruct IH as [IH|(pre & post & -> & Hpre)].
    + left. by apply not_elem_of_cons.
    + right. exists (b :: pre), post. split; [done|].
      by apply not_elem_of_cons.
Qed.

Lemma split_char_ind (c : char) (P : str -> Prop) :
  (forall s, c ∉ s -> P s) ->
  (forall pre post, c ∉ pre -> P post -> P (pre ++ c :: post)) ->
  forall s, P s.
Proof.
  intros Hnone Hcut s.
  remember (length s) as n eqn:Hn. revert s Hn.
  induction n as [n IH] using lt_wf_ind. intros s ->.
  destruct (first_char c s) as [Hs|(pre & post & -> & Hpre)]; [by apply Hnone|].
  apply Hcut; [done|]. eapply IH; [|done].
  rewrite length_app. cbn. lia.
Qed.

(** What stands before the first separator stays in the first piece. *)
Lemma split_char_prepend (c : char) (a s : str) :
  c ∉ a ->
  exists hd tl, split [c] s = hd :: tl /\ split [c] (a ++ s) = (a ++ hd) :: tl.
Proof.
  intros Ha. destruct (first_char c s) as [Hs|(pre & post & -> & Hpre)].
  - exists s, []. split; [by apply split_char_absent|].
    apply split_char_absent. by apply not_elem_of_app.
  - exists pre, (split [c] post). split; [by apply split_char_cut|].
    rewrite app_assoc. apply split_char_cut. by apply not_elem_of_app.
Qed.

(** White space is not a comma. *)
Lemma blank_no_comma (w : str) : blank w -> 44 ∉ w.
Proof.
  intros Hw Hin. unfold blank in Hw. rewrite Forall_forall in Hw.
  by specialize (Hw _ Hin).
Qed.

(** ** The codecs: decoding what was encoded *)

Section Codecs.

Import Base64.

Ltac divmod c d :=
  let q := fresh "q" in let r := fresh "r" in
  pose proof (N.div_mod c d ltac:(done));
  pose proof (N.mod_lt c d ltac:(done));
  generalize dependent (c mod d); intros r;
  generalize dependent (c / d); intros q; intros.

Ltac decide_tests :=
  repeat (match goal with
          | |- context [?a <? ?b] =>
            first [rewrite (proj2 (N.ltb_lt a b)) by lia
                  |rewrite (proj2 (N.ltb_ge a b)) by lia]
          | |- context [?a <=? ?b] =>
            first [rewrite (proj2 (N.leb_le a b)) by lia
                  |rewrite (proj2 (N.leb_gt a b)) by lia]
          | |- context [?a =? ?b] =>
            first [rewrite (proj2 (N.eqb_eq a b)) by lia
                  |rewrite (proj2 (N.eqb_neq a b)) by lia]
          end; cbn [andb]).

(** *** UTF-8 *)

Lemma utf8_decode_fuel_1 b0 fuel rest :
  b0 < 128 ->
  utf8_decode_fuel (S fuel) (b0 :: rest) = cons b0 <$> utf8_decode_fuel fuel rest.
Proof. intros. cbn [utf8_decode_fuel]. by decide_tests. Qed.

Lemma utf8_decode_fuel_2 b0 b1 fuel rest :
  194 <= b0 <= 223 -> 128 <= b1 <= 191 ->
  utf8_decode_fuel (S fuel) (b0 :: b1 :: rest)
  = cons ((b0 - 192) * 64 + (b1 - 128)) <$> utf8_decode_fuel fuel rest.
Proof. intros. cbn [utf8_decode_fuel]. unfold is_cont. by decide_tests. Qed.

Lemma utf8_decode_fuel_3 b0 b1 b2 fuel rest :
  224 <= b0 <= 239 -> 128 <= b1 <= 191 -> 128 <= b2 <= 191 ->
  (b0 = 224 -> 160 <= b1) -> (b0 = 237 -> b1 <= 159) ->
  utf8_decode_fuel (S fuel) (b0 :: b1 :: b2 :: rest)
  = cons ((b0 - 224) * 4096 + (b1 - 128) * 64 + (b2 - 128))
      <$> utf8_decode_fuel fuel rest.
Proof.
  intros. cbn [utf8_decode_fuel]. unfold is_cont.
  destruct (N.eqb_spec b0 224), (N.eqb_spec b0 237); try lia; by decide_tests.
Qed.

Lemma utf8_decode_fuel_4 b0 b1 b2 b3 fuel rest :
  240 <= b0 <= 244 -> 128 <= b1 <= 191 -> 128 <= b2 <= 191 ->
  128 <= b3 <= 191 ->
  (b0 = 240 -> 144 <= b1) -> (b0 = 244 -> b1 <= 143) ->
  utf8_decode_fuel (S fuel) (b0 :: b1 :: b2 :: b3 :: rest)
  = cons ((b0 - 240) * 262144 + (b1 - 128) * 4096
          + (b2 - 128) * 64 + (b3 - 128))
      <$> utf8_decode_fuel fuel rest.
Proof.
  intros. cbn [utf8_decode_fuel]. unfold is_cont.
  destruct (N.eqb_spec b0 240), (N.eqb_spec b0 244); try lia; by decide_tests.
Qed.

Lemma utf8_decode_fuel_char c bs fuel rest :
  utf8_encode_char c = Some bs ->
  utf8_decode_fuel (S fuel) (bs ++ rest) = cons c <$> utf8_decode_fuel fuel rest.
Proof.
  unfold utf8_encode_char.
  destruct (N.ltb_spec c 128).
  { intros [= <-]. by apply utf8_decode_fuel_1. }
  destruct (N.ltb_spec c 2048).
  { intros [= <-]. cbn [app]. rewrite utf8_decode_fuel_2.
    - f_equal. f_equal. divmod c 64. lia.
    - divmod c 64. lia.
    - divmod c 64. lia. }
  destruct (N.leb_spec 55296 c); destruct (N.leb_spec c 57343);
    cbn [andb]; try done.
  all: destruct (N.ltb_spec c 65536).
  all: try (intros [= <-]; cbn [app]; rewrite utf8_decode_fuel_3;
            [f_equal; f_equal| | | | |];
            divmod (c / 64) 64; divmod c 64; lia).
  all: destruct (N.ltb_spec c 1114112); try done.
  all: intros [= <-]; cbn [app]; rewrite utf8_decode_fuel_4;
         [f_equal; f_equal| | | | | |];
         divmod (c / 64 / 64) 64; divmod (c / 64) 64; divmod c 64; lia.
Qed.

Lemma utf8_encode_char_bytes c bs :
  utf8_encode_char c = Some bs -> bs <> [] /\ Forall (fun b => b < 256) bs.
Proof.
  unfold utf8_encode_char.
  destruct (N.ltb_spec c 128).
  { intros [= <-]. split; [done|]. repeat constructor. lia. }
  destruct (N.ltb_spec c 2048).
  { intros [= <-]. split; [done|]. repeat constructor; divmod c 64; lia. }
  destruct (N.leb_spec 55296 c); destruct (N.leb_spec c 57343);
    cbn [andb]; try done.
  all: destruct (N.ltb_spec c 65536).
  all: try (intros [= <-]; split; [done|]; repeat constructor;
            divmod (c / 64) 64; divmod c 64; lia).
  all: destruct (N.ltb_spec c 1114112); try done.
  all: intros [= <-]; split; [done|]; repeat constructor;
         divmod (c / 64 / 64) 64; divmod (c / 64) 64; divmod c 64; lia.
Qed.

Lemma utf8_decode_fuel_encoded s chunks :
  Forall2 (fun c bs => utf8_encode_char c = Some bs) s chunks ->
  forall fuel, (length s <= fuel)%nat ->
    utf8_decode_fuel fuel (mjoin chunks) = Some s.
Proof.
  induction 1 as [|c bs s chunks Hc _ IH]; intros fuel Hfuel.
  - by destruct fuel.
  - destruct fuel as [|fuel]; [simpl in Hfuel; lia|].
    change (mjoin (bs :: chunks)) with (bs ++ mjoin chunks).
    rewrite (utf8_decode_fuel_char _ _ _ _ Hc).
    rewrite IH; [done|]. simpl in Hfuel. lia.
Qed.

Lemma utf8_encoded_length s chunks :
  Forall2 (fun c bs => utf8_encode_char c = Some bs) s chunks ->
  (length s <= length (mjoin chunks))%nat
  /\ Forall (fun b => b < 256) (mjoin chunks).
Proof.
  induction 1 as [|c bs s chunks Hc _ [IHl IHb]]; [by split|].
  apply utf8_encode_char_bytes in Hc as [Hne Hb].
  change (mjoin (bs :: chunks)) with (bs ++ mjoin chunks).
  rewrite length_app, Forall_app. split; [|done].
  destruct bs; [done|]. cbn [length]. lia.
Qed.

Lemma decode_encode_utf8 s bs :
  encode_utf8 s = Some bs ->
  decode_utf8 bs = Ok s /\ Forall (fun b => b < 256) bs.
Proof.
  unfold encode_utf8. destruct (mapM utf8_encode_char s) as [chunks|] eqn:Hm;
    [|done].
  intros [= <-]. apply mapM_Some in Hm.
  destruct (utf8_encoded_length _ _ Hm) as [Hlen Hb]. split; [|done].
  unfold decode_utf8, utf8_decode.
  by rewrite (utf8_decode_fuel_encoded _ _ Hm).
Qed.

(** *** Base64 *)

(** A property of bytes holds of each when it holds of the 256 of them. *)
Lemma byte_check (P : N -> bool) :
  forallb P all_bytes = true -> forall b, b < 256 -> P b = true.
Proof.
  intros Hall b Hb. rewrite forallb_forall in Hall. apply Hall.
  apply list_elem_of_In, list_elem_of_fmap. exists (N.to_nat b).
  split; [by rewrite N2Nat.id|]. apply elem_of_seq. lia.
Qed.

Lemma byte_check2 (P : N -> N -> bool) :
  forallb (fun a => forallb (P a) all_bytes) all_bytes = true ->
  forall a b, a < 256 -> b < 256 -> P a b = true.
Proof.
  intros Hall a b Ha Hb.
  apply (byte_check (P a)); [|done].
  by apply (byte_check (fun a => forallb (P a) all_bytes)).
Qed.

Ltac split_checks H :=
  repeat (let H' := fresh in apply andb_true_iff in H as [H H']);
  rewrite ?N.eqb_eq, ?N.ltb_lt in *.

Lemma table_b2a_a2b v :
  v < 64 ->
  table_a2b_base64 (table_b2a_base64 v) = Some v
  /\ table_b2a_base64 v <> BASE64_PAD
  /\ table_b2a_base64 v < 128.
Proof.
  intros Hv.
  pose proof (byte_check
    (fun v => (64 <=? v)
              || (match table_a2b_base64 (table_b2a_base64 v) with
                  | Some w => w =? v
                  | None => false
                  end
                  && negb (table_b2a_base64 v =? BASE64_PAD)
                  && (table_b2a_base64 v <? 128)))
    ltac:(vm_compute; reflexivity) v ltac:(lia)) as H.
  cbv beta in H. apply orb_true_iff in H as [H|H]; [apply N.leb_le in H; lia|].
  apply andb_true_iff in H as [H H3]. apply andb_true_iff in H as [H1 H2].
  apply N.ltb_lt in H3. apply negb_true_iff, N.eqb_neq in H2.
  destruct (table_a2b_base64 _) as [w|]; [|done].
  apply N.eqb_eq in H1. by subst.
Qed.

(** The digits of a group of bytes, and the bytes the decoder puts
    together from them. *)
Lemma base64_bits a b :
  a < 256 -> b < 256 ->
  N.shiftr a 2 < 64
  /\ N.lor (N.shiftl (N.land a 3) 4) (N.shiftr b 4) < 64
  /\ N.lor (N.shiftl (N.land a 15) 2) (N.shiftr b 6) < 64
  /\ N.land a 63 < 64
  /\ N.shiftl (N.land a 3) 4 < 64
  /\ N.shiftl (N.land a 15) 2 < 64
  /\ N.lor (N.shiftl (N.shiftr a 2) 2)
       (N.shiftr (N.lor (N.shiftl (N.land a 3) 4) (N.shiftr b 4)) 4) = a
  /\ N.land (N.lor (N.shiftl (N.land a 3) 4) (N.shiftr b 4)) 15 = N.shiftr b 4
  /\ N.lor (N.shiftl (N.shiftr a 4) 4)
       (N.shiftr (N.lor (N.shiftl (N.land a 15) 2) (N.shiftr b 6)) 2) = a
  /\ N.land (N.lor (N.shiftl (N.land a 15) 2) (N.shiftr b 6)) 3 = N.shiftr b 6
  /\ N.lor (N.shiftl (N.shiftr a 6) 6) (N.land a 63) = a
  /\ N.lor (N.shiftl (N.shiftr a 2) 2) (N.shiftr (N.shiftl (N.land a 3) 4) 4) = a
  /\ N.lor (N.shiftl (N.shiftr a 4) 4) (N.shiftr (N.shiftl (N.land a 15) 2) 2) = a.
Proof.
  intros Ha Hb.
  pose proof (byte_check2
    (fun a b =>
       (N.shiftr a 2 <? 64)
       && (N.lor (N.shiftl (N.land a 3) 4) (N.shiftr b 4) <? 64)
       && (N.lor (N.shiftl (N.land a 15) 2) (N.shiftr b 6) <? 64)
       && (N.land a 63 <? 64)
       && (N.shiftl (N.land a 3) 4 <? 64)
       && (N.shiftl (N.land a 15) 2 <? 64)
       && (N.lor (N.shiftl (N.shiftr a 2) 2)
             (N.shiftr (N.lor (N.shiftl (N.land a 3) 4) (N.shiftr b 4)) 4) =? a)
       && (N.land (N.lor (N.shiftl (N.land a 3) 4) (N.shiftr b 4)) 15
           =? N.shiftr b 4)
       && (N.lor (N.shiftl (N.shiftr a 4) 4)
             (N.shiftr (N.lor (N.shiftl (N.land a 15) 2) (N.shiftr b 6)) 2) =? a)
       && (N.land (N.lor (N.shiftl (N.land a 15) 2) (N.shiftr b 6)) 3
           =? N.shiftr b 6)
       && (N.lor (N.shiftl (N.shiftr a 6) 6) (N.land a 63) =? a)
       && (N.lor (N.shiftl (N.shiftr a 2) 2)
             (N.shiftr (N.shiftl (N.land a 3) 4) 4) =? a)
       && (N.lor (N.shiftl (N.shiftr a 4) 4)
             (N.shiftr (N.shiftl (N.land a 15) 2) 2) =? a))
    ltac:(vm_compute; reflexivity) a b Ha Hb) as H.
  cbv beta in H. split_checks H. by split_and!.
Qed.

Lemma a2b_base64_digit v rest quad_pos leftchar pads bin_data :
  v < 64 ->
  a2b_base64 (table_b2a_base64 v :: rest) quad_pos leftchar pads bin_data
  = match quad_pos with
    | O => a2b_base64 rest 1 v 0 bin_data
    | 1%nat =>
      a2b_base64 rest 2 (N.land v 15) 0
        (bin_data ++ [N.lor (N.shiftl leftchar 2) (N.shiftr v 4)])
    | 2%nat =>
      a2b_base64 rest 3 (N.land v 3) 0
        (bin_data ++ [N.lor (N.shiftl leftchar 4) (N.shiftr v 2)])
    | _ =>
      a2b_base64 rest 0 0 0 (bin_data ++ [N.lor (N.shiftl leftchar 6) v])
    end.
Proof.
  intros Hv. destruct (table_b2a_a2b v Hv) as (Htable & Hpad & _).
  cbn [a2b_base64]. rewrite Htable.
  by rewrite (proj2 (N.eqb_neq _ _) Hpad).
Qed.

Lemma list_ind3 {A} (P : list A -> Prop) :
  P [] -> (forall a, P [a]) -> (forall a b, P [a; b]) ->
  (forall a b c l, P l -> P (a :: b :: c :: l)) ->
  forall l, P l.
Proof.
  intros H0 H1 H2 H3. fix IH 1.
  intros [|a [|b [|c l]]]; [done..|]. apply H3, IH.
Qed.

Lemma b64encode_ascii data :
  Forall (fun b => b < 256) data ->
  forallb (fun c => c <? 128) (b64encode data) = true.
Proof.
  induction data as [|a|a b|a b c data IH] using list_ind3; intros Hb.
  - done.
  - apply Forall_cons in Hb as [Ha _].
    destruct (base64_bits a a Ha Ha) as (H0 & _ & _ & _ & H1 & _).
    cbn [b64encode forallb].
    destruct (table_b2a_a2b _ H0) as (_ & _ & ->%N.ltb_lt).
    by destruct (table_b2a_a2b _ H1) as (_ & _ & ->%N.ltb_lt).
  - apply Forall_cons in Hb as [Ha Hb]. apply Forall_cons in Hb as [Hb _].
    destruct (base64_bits a b Ha Hb) as (H0 & H1 & _).
    destruct (base64_bits b b Hb Hb) as (_ & _ & _ & _ & _ & H2 & _).
    cbn [b64encode forallb].
    destruct (table_b2a_a2b _ H0) as (_ & _ & ->%N.ltb_lt).
    destruct (table_b2a_a2b _ H1) as (_ & _ & ->%N.ltb_lt).
    by destruct (table_b2a_a2b _ H2) as (_ & _ & ->%N.ltb_lt).
  - apply Forall_cons in Hb as [Ha Hb]. apply Forall_cons in Hb as [Hb Hc].
    apply Forall_cons in Hc as [Hc Hdata].
    destruct (base64_bits a b Ha Hb) as (H0 & H1 & _).
    destruct (base64_bits b c Hb Hc) as (_ & _ & H2 & _).
    destruct (base64_bits c c Hc Hc) as (_ & _ & _ & H3 & _).
    cbn [b64encode forallb].
    destruct (table_b2a_a2b _ H0) as (_ & _ & ->%N.ltb_lt).
    destruct (table_b2a_a2b _ H1) as (_ & _ & ->%N.ltb_lt).
    destruct (table_b2a_a2b _ H2) as (_ & _ & ->%N.ltb_lt).
    destruct (table_b2a_a2b _ H3) as (_ & _ & ->%N.ltb_lt).
    by apply IH.
Qed.

Lemma a2b_base64_b64encode data :
  Forall (fun b => b < 256) data ->
  forall bin_data,
    a2b_base64 (b64encode data) 0 0 0 bin_data = Ok (bin_data ++ data).
Proof.
  induction data as [|a|a b|a b c data IH] using list_ind3;
    intros Hb bin_data.
  - by rewrite app_nil_r.
  - apply Forall_cons in Hb as [Ha _].
    destruct (base64_bits a a Ha Ha)
      as (H0 & _ & _ & _ & H1 & _ & _ & _ & _ & _ & _ & Hbyte & _).
    cbn [b64encode]. rewrite !a2b_base64_digit by done.
    by rewrite Hbyte.
  - apply Forall_cons in Hb as [Ha Hb]. apply Forall_cons in Hb as [Hb _].
    destruct (base64_bits a b Ha Hb)
      as (H0 & H1 & _ & _ & _ & _ & Hbyte0 & Hleft & _).
    destruct (base64_bits b b Hb Hb)
      as (_ & _ & _ & _ & _ & H2 & _ & _ & _ & _ & _ & _ & Hbyte1).
    cbn [b64encode]. rewrite !a2b_base64_digit by done.
    rewrite Hbyte0, Hleft, Hbyte1. by rewrite <- app_assoc.
  - apply Forall_cons in Hb as [Ha Hb]. apply Forall_cons in Hb as [Hb Hc].
    apply Forall_cons in Hc as [Hc Hdata].
    destruct (base64_bits a b Ha Hb)
      as (H0 & H1 & _ & _ & _ & _ & Hbyte0 & Hleft1 & _).
    destruct (base64_bits b c Hb Hc)
      as (_ & _ & H2 & _ & _ & _ & _ & _ & Hbyte1 & Hleft2 & _).
    destruct (base64_bits c c Hc Hc)
      as (_ & _ & _ & H3 & _ & _ & _ & _ & _ & _ & Hbyte2 & _).
    cbn [b64encode]. rewrite !a2b_base64_digit by done.
    rewrite Hbyte0, Hleft1, Hbyte1, Hleft2, Hbyte2, IH by done.
    by rewrite <- !app_assoc.
Qed.

Lemma b64decode_b64encode data :
  Forall (fun b => b < 256) data -> b64decode (b64encode data) = Ok data.
Proof.
  intros Hb. unfold b64decode. rewrite b64encode_ascii by done.
  by rewrite a2b_base64_b64encode.
Qed.

End Codecs.

(** ** The registry: resolving the secret *)

Section SecretProps.

Variable subprocess_run : str -> Z -> process_outcome.

Abbreviation get_password := (SmtpServer.get_password subprocess_run).

(** C4 (as the code has it).  With a credential command, the command is
    run with a timeout of 30 and, when it exits with code zero, the secret
    is the whole of its standard output with the white space around it
    stripped, whatever static password and encoding are configured.  That
    is the stripped first line when the output is a single line and its
    newline. *)
Theorem password_command_secret (self : SmtpServer.t)
    (cmd stdout stderr : str) :
  SmtpServer.password_cmd self = Some cmd -> cmd <> [] ->
  subprocess_run cmd 30 = CompletedProcess 0 stdout stderr ->
  get_password self = Ok (Some (strip stdout))
  /\ (forall line,
        10 ∉ line -> stdout = line ++ [10] ->
        first_line stdout = line /\ strip stdout = strip line).
Proof.
  intros Hcmd Hne Hrun. split.
  - unfold SmtpServer.get_password. rewrite Hcmd.
    destruct cmd as [|c cmd]; [done|]. by rewrite Hrun.
  - intros line Hline ->. split.
    + unfold first_line. by rewrite split_char_cut.
    + apply strip_blank_r. by repeat constructor.
Qed.

(** C3 (as the code has it).  A static base64 password is decoded when
    the secret is resolved, not when the configuration is loaded: the
    loader copies the password as it is written.  Resolving the secret
    raises a [ConfigError] when the decoder rejects the text (a final
    group left open, text that is not ASCII, bytes that are not UTF-8),
    and returns the decoded text otherwise; the base64 form of the UTF-8
    bytes of a text resolves to that text. *)
Theorem base64_password_decoded_on_use (self : SmtpServer.t) (password : str) :
  truthy (SmtpServer.password_cmd self) = false ->
  SmtpServer.password self = Some password -> password <> [] ->
  lower (SmtpServer.password_encoding self) = py "base64" ->
  (forall e,
     (bs ← Base64.b64decode password; Base64.decode_utf8 bs) = Raise e ->
     get_password self
     = Raise (ConfigError
                (py "Failed to decode base64 password for SMTP '"
                 ++ SmtpServer.name self ++ py "': " ++ exn_str e)))
  /\ (forall plain,
        (bs ← Base64.b64decode password; Base64.decode_utf8 bs) = Ok plain ->
        get_password self = Ok (Some plain))
  /\ (forall plain bytes,
        Base64.encode_utf8 plain = Some bytes ->
        password = Base64.b64encode bytes ->
        get_password self = Ok (Some plain))
  /\ (forall data server,
        _parse_smtp_server data = Ok server ->
        SmtpServer.password server = st_password data).
Proof.
  intros Hcmd Hpw Hne Henc.
  assert (get_password self
          = match bs ← Base64.b64decode password; Base64.decode_utf8 bs with
            | Ok plain => Ok (Some plain)
            | Raise e =>
              Raise (ConfigError
                       (py "Failed to decode base64 password for SMTP '"
                        ++ SmtpServer.name self ++ py "': " ++ exn_str e))
            end) as Hget.
  { unfold SmtpServer.get_password.
    destruct (SmtpServer.password_cmd self) as [[|c cmd]|]; try done;
      rewrite Hpw; (destruct password as [|c' pw]; [done|]);
      by rewrite Henc, bool_decide_eq_true_2. }
  split_and!.
  - intros e He. by rewrite Hget, He.
  - intros plain Hp. by rewrite Hget, Hp.
  - intros plain bytes Hbytes ->.
    destruct (decode_encode_utf8 _ _ Hbytes) as [Hplain Hb].
    rewrite Hget, b64decode_b64encode by done.
    cbn [mbind result_bind]. by rewrite Hplain.
  - intros data server. unfold _parse_smtp_server.
    destruct (st_name data) as [[|c n]|]; try done.
    destruct (st_host data) as [[|h hs]|]; try done.
    destruct (negb _); [done|]. by intros [= <-].
Qed.

End SecretProps.

(** The secret of the specification's example, which is the base64 form
    of its plain text, and the password of the test for invalid base64. *)
Lemma base64_password_decoded_on_use_witness :
  Base64.b64encode (default [] (Base64.encode_utf8 (py "secret123")))
  = py "c2VjcmV0MTIz"
  /\ SmtpServer.get_password Example.no_shell
       (Example.base64_server (py "c2VjcmV0MTIz"))
     = Ok (Some (py "secret123"))
  /\ exists e,
       SmtpServer.get_password Example.no_shell
         (Example.base64_server (py "not-valid-base64!!!"))
       = Raise (ConfigError e).
Proof.
  destruct (base64_password_decoded_on_use Example.no_shell
              (Example.base64_server (py "c2VjcmV0MTIz")) (py "c2VjcmV0MTIz"))
    as (_ & _ & Hok & _); [reflexivity|reflexivity|discriminate|reflexivity|].
  destruct (base64_password_decoded_on_use Example.no_shell
              (Example.base64_server (py "not-valid-base64!!!"))
              (py "not-valid-base64!!!"))
    as (Hbad & _ & _); [reflexivity|reflexivity|discriminate|reflexivity|].
  split; [vm_compute; reflexivity|]. split.
  - apply (Hok (py "secret123")
             (default [] (Base64.encode_utf8 (py "secret123"))));
      vm_compute; reflexivity.
  - eexists. apply (Hbad (ValueError (py "Incorrect padding"))).
    vm_compute. reflexivity.
Defined.

(** The decoder skips what is not a base64 digit: a password with such
    characters among complete groups of digits resolves as if they were
    not there, and one whose digits are none resolves to the empty
    text. *)
Lemma base64_skips_other_characters :
  SmtpServer.get_password Example.no_shell
    (Example.base64_server (py "c2Vj-cmV0 MTIz!"))
  = Ok (Some (py "secret123"))
  /\ SmtpServer.get_password Example.no_shell
       (Example.base64_server (py "!!!"))
     = Ok (Some []).
Proof. split; vm_compute; reflexivity. Qed.

(** Loading a configuration whose base64 password cannot be decoded
    succeeds, and the password is in the loaded server as written; it is
    the later resolution of the secret that fails. *)
Lemma invalid_base64_password_loads :
  (exists config server,
     load_config (py "/home/user/.tmail.conf") Example.bad_password_file
     = Ok config
     /\ Config.smtp_servers config = [server]
     /\ SmtpServer.password server = Some (py "not-valid-base64!!!")
     /\ SmtpServer.get_password Example.no_shell server
        = Raise (ConfigError
                   (py "Failed to decode base64 password for SMTP 'test': "
                    ++ py "Incorrect padding")))
  /\ ~ (exists e,
          load_config (py "/home/user/.tmail.conf") Example.bad_password_file
          = Raise e).
Proof.
  split.
  - eexists _, _. split; [vm_compute; reflexivity|].
    split; [reflexivity|]. split; vm_compute; reflexivity.
  - intros [e He]. vm_compute in He. discriminate.
Qed.

Lemma password_command_secret_witness :
  SmtpServer.get_password Example.echo_shell Example.command_server
  = Ok (Some (py "hunter2")).
Proof.
  destruct (password_command_secret Example.echo_shell Example.command_server
              (py "pass show mail") (py "hunter2" ++ [10]) [])
    as [Hget Hline]; [reflexivity|discriminate|reflexivity|].
  rewrite Hget. vm_compute. reflexivity.
Defined.

(** A command that prints two lines: the secret is both of them, not the
    first. *)
Lemma password_command_keeps_all_lines :
  SmtpServer.get_password Example.two_line_shell Example.command_server
  = Ok (Some (py "hunter2" ++ [10] ++ py "login: sender"))
  /\ SmtpServer.get_password Example.two_line_shell Example.command_server
     <> Ok (Some (first_line (py "hunter2" ++ [10] ++ py "login: sender" ++ [10])))
  /\ first_line (py "hunter2" ++ [10] ++ py "login: sender" ++ [10])
     = py "hunter2".
Proof.
  split; [vm_compute; reflexivity|].
  split; [vm_compute; discriminate|vm_compute; reflexivity].
Qed.

(** ** The template: the Reply-To menu *)

Lemma reply_to_line_uncommented (effective rt : str) :
  startswith (reply_to_line effective rt) (py "#") = false <-> rt = effective.
Proof.
  unfold reply_to_line. destruct (decide (rt = effective)) as [->|Hne].
  - by rewrite bool_decide_eq_true_2.
  - by rewrite bool_decide_eq_false_2.
Qed.

Lemma reply_to_menu_uncommented (effective : str) (allowed : list str) :
  filter (fun line => startswith line (py "#") = false)
    (reply_to_line effective <$> allowed)
  = (fun rt => py "Reply-To: " ++ rt) <$> filter (fun rt => rt = effective) allowed.
Proof.
  induction allowed as [|rt allowed IH]; [done|].
  rewrite fmap_cons, !filter_cons, IH.
  destruct (decide (rt = effective)) as [->|Hne].
  - rewrite decide_True by by apply reply_to_line_uncommented.
    unfold reply_to_line. by rewrite bool_decide_eq_true_2.
  - rewrite decide_False; [done|]. by rewrite reply_to_line_uncommented.
Qed.

Lemma filter_eq_absent (x : str) (l : list str) :
  x ∉ l -> filter (fun y => y = x) l = [].
Proof.
  induction l as [|y l IH]; [done|]. intros [Hy Hl]%not_elem_of_cons.
  rewrite filter_cons, decide_False by done. by apply IH.
Qed.

Lemma filter_eq_NoDup (x : str) (l : list str) :
  NoDup l -> x ∈ l -> filter (fun y => y = x) l = [x].
Proof.
  induction 1 as [|y l Hy Hl IH]; [by intros ?%not_elem_of_nil|].
  rewrite filter_cons. intros [->|Hx]%elem_of_cons.
  - rewrite decide_True by done. f_equal. by apply filter_eq_absent.
  - rewrite decide_False by (intros ->; done). by apply IH.
Qed.

(** C7 (as the code has it).  For a selected identity with allowed
    reply-to addresses, the template has one Reply-To line per allowed
    address, in order, between the From menu and the To line.  The
    uncommented ones are the lines of the addresses equal to the
    effective reply-to: the requested reply-to when one is given, the
    first allowed address otherwise.  So exactly one line is uncommented
    when the allowed addresses are distinct and the effective reply-to is
    one of them, as it is when none is requested, and none is when a
    reply-to outside the allowed addresses is requested. *)
Theorem reply_to_menu (config : Config.t)
    (recipients cc bcc : option (list str))
    (identity_name reply_to subject body custom_display_name : option str)
    (sel : Identity.t) (first : str) (others : list str) :
  select_identity config identity_name = Some sel ->
  Identity.reply_to sel = first :: others ->
  let allowed := Identity.reply_to sel in
  let effective := or_else reply_to first in
  let menu := reply_to_line effective <$> allowed in
  let uncommented :=
    filter (fun line => startswith line (py "#") = false) menu in
  generate_template config recipients cc bcc identity_name reply_to subject
    body custom_display_name
  = join NL
      ([ HEADER_INSTRUCTIONS; [];
         py "# ┌─── FROM IDENTITY (select one) ───┐" ]
       ++ (from_line (Some sel) custom_display_name <$> Config.identities config)
       ++ [ py "# └────────────────────────────────────┘"; [];
            py "# ┌─── REPLY-TO for [" ++ Identity.name sel
            ++ py "] (select one) ───┐" ]
       ++ menu
       ++ [ py "# └──────────────────────────────────────────────┘"; [];
            py "To: " ++ join (py ", ") (default [] recipients);
            py "Cc: " ++ join (py ", ") (default [] cc);
            py "Bcc: " ++ join (py ", ") (default [] bcc);
            py "Subject: " ++ or_else subject [];
            []; TEMPLATE_SEPARATOR; []; or_else body [] ])
  /\ menu
     = (fun rt =>
          (if decide (rt = effective) then [] else py "#")
          ++ py "Reply-To: " ++ rt) <$> allowed
  /\ uncommented
     = (fun rt => py "Reply-To: " ++ rt) <$> filter (fun rt => rt = effective) allowed
  /\ (NoDup allowed -> effective ∈ allowed ->
      uncommented = [py "Reply-To: " ++ effective])
  /\ (effective ∉ allowed -> uncommented = [])
  /\ (truthy reply_to = false -> effective = first /\ effective ∈ allowed)
  /\ (truthy reply_to = true -> reply_to = Some effective).
Proof.
  intros Hsel Hallowed allowed effective menu uncommented.
  assert (uncommented
          = (fun rt => py "Reply-To: " ++ rt)
            <$> filter (fun rt => rt = effective) allowed) as Hun
    by apply reply_to_menu_uncommented.
  split_and!.
  - unfold generate_template, reply_to_block. rewrite Hsel, Hallowed.
    fold effective. rewrite <- Hallowed. fold allowed. fold menu.
    f_equal. by rewrite <- !app_assoc.
  - subst menu. apply list_fmap_ext. intros _ rt _. unfold reply_to_line.
    destruct (decide (rt = effective)).
    + by rewrite bool_decide_eq_true_2.
    + by rewrite bool_decide_eq_false_2.
  - done.
  - intros Hnd Hin. by rewrite Hun, filter_eq_NoDup.
  - intros Hout. by rewrite Hun, filter_eq_absent.
  - intros Hreq. assert (effective = first) as ->.
    { subst effective. by destruct reply_to as [[|c s]|]. }
    split; [done|]. subst allowed. rewrite Hallowed. apply list_elem_of_here.
  - intros Hreq. subst effective. by destruct reply_to as [[|c s]|].
Qed.

Lemma reply_to_menu_witness :
  filter (fun line => startswith line (py "#") = false)
    (reply_to_line (py "user@example.com")
       <$> [py "user@example.com"; py "alias@example.com"])
  = [py "Reply-To: user@example.com"].
Proof.
  destruct (reply_to_menu Example.sample_config None None None None None None
              None None Example.personal (py "user@example.com")
              [py "alias@example.com"])
    as (_ & _ & _ & Hone & _); [reflexivity|reflexivity|].
  apply Hone.
  - vm_compute. repeat constructor; set_solver.
  - vm_compute. set_solver.
Defined.

(** A template for a requested reply-to address outside the allowed
    addresses: both Reply-To lines are commented, none is uncommented,
    the first allowed address included. *)
Lemma requested_outside_allowed_all_commented :
  let lines := split NL Example.template_other_reply_to in
  filter (fun line => startswith line (py "Reply-To:") = true) lines = []
  /\ filter (fun line => startswith line (py "#Reply-To:") = true) lines
     = [py "#Reply-To: user@example.com"; py "#Reply-To: alias@example.com"].
Proof. split; vm_compute; reflexivity. Qed.

(** ** The template: reading a generated line back *)

Lemma no_char_spec (c : char) (s : str) : no_char c s = true <-> c ∉ s.
Proof.
  unfold no_char. induction s as [|x s IH]; cbn.
  - split; [intros _; apply not_elem_of_nil|done].
  - rewrite andb_true_iff, IH, not_elem_of_cons, negb_true_iff, N.eqb_neq.
    split; intros [? ?]; split; congruence.
Qed.

(** Goals [c ∉ s] for a text put together from fields known to be free of
    [c] and from literals. *)
Ltac no_char :=
  repeat (apply not_elem_of_app; split);
  repeat (apply not_elem_of_cons; split; [done|]);
  try apply not_elem_of_nil;
  try assumption;
  try (apply no_char_spec; vm_compute; reflexivity).

Lemma elem_of_join (c : char) (sep : str) (l : list str) :
  c ∈ join sep l -> c ∈ sep \/ exists x, x ∈ l /\ c ∈ x.
Proof.
  induction l as [|x l IH]; [by intros ?%not_elem_of_nil|].
  destruct l as [|y l].
  - cbn. intros Hc. right. exists x. split; [apply list_elem_of_here|done].
  - rewrite join_cons by done. rewrite !elem_of_app.
    intros [Hc|[Hc|Hc]]; [|by left|].
    + right. exists x. split; [apply list_elem_of_here|done].
    + destruct (IH Hc) as [?|(z & Hz & Hcz)]; [by left|].
      right. exists z. split; [by apply list_elem_of_further|done].
Qed.

Lemma not_elem_of_join (c : char) (sep : str) (l : list str) :
  c ∉ sep -> Forall (fun x => c ∉ x) l -> c ∉ join sep l.
Proof.
  intros Hsep Hl Hc. apply elem_of_join in Hc as [Hc|(x & Hx & Hc)]; [done|].
  rewrite Forall_forall in Hl. by apply (Hl x).
Qed.

Lemma lstrip_app_solid (s t : str) (c : char) :
  is_space c = false -> lstrip (s ++ c :: t) = lstrip s ++ c :: t.
Proof.
  intros Hc. induction s as [|b s IH]; cbn; [by rewrite Hc|].
  by destruct (is_space b).
Qed.

Lemma rstrip_app_solid (s t : str) (c : char) :
  is_space c = false -> rstrip (s ++ c :: t) = s ++ c :: rstrip t.
Proof.
  intros Hc. destruct (decide (rstrip t = [])) as [Ht|Ht].
  - rewrite Ht. apply rstrip_nil_blank in Ht.
    change (c :: t) with ([c] ++ t). rewrite app_assoc, rstrip_blank by done.
    by rewrite rstrip_snoc.
  - change (c :: t) with ([c] ++ t). rewrite app_assoc, rstrip_app by done.
    by rewrite <- app_assoc.
Qed.

Lemma find_char_first (c : char) (s t : str) :
  c ∉ s -> find [c] (s ++ c :: t) = Some (length s).
Proof.
  intros Hc. apply (find_first [] c s t); [done|apply not_elem_of_nil].
Qed.

Lemma contains_present (c : char) (s : str) : c ∈ s -> contains [c] s = true.
Proof.
  intros Hc. destruct (first_char c s) as [?|(pre & post & -> & Hpre)]; [done|].
  unfold contains. by rewrite find_char_first.
Qed.

(** *** Lines the parser skips *)

Lemma parse_header_line_empty (headers : gmap (list N) (list N)) :
  parse_header_line headers [] = Ok headers.
Proof. done. Qed.

Lemma parse_header_line_comment (headers : gmap (list N) (list N)) (rest : str) :
  parse_header_line headers (35 :: rest) = Ok headers.
Proof.
  unfold parse_header_line.
  destruct (strip_cons 35 rest) as [t ->]; [done|].
  by rewrite orb_true_r.
Qed.

Lemma parse_header_lines_skipped (headers : gmap (list N) (list N))
    (lines : list str) :
  Forall skipped lines -> parse_header_lines headers lines = Ok headers.
Proof.
  induction 1 as [|line lines [->|[rest ->]] _ IH]; [done| |].
  - cbn [parse_header_lines]. by rewrite parse_header_line_empty.
  - cbn [parse_header_lines]. by rewrite parse_header_line_comment.
Qed.

Lemma parse_header_lines_app (headers : gmap (list N) (list N))
    (l1 l2 : list str) :
  parse_header_lines headers (l1 ++ l2)
  = (h ← parse_header_lines headers l1; parse_header_lines h l2).
Proof.
  revert headers. induction l1 as [|line l1 IH]; intros headers; [done|].
  cbn [app parse_header_lines].
  destruct (parse_header_line headers line) as [h|e]; [|done]. cbn. apply IH.
Qed.

(** *** Header lines *)

(** A line [key: text] sets the header of the lowered key to the stripped
    text without its trailing comment. *)
Lemma parse_header_line_key (headers : gmap (list N) (list N))
    (k : char) (key text : str) :
  is_space k = false -> k <> 35 -> 58 ∉ k :: key ->
  parse_header_line headers ((k :: key) ++ 58 :: text)
  = (value ← strip_trailing_comment (strip text);
     Ok (set_header headers (lower (strip (k :: key))) value)).
Proof.
  intros Hk Hk' Hcolon. unfold parse_header_line.
  assert (strip ((k :: key) ++ 58 :: text) = (k :: key) ++ 58 :: rstrip text)
    as ->.
  { unfold strip. rewrite <- app_comm_cons, lstrip_cons by done.
    rewrite app_comm_cons. by apply rstrip_app_solid. }
  rewrite bool_decide_eq_false_2 by done.
  assert (startswith ((k :: key) ++ 58 :: rstrip text) (py "#") = false) as ->.
  { change (py "#") with [35]. cbn [app startswith].
    rewrite andb_true_r. apply N.eqb_neq. congruence. }
  cbn [orb]. change (py ":") with [58].
  rewrite contains_present by set_solver.
  cbn [split_max].
  rewrite (find_char_first 58 (k :: key) (rstrip text)) by done.
  rewrite take_app_length.
  rewrite <- drop_drop, drop_app_length. cbn [length drop unpack2].
  rewrite drop_0. unfold mbind at 1. unfold result_bind at 1. cbn [fst snd].
  by rewrite strip_rstrip.
Qed.
(** *** Trailing comments *)

Lemma strip_trailing_comment_clean (value : str) :
  35 ∉ value -> strip_trailing_comment value = Ok value.
Proof.
  intros Hv. unfold strip_trailing_comment.
  change (py "  #") with ([32; 32] ++ [35]).
  by rewrite contains_absent.
Qed.

(** The label after a From value is cut off. *)
Lemma strip_trailing_comment_label (value name : str) :
  35 ∉ value -> strip value <> [] ->
  strip_trailing_comment
    (strip (32 :: value ++ py "  # [" ++ name ++ py "]"))
  = Ok (strip value).
Proof.
  intros Hv Hne.
  assert (lstrip value <> []) as Hl.
  { intros H. apply Hne. apply strip_blank_iff. by apply lstrip_nil_blank. }
  assert (strip (32 :: value ++ py "  # [" ++ name ++ py "]")
          = lstrip value ++ [32; 32] ++ [35] ++ (py " [" ++ name ++ py "]")) as ->.
  { change (32 :: ?s) with ([32] ++ s).
    rewrite strip_blank_l by by repeat constructor.
    unfold strip. rewrite lstrip_app by done.
    change (py "  # [") with ([32; 32; 35; 32; 91]).
    change (py " [") with ([32; 91]). change (py "]") with [93].
    rewrite !app_assoc. rewrite rstrip_snoc by done.
    by rewrite <- !app_assoc. }
  unfold strip_trailing_comment.
  change (py "  #") with ([32; 32] ++ [35]).
  assert (35 ∉ lstrip value) as Hv'.
  { intros H. by apply elem_of_lstrip in H. }
  assert (find ([32; 32] ++ [35])
            (lstrip value ++ [32; 32] ++ [35] ++ (py " [" ++ name ++ py "]"))
          = Some (length (lstrip value))) as Hfind.
  { apply find_first; [done|]. by no_char. }
  unfold contains. rewrite Hfind.
  rewrite (split_cut ([32; 32] ++ [35]) _ _ ltac:(done) Hfind).
  cbn [index lookup list_lookup]. rewrite take_app_length.
  cbn [mbind result_bind]. by rewrite strip_lstrip.
Qed.

(** *** The From value *)

Lemma parse_from_plain (address : str) :
  60 ∉ address -> parse_from address = Ok (None, address).
Proof.
  intros Ha. unfold parse_from. change (py "<") with ([] ++ [60]).
  by rewrite contains_absent.
Qed.

Lemma parse_from_named (display address : str) :
  60 ∉ display -> 60 ∉ address -> 62 ∉ address ->
  parse_from (strip (display ++ py " <" ++ address ++ py ">"))
  = Ok (some_text (strip display), strip address).
Proof.
  intros Hd Ha Ha'.
  change (py " <") with [32; 60]. change (py ">") with [62].
  set (p := lstrip (display ++ [32])).
  assert (strip (display ++ [32; 60] ++ address ++ [62])
          = p ++ 60 :: address ++ [62]) as ->.
  { unfold strip. change ([32; 60] ++ ?s) with ([32] ++ 60 :: s).
    rewrite app_assoc, lstrip_app_solid by done. fold p.
    change (60 :: ?s) with ([60] ++ s). rewrite !app_assoc.
    by rewrite rstrip_snoc. }
  assert (60 ∉ p) as Hp.
  { intros H%elem_of_lstrip. set_solver. }
  assert (strip p = strip display) as Hsp.
  { subst p. rewrite strip_lstrip. apply strip_blank_r. by repeat constructor. }
  unfold parse_from.
  change (py "<") with [60]. change (py ">") with [62].
  rewrite !contains_present by set_solver. cbn [andb].
  rewrite split_char_cut by done.
  rewrite split_char_absent by by no_char.
  cbn [index lookup list_lookup mbind result_bind].
  rewrite split_char_cut by done.
  cbn [index lookup list_lookup mbind result_bind].
  rewrite Hsp. unfold some_text. by destruct (strip display).
Qed.

(** *** Address lists *)

Lemma parse_address_list_blank_l (w s : str) :
  blank w -> parse_address_list (w ++ s) = parse_address_list s.
Proof.
  intros Hw. unfold parse_address_list. change (py ",") with [44].
  destruct (split_char_prepend 44 w s) as (hd & tl & -> & ->);
    [by apply blank_no_comma|].
  rewrite !filter_cons, strip_blank_l by done.
  by destruct (decide (strip hd <> [])); rewrite ?fmap_cons, ?strip_blank_l.
Qed.

Lemma parse_address_list_blank_r (s w : str) :
  blank w -> parse_address_list (s ++ w) = parse_address_list s.
Proof.
  intros Hw. unfold parse_address_list. change (py ",") with [44].
  induction s as [s Hs|pre post Hpre IH] using (split_char_ind 44).
  - rewrite !split_char_absent;
      [|done|apply not_elem_of_app; split; [done|by apply blank_no_comma]].
    rewrite !filter_cons, strip_blank_r by done.
    by destruct (decide (strip s <> [])); rewrite ?fmap_cons, ?strip_blank_r.
  - rewrite <- app_assoc, <- app_comm_cons, !split_char_cut by done.
    rewrite !filter_cons.
    by destruct (decide (strip pre <> [])); rewrite ?fmap_cons, IH.
Qed.

Lemma parse_address_list_strip (s : str) :
  parse_address_list (strip s) = parse_address_list s.
Proof.
  destruct (strip_decompose s) as (w1 & w2 & Hs & Hw1 & Hw2).
  rewrite Hs at 2.
  by rewrite parse_address_list_blank_l, parse_address_list_blank_r.
Qed.

(** The entries joined with ", " are found again, stripped, when none of
    them has a comma. *)
Lemma parse_address_list_join (entries : list str) :
  Forall (fun entry => 44 ∉ entry) entries ->
  parse_address_list (join (py ", ") entries) = stripped_entries entries.
Proof.
  unfold stripped_entries. induction 1 as [|entry entries He Hes IH].
  - unfold parse_address_list. change (py ",") with [44].
    rewrite split_char_absent by apply not_elem_of_nil.
    rewrite filter_cons, decide_False; [done|].
    intros H. by apply H.
  - destruct entries as [|entry' entries].
    + unfold parse_address_list. change (py ",") with [44]. cbn [join].
      rewrite split_char_absent by done. done.
    + rewrite join_cons by done. change (py ", ") with ([44] ++ [32]).
      rewrite <- app_assoc.
      unfold parse_address_list at 1. change (py ",") with [44].
      change ([44] ++ ?s) with (44 :: s).
      rewrite split_char_cut by done.
      change (split [44] ?s) with (split (py ",") s).
      rewrite !(filter_cons _ entry).
      pose proof (parse_address_list_blank_l [32]
                    (join ([44] ++ [32]) (entry' :: entries))
                    ltac:(by repeat constructor)) as Hrest.
      unfold parse_address_list in Hrest at 1.
      destruct (decide (strip entry <> [])).
      * rewrite !fmap_cons. f_equal. rewrite Hrest. apply IH.
      * rewrite Hrest. apply IH.
Qed.
(** ** The template: the lines of a generated text *)

Lemma or_else_nil (o : option (list N)) : or_else o [] = default [] o.
Proof. by destruct o as [[|c s]|]. Qed.

Lemma join_split_char (c : char) (s : str) : join [c] (split [c] s) = s.
Proof.
  induction s as [s Hs|pre post Hpre IH] using (split_char_ind c).
  - by rewrite split_char_absent.
  - rewrite split_char_cut by done.
    destruct (split_max_cons [c] (length post) post) as (x & l & Hx).
    unfold split in IH |- *. rewrite Hx in IH |- *.
    rewrite join_cons by done. by rewrite IH.
Qed.

Lemma list_find_first {A} (P : A -> Prop) `{forall x, Decision (P x)}
    (before : list A) (x : A) (after : list A) :
  Forall (fun y => ~ P y) before -> P x ->
  list_find P (before ++ x :: after) = Some (length before, x).
Proof.
  intros Hb Hx. induction Hb as [|y before Hy _ IH]; cbn.
  - by rewrite decide_True.
  - rewrite decide_False by done. by rewrite IH.
Qed.

Lemma no_separator_strip (line : str) :
  no_separator line -> strip line <> TEMPLATE_SEPARATOR.
Proof.
  intros [->|(c & rest & -> & Hc & Hdash)]; [done|].
  destruct (strip_cons c rest Hc) as [t ->].
  change TEMPLATE_SEPARATOR with [45; 45; 45]. congruence.
Qed.

Lemma skipped_no_separator (line : str) : skipped line -> no_separator line.
Proof.
  intros [->|[rest ->]]; [by left|]. right. by exists 35, rest.
Qed.

(** *** The From menu *)

Lemma from_line_commented (selected : option Identity.t)
    (custom_display_name : option str) (identity : Identity.t) :
  Some identity <> selected ->
  exists rest, from_line selected custom_display_name identity = 35 :: rest.
Proof.
  intros Hne. unfold from_line. rewrite bool_decide_eq_false_2 by done.
  by eexists.
Qed.

Lemma from_line_selected (sel : Identity.t) (custom_display_name : option str) :
  from_line (Some sel) custom_display_name sel
  = py "From" ++ 58 :: 32 :: from_value sel custom_display_name
    ++ py "  # [" ++ Identity.name sel ++ py "]".
Proof.
  unfold from_line, from_value, shown_name.
  rewrite bool_decide_eq_true_2 by done. cbn [andb].
  destruct custom_display_name as [[|c s]|]; cbn [truthy or_else default];
    try destruct (Identity.display_name sel); reflexivity.
Qed.

Lemma from_line_single_line (selected : option Identity.t)
    (custom_display_name : option str) (identity : Identity.t) :
  10 ∉ Identity.name identity -> 10 ∉ Identity.email identity ->
  10 ∉ Identity.display_name identity ->
  10 ∉ default [] custom_display_name ->
  10 ∉ from_line selected custom_display_name identity.
Proof.
  intros Hn He Hd Hc. unfold from_line.
  destruct (bool_decide _); cbn [andb].
  - destruct (truthy custom_display_name);
      [destruct (default [] custom_display_name)
      |destruct (Identity.display_name identity)]; no_char.
  - destruct (Identity.display_name identity); no_char.
Qed.

Lemma from_line_no_separator (selected : option Identity.t)
    (custom_display_name : option str) (identity : Identity.t) :
  no_separator (from_line selected custom_display_name identity).
Proof.
  unfold from_line. right.
  destruct (bool_decide _); by eexists _, _.
Qed.

(** An element that occurs once splits the list around it. *)
Lemma filter_single {A} `{EqDecision A} (x : A) (l : list A) :
  length (filter (fun y => y = x) l) = 1%nat ->
  exists before after, l = before ++ x :: after /\ (x ∉ before) /\ (x ∉ after).
Proof.
  induction l as [|y l IH]; [done|].
  rewrite filter_cons. destruct (decide (y = x)) as [->|Hy].
  - cbn. intros [= Hl]. exists [], l. split_and!; [done|apply not_elem_of_nil|].
    apply length_zero_iff_nil in Hl. intros Hx.
    assert (x ∈ filter (fun y => y = x) l) as Hin by by apply list_elem_of_filter.
    rewrite Hl in Hin. by apply not_elem_of_nil in Hin.
  - intros Hl. destruct (IH Hl) as (before & after & -> & Hb & Ha).
    exists (y :: before), after. split_and!; [done| |done].
    apply not_elem_of_cons. split; [congruence|done].
Qed.

Lemma set_header_fresh (headers : gmap (list N) (list N)) (key value : str) :
  headers !! key = None -> set_header headers key value = <[key := value]> headers.
Proof. intros H. unfold set_header. by rewrite H. Qed.

(** The From menu sets the From header to the value of the selected
    identity, which occurs once. *)
Lemma parse_from_menu (headers : gmap (list N) (list N))
    (identities : list Identity.t) (sel : Identity.t)
    (custom_display_name : option str) :
  length (filter (fun i => i = sel) identities) = 1%nat ->
  35 ∉ from_value sel custom_display_name ->
  strip (from_value sel custom_display_name) <> [] ->
  headers !! py "from" = None ->
  parse_header_lines headers
    (from_line (Some sel) custom_display_name <$> identities)
  = Ok (<[py "from" := strip (from_value sel custom_display_name)]> headers).
Proof.
  intros (before & after & -> & Hb & Ha)%filter_single Hclean Hne Hfresh.
  rewrite fmap_app, fmap_cons, parse_header_lines_app.
  rewrite parse_header_lines_skipped.
  2:{ apply Forall_fmap, Forall_forall. intros i Hi. right.
      apply from_line_commented. intros [= ->]. done. }
  cbn [mbind result_bind parse_header_lines].
  rewrite from_line_selected.
  change (py "From") with [70; 114; 111; 109].
  rewrite parse_header_line_key; [|done|done|by no_char].
  rewrite strip_trailing_comment_label by done.
  cbn [mbind result_bind].
  change (lower (strip [70; 114; 111; 109])) with (py "from").
  rewrite set_header_fresh by done.
  apply parse_header_lines_skipped.
  apply Forall_fmap, Forall_forall. intros i Hi. right.
  apply from_line_commented. intros [= ->]. done.
Qed.

Lemma parse_from_menu_none (headers : gmap (list N) (list N))
    (identities : list Identity.t) (custom_display_name : option str) :
  parse_header_lines headers (from_line None custom_display_name <$> identities)
  = Ok headers.
Proof.
  apply parse_header_lines_skipped, Forall_fmap, Forall_forall.
  intros i _. right. by apply from_line_commented.
Qed.

(** *** The Reply-To menu *)

Lemma reply_to_line_commented (effective rt : str) :
  rt <> effective -> reply_to_line effective rt = 35 :: py "Reply-To: " ++ rt.
Proof.
  intros Hne. unfold reply_to_line. by rewrite bool_decide_eq_false_2.
Qed.

Lemma reply_to_line_selected (effective : str) :
  reply_to_line effective effective = py "Reply-To" ++ 58 :: 32 :: effective.
Proof.
  unfold reply_to_line. by rewrite bool_decide_eq_true_2.
Qed.

Lemma parse_reply_to_menu (headers : gmap (list N) (list N))
    (allowed : list str) (effective : str) :
  NoDup allowed -> Forall header_safe allowed ->
  headers !! py "reply-to" = None ->
  parse_header_lines headers (reply_to_line effective <$> allowed)
  = Ok (if decide (effective ∈ allowed)
        then <[py "reply-to" := strip effective]> headers
        else headers).
Proof.
  intros Hnd Hsafe Hfresh.
  assert (forall l, effective ∉ l ->
            Forall skipped (reply_to_line effective <$> l)) as Hskip.
  { intros l Hl. apply Forall_fmap, Forall_forall. intros rt Hrt. right.
    rewrite reply_to_line_commented by (intros ->; done). by eexists. }
  destruct (decide (effective ∈ allowed)) as [Hin|Hout].
  - apply list_elem_of_split in Hin as (before & after & ->).
    apply NoDup_app in Hnd as (_ & Hb & Ha%NoDup_cons).
    rewrite fmap_app, fmap_cons, parse_header_lines_app.
    rewrite parse_header_lines_skipped.
    2:{ apply Hskip. intros H. apply (Hb _ H). apply list_elem_of_here. }
    cbn [mbind result_bind parse_header_lines].
    rewrite reply_to_line_selected.
    change (py "Reply-To") with [82; 101; 112; 108; 121; 45; 84; 111].
    rewrite parse_header_line_key; [|done|done|by no_char].
    change (32 :: effective) with ([32] ++ effective).
    rewrite strip_blank_l by by repeat constructor.
    rewrite strip_trailing_comment_clean.
    2:{ intros H%elem_of_strip. rewrite Forall_app, Forall_cons in Hsafe.
        by destruct Hsafe as (_ & [_ ?] & _). }
    cbn [mbind result_bind].
    change (lower (strip [82; 101; 112; 108; 121; 45; 84; 111]))
      with (py "reply-to").
    rewrite set_header_fresh by done.
    apply parse_header_lines_skipped, Hskip. by destruct Ha.
  - by apply parse_header_lines_skipped, Hskip.
Qed.
(** *** The text as lines *)

(** Every literal of the goal, as the characters it stands for. *)
Ltac py_eval :=
  repeat match goal with
         | |- context [py ?s] =>
             let v := eval vm_compute in (py s) in change (py s) with v
         end.

(** A property of each line of an explicit list, by [tac]. *)
Ltac each_line tac :=
  repeat (apply Forall_cons_2; [tac|]); try apply Forall_nil_2.

Ltac starts_with_comment := right; py_eval; by eexists.
Ltac starts_solid := right; py_eval; by eexists _, _.

Lemma generate_template_join (config : Config.t)
    (recipients cc bcc : option (list str))
    (identity_name reply_to subject body custom_display_name : option str) :
  generate_template config recipients cc bcc identity_name reply_to subject
    body custom_display_name
  = join NL
      ((template_header_lines config (select_identity config identity_name)
          recipients cc bcc reply_to subject custom_display_name
        ++ [TEMPLATE_SEPARATOR; []])
       ++ [or_else body []]).
Proof.
  unfold generate_template, template_header_lines.
  rewrite <- !app_assoc. cbn [app].
  rewrite join_cons by done. unfold HEADER_INSTRUCTIONS.
  symmetry. by apply join_app.
Qed.

Lemma instruction_lines_skipped : Forall skipped INSTRUCTION_LINES.
Proof.
  unfold INSTRUCTION_LINES, DQUOTE. each_line starts_with_comment.
Qed.

Lemma instruction_lines_single_line : Forall (fun l => 10 ∉ l) INSTRUCTION_LINES.
Proof.
  unfold INSTRUCTION_LINES, DQUOTE. each_line ltac:(by no_char).
Qed.

Lemma reply_to_block_single_line (selected : option Identity.t)
    (reply_to : option str) :
  (forall sel, selected = Some sel ->
     (10 ∉ Identity.name sel)
     /\ Forall (fun rt => 10 ∉ rt) (Identity.reply_to sel)) ->
  Forall (fun l => 10 ∉ l) (reply_to_block selected reply_to).
Proof.
  intros H. unfold reply_to_block. destruct selected as [sel|]; [|done].
  destruct (H sel eq_refl) as [Hn Hr].
  destruct (Identity.reply_to sel) as [|first others] eqn:Hallowed; [done|].
  rewrite <- Hallowed in *. cbn [app].
  apply Forall_cons_2; [by no_char|].
  apply Forall_app. split.
  - apply Forall_fmap. eapply Forall_impl; [exact Hr|].
    intros rt Hrt. cbn. unfold reply_to_line.
    destruct (bool_decide _); by no_char.
  - each_line ltac:(by no_char).
Qed.

Lemma reply_to_block_no_separator (selected : option Identity.t)
    (reply_to : option str) :
  Forall no_separator (reply_to_block selected reply_to).
Proof.
  unfold reply_to_block. destruct selected as [sel|]; [|done].
  destruct (Identity.reply_to sel) as [|first others] eqn:Hallowed; [done|].
  rewrite <- Hallowed in *. cbn [app].
  apply Forall_cons_2; [starts_solid|].
  apply Forall_app. split.
  - apply Forall_fmap, Forall_forall. intros rt _. cbn. unfold reply_to_line.
    destruct (bool_decide _); starts_solid.
  - each_line ltac:(first [by left|starts_solid]).
Qed.

Section RoundTrip.

Variable config : Config.t.
Variables recipients cc bcc : option (list (list N)).
Variables identity_name reply_to subject body custom_display_name
  : option (list N).

Abbreviation selected := (select_identity config identity_name).
Abbreviation header_lines :=
  (template_header_lines config selected recipients cc bcc reply_to subject
     custom_display_name).

(** The fields are single lines. *)
Hypothesis identities_single_line :
  Forall (fun i => (10 ∉ Identity.name i) /\ (10 ∉ Identity.email i)
                   /\ (10 ∉ Identity.display_name i)
                   /\ Forall (fun rt => 10 ∉ rt) (Identity.reply_to i))
    (Config.identities config).
Hypothesis custom_single_line : 10 ∉ default [] custom_display_name.
Hypothesis selected_safe :
  forall sel, selected = Some sel ->
    length (filter (fun i => i = sel) (Config.identities config)) = 1%nat
    /\ (35 ∉ shown_name sel custom_display_name)
    /\ (60 ∉ shown_name sel custom_display_name)
    /\ (35 ∉ Identity.email sel) /\ (60 ∉ Identity.email sel)
    /\ (62 ∉ Identity.email sel) /\ strip (Identity.email sel) <> []
    /\ NoDup (Identity.reply_to sel)
    /\ Forall (fun rt => 35 ∉ rt) (Identity.reply_to sel).
Hypothesis addresses_safe :
  Forall (fun r => header_safe r /\ (44 ∉ r))
    (default [] recipients ++ default [] cc ++ default [] bcc).
Hypothesis subject_safe : header_safe (default [] subject).

Lemma selected_listed (sel : Identity.t) :
  selected = Some sel -> sel ∈ Config.identities config.
Proof.
  intros Hsel. destruct (selected_safe sel Hsel) as (Hone & _).
  apply filter_single in Hone as (before & after & -> & _).
  apply elem_of_app. right. apply list_elem_of_here.
Qed.

Lemma addresses_single_line (l : option (list (list N))) :
  default [] l ⊆ default [] recipients ++ default [] cc ++ default [] bcc ->
  (10 ∉ join (py ", ") (default [] l))
  /\ (35 ∉ join (py ", ") (default [] l))
  /\ Forall (fun r => 44 ∉ r) (default [] l).
Proof.
  intros Hsub.
  pose proof (proj1 (Forall_forall _ _) addresses_safe) as Hsafe.
  split_and!.
  - apply not_elem_of_join; [by no_char|]. apply Forall_forall.
    intros r Hr. by destruct (Hsafe r (Hsub _ Hr)) as [[? ?] ?].
  - apply not_elem_of_join; [by no_char|]. apply Forall_forall.
    intros r Hr. by destruct (Hsafe r (Hsub _ Hr)) as [[? ?] ?].
  - apply Forall_forall.
    intros r Hr. by destruct (Hsafe r (Hsub _ Hr)) as [[? ?] ?].
Qed.

Lemma header_lines_single_line : Forall (fun l => 10 ∉ l) header_lines.
Proof.
  unfold template_header_lines.
  destruct (addresses_single_line recipients) as (Hto & _); [set_solver|].
  destruct (addresses_single_line cc) as (Hcc & _); [set_solver|].
  destruct (addresses_single_line bcc) as (Hbcc & _); [set_solver|].
  destruct subject_safe as [Hs _].
  pose proof (proj1 (Forall_forall _ _) identities_single_line) as Hid.
  repeat (apply Forall_app; split).
  - apply instruction_lines_single_line.
  - each_line ltac:(by no_char).
  - apply Forall_fmap, Forall_forall. intros i Hi.
    destruct (Hid i Hi) as (? & ? & ? & ?).
    by apply from_line_single_line.
  - each_line ltac:(by no_char).
  - apply reply_to_block_single_line. intros sel Hsel.
    by destruct (Hid sel (selected_listed sel Hsel)) as (? & ? & ? & ?).
  - rewrite or_else_nil. each_line ltac:(by no_char).
Qed.

Lemma header_lines_no_separator : Forall no_separator header_lines.
Proof.
  unfold template_header_lines.
  repeat (apply Forall_app; split).
  - eapply Forall_impl; [apply instruction_lines_skipped|].
    apply skipped_no_separator.
  - each_line ltac:(first [by left|starts_solid]).
  - apply Forall_fmap, Forall_forall. intros i _. apply from_line_no_separator.
  - each_line ltac:(first [by left|starts_solid]).
  - apply reply_to_block_no_separator.
  - each_line ltac:(first [by left|starts_solid]).
Qed.

(** The lines of the generated text: the header lines, the separator, an
    empty line and the lines of the body. *)
Lemma generate_template_lines :
  split NL
    (generate_template config recipients cc bcc identity_name reply_to
       subject body custom_display_name)
  = header_lines ++ TEMPLATE_SEPARATOR :: [] :: split NL (or_else body []).
Proof.
  rewrite generate_template_join. unfold NL. rewrite split_join_lines.
  - by rewrite <- app_assoc.
  - apply Forall_app. split; [apply header_lines_single_line|].
    each_line ltac:(by no_char).
Qed.

(** *** The headers of a generated text *)

Lemma from_value_safe (sel : Identity.t) :
  selected = Some sel ->
  (35 ∉ from_value sel custom_display_name)
  /\ strip (from_value sel custom_display_name) <> [].
Proof.
  intros Hsel.
  destruct (selected_safe sel Hsel) as (_ & Hs & _ & He & _ & _ & Hne & _).
  unfold from_value.
  destruct (shown_name sel custom_display_name) as [|c shown] eqn:Hshown;
    [done|].
  split; [by no_char|].
  intros Hblank%strip_blank_iff. unfold blank in Hblank.
  rewrite Forall_forall in Hblank.
  assert (60 ∈ (c :: shown) ++ py " <" ++ Identity.email sel ++ py ">") as Hin.
  { change (py " <") with [32; 60]. set_solver. }
  by specialize (Hblank _ Hin).
Qed.

Lemma parse_address_line (headers : gmap (list N) (list N))
    (k : char) (key : str) (l : option (list (list N))) :
  is_space k = false -> k <> 35 -> 58 ∉ k :: key ->
  default [] l ⊆ default [] recipients ++ default [] cc ++ default [] bcc ->
  headers !! lower (strip (k :: key)) = None ->
  parse_header_line headers
    ((k :: key) ++ 58 :: 32 :: join (py ", ") (default [] l))
  = Ok (<[lower (strip (k :: key)) := strip (join (py ", ") (default [] l))]>
          headers).
Proof.
  intros Hk Hk' Hcolon Hsub Hfresh.
  destruct (addresses_single_line l Hsub) as (_ & Hclean & _).
  rewrite parse_header_line_key by done.
  change (32 :: ?s) with ([32] ++ s).
  rewrite strip_blank_l by by repeat constructor.
  rewrite strip_trailing_comment_clean by (by intros H%elem_of_strip).
  cbn [mbind result_bind]. by rewrite set_header_fresh.
Qed.

Lemma parse_generated_headers :
  parse_header_lines ∅ header_lines
  = Ok (generated_headers selected recipients cc bcc reply_to subject
          custom_display_name).
Proof.
  unfold template_header_lines, generated_headers.
  rewrite parse_header_lines_app, parse_header_lines_skipped
    by apply instruction_lines_skipped.
  cbn [mbind result_bind].
  rewrite parse_header_lines_app, parse_header_lines_skipped
    by each_line ltac:(first [by left|starts_with_comment]).
  cbn [mbind result_bind].
  rewrite parse_header_lines_app.
  set (h1 := match selected with
             | Some sel =>
               <[py "from" := strip (from_value sel custom_display_name)]>
                 (∅ : gmap (list N) (list N))
             | None => ∅
             end).
  assert (parse_header_lines ∅
            (from_line selected custom_display_name <$> Config.identities config)
          = Ok h1) as ->.
  { subst h1. case_eq (select_identity config identity_name); [intros sel Hsel|intros Hsel].
    - destruct (from_value_safe sel Hsel) as [? ?].
      destruct (selected_safe sel Hsel) as (Hone & _).
      by apply parse_from_menu.
    - apply parse_from_menu_none. }
  cbn [mbind result_bind].
  rewrite parse_header_lines_app, parse_header_lines_skipped
    by each_line ltac:(first [by left|starts_with_comment]).
  cbn [mbind result_bind].
  rewrite parse_header_lines_app.
  set (h2 := match selected with
             | Some sel =>
               match Identity.reply_to sel with
               | first :: _ =>
                 if decide (or_else reply_to first ∈ Identity.reply_to sel)
                 then <[py "reply-to" := strip (or_else reply_to first)]> h1
                 else h1
               | [] => h1
               end
             | None => h1
             end).
  assert (h1 !! py "reply-to" = None) as Hfresh1.
  { subst h1. case_eq (select_identity config identity_name); [intros sel Hsel|intros Hsel];
      [by rewrite lookup_insert_ne|done]. }
  assert (parse_header_lines h1 (reply_to_block selected reply_to) = Ok h2)
    as ->.
  { subst h2. unfold reply_to_block.
    case_eq (select_identity config identity_name); [intros sel Hsel|intros Hsel]; [|done].
    case_eq (Identity.reply_to sel); [done|intros first others Hallowed].
    rewrite <- Hallowed.
    destruct (selected_safe sel Hsel) as (_ & _ & _ & _ & _ & _ & _ & Hnd & Hr).
    destruct (proj1 (Forall_forall _ _) identities_single_line sel
                (selected_listed sel Hsel)) as (_ & _ & _ & Hr').
    rewrite parse_header_lines_app, parse_header_lines_skipped
      by each_line starts_with_comment.
    cbn [mbind result_bind].
    rewrite parse_header_lines_app, parse_reply_to_menu; [|done| |done].
    2:{ apply Forall_forall. intros rt Hrt. rewrite Forall_forall in Hr, Hr'.
        split; auto. }
    cbn [mbind result_bind].
    apply parse_header_lines_skipped.
    each_line ltac:(first [by left|starts_with_comment]). }
  cbn [mbind result_bind].
  assert (forall key, key <> py "from" -> key <> py "reply-to" ->
            h2 !! key = None) as Hfresh2.
  { intros key Hk1 Hk2. subst h2 h1.
    case_eq (select_identity config identity_name); [intros sel Hsel|intros Hsel]; [|done].
    case_eq (Identity.reply_to sel); [|intros first others Hallowed];
      [by rewrite lookup_insert_ne|].
    destruct (decide _); by rewrite !lookup_insert_ne. }
  cbn [parse_header_lines].
  change (py "To: " ++ ?s) with ([84; 111] ++ 58 :: 32 :: s).
  rewrite parse_address_line; [|done|done|by no_char|set_solver|by apply Hfresh2].
  cbn [mbind result_bind].
  change (py "Cc: " ++ ?s) with ([67; 99] ++ 58 :: 32 :: s).
  rewrite parse_address_line; [|done|done|by no_char|set_solver|].
  2:{ rewrite lookup_insert_ne by done. by apply Hfresh2. }
  cbn [mbind result_bind].
  change (py "Bcc: " ++ ?s) with ([66; 99; 99] ++ 58 :: 32 :: s).
  rewrite parse_address_line; [|done|done|by no_char|set_solver|].
  2:{ rewrite !lookup_insert_ne by done. by apply Hfresh2. }
  cbn [mbind result_bind].
  change (py "Subject: " ++ ?s)
    with ([83; 117; 98; 106; 101; 99; 116] ++ 58 :: 32 :: s).
  rewrite parse_header_line_key; [|done|done|by no_char].
  rewrite or_else_nil. destruct subject_safe as [_ Hs].
  change (32 :: ?s) with ([32] ++ s).
  rewrite strip_blank_l by by repeat constructor.
  rewrite strip_trailing_comment_clean by (by intros H%elem_of_strip).
  cbn [mbind result_bind].
  rewrite set_header_fresh.
  2:{ rewrite !lookup_insert_ne by done. by apply Hfresh2. }
  done.
Qed.

(** *** Reading the headers *)

Lemma generated_headers_from :
  generated_headers selected recipients cc bcc reply_to subject
    custom_display_name !! py "from"
  = (fun sel => strip (from_value sel custom_display_name)) <$> selected.
Proof.
  unfold generated_headers. rewrite !lookup_insert_ne by done.
  case_eq (select_identity config identity_name); [intros sel Hsel|done].
  cbn [fmap option_fmap option_map].
  destruct (Identity.reply_to sel) as [|first others];
    [by rewrite lookup_insert_eq|].
  destruct (decide _); [rewrite lookup_insert_ne by done|];
    by rewrite lookup_insert_eq.
Qed.

Lemma generated_headers_reply_to :
  default [] (generated_headers selected recipients cc bcc reply_to subject
                custom_display_name !! py "reply-to")
  = match selected with
    | Some sel =>
      match Identity.reply_to sel with
      | first :: _ =>
        if decide (or_else reply_to first ∈ Identity.reply_to sel)
        then strip (or_else reply_to first)
        else []
      | [] => []
      end
    | None => []
    end.
Proof.
  unfold generated_headers. rewrite !lookup_insert_ne by done.
  case_eq (select_identity config identity_name); [intros sel Hsel|done].
  destruct (Identity.reply_to sel) as [|first others];
    [by rewrite lookup_insert_ne|].
  destruct (decide _); [by rewrite lookup_insert_eq|].
  by rewrite lookup_insert_ne.
Qed.

Lemma generated_headers_to :
  generated_headers selected recipients cc bcc reply_to subject
    custom_display_name !! py "to"
  = Some (strip (join (py ", ") (default [] recipients))).
Proof.
  unfold generated_headers. rewrite !lookup_insert_ne by done.
  by rewrite lookup_insert_eq.
Qed.

Lemma generated_headers_cc :
  generated_headers selected recipients cc bcc reply_to subject
    custom_display_name !! py "cc"
  = Some (strip (join (py ", ") (default [] cc))).
Proof.
  unfold generated_headers. rewrite !lookup_insert_ne by done.
  by rewrite lookup_insert_eq.
Qed.

Lemma generated_headers_bcc :
  generated_headers selected recipients cc bcc reply_to subject
    custom_display_name !! py "bcc"
  = Some (strip (join (py ", ") (default [] bcc))).
Proof.
  unfold generated_headers. rewrite !lookup_insert_ne by done.
  by rewrite lookup_insert_eq.
Qed.

Lemma generated_headers_subject :
  generated_headers selected recipients cc bcc reply_to subject
    custom_display_name !! py "subject"
  = Some (strip (default [] subject)).
Proof. unfold generated_headers. by rewrite lookup_insert_eq. Qed.

Lemma parse_generated_from :
  parse_from
    (default [] ((fun sel => strip (from_value sel custom_display_name))
                 <$> selected))
  = Ok (match selected with
        | Some sel => some_text (strip (shown_name sel custom_display_name))
        | None => None
        end,
        match selected with
        | Some sel => strip (Identity.email sel)
        | None => []
        end).
Proof.
  case_eq (select_identity config identity_name); [intros sel Hsel|intros _].
  - destruct (selected_safe sel Hsel) as (_ & _ & Hs & _ & He & He' & _).
    cbn [fmap option_fmap option_map default from_option id].
    unfold from_value.
    destruct (shown_name sel custom_display_name) as [|c shown] eqn:Hshown.
    + rewrite parse_from_plain; [done|]. by intros H%elem_of_strip.
    + by rewrite parse_from_named.
  - apply parse_from_plain, not_elem_of_nil.
Qed.

Lemma parse_generated_addresses (l : option (list (list N))) :
  default [] l ⊆ default [] recipients ++ default [] cc ++ default [] bcc ->
  parse_address_list (strip (join (py ", ") (default [] l)))
  = stripped_entries (default [] l).
Proof.
  intros Hsub. destruct (addresses_single_line l Hsub) as (_ & _ & Hcomma).
  by rewrite parse_address_list_strip, parse_address_list_join.
Qed.

Lemma generated_reply_to_clean :
  strip_trailing_comment
    (default [] (generated_headers selected recipients cc bcc reply_to
                   subject custom_display_name !! py "reply-to"))
  = Ok (default [] (generated_headers selected recipients cc bcc reply_to
                      subject custom_display_name !! py "reply-to")).
Proof.
  apply strip_trailing_comment_clean. rewrite generated_headers_reply_to.
  case_eq (select_identity config identity_name);
    [intros sel Hsel|intros _; apply not_elem_of_nil].
  destruct (selected_safe sel Hsel) as (_ & _ & _ & _ & _ & _ & _ & _ & Hr).
  destruct (Identity.reply_to sel) as [|first others] eqn:Hallowed;
    [apply not_elem_of_nil|].
  rewrite <- Hallowed in *.
  destruct (decide _) as [Hin|Hout]; [|apply not_elem_of_nil].
  intros H%elem_of_strip. rewrite Forall_forall in Hr. by apply (Hr _ Hin).
Qed.

Lemma generated_reply_to_chosen :
  some_text
    (default [] (generated_headers selected recipients cc bcc reply_to
                   subject custom_display_name !! py "reply-to"))
  = match selected with
    | Some sel => chosen_reply_to sel reply_to
    | None => None
    end.
Proof.
  rewrite generated_headers_reply_to.
  case_eq (select_identity config identity_name); [intros sel Hsel|done].
  unfold chosen_reply_to.
  destruct (Identity.reply_to sel) as [|first others] eqn:Hallowed; [done|].
  rewrite <- Hallowed in *. by destruct (decide _).
Qed.

(** C6 (as the code has it).  Take fields that fit the template: every
    identity's name, address, display name and allowed reply-to addresses
    are single lines, and so is the custom display name; the selected
    identity occurs once among the identities (a single From), its shown
    name has no ['#'] and no ['<'], its address is not blank and has no
    ['#'], ['<'] or ['>'], its allowed reply-to addresses are distinct and
    have no ['#']; the recipients, cc and bcc are single lines without
    ['#'] and [','], and the subject is a single line without ['#'].
    Then parsing the generated template succeeds and gives the fields
    back up to white space: the address lists in their order, each entry
    stripped and blank entries dropped; the selected identity's address
    and shown name, stripped (no name when it is blank); the subject and
    the body, stripped.  The reply-to given back is the effective one
    (the requested one, or else the first allowed address) when it is
    among the allowed addresses, and none otherwise. *)
Theorem template_round_trip :
  parse_template
    (generate_template config recipients cc bcc identity_name reply_to subject
       body custom_display_name)
  = Ok {| ComposedEmail.to := stripped_entries (default [] recipients);
          ComposedEmail.cc := stripped_entries (default [] cc);
          ComposedEmail.bcc := stripped_entries (default [] bcc);
          ComposedEmail.from_addr :=
            match selected with
            | Some sel => strip (Identity.email sel)
            | None => []
            end;
          ComposedEmail.from_name :=
            match selected with
            | Some sel => some_text (strip (shown_name sel custom_display_name))
            | None => None
            end;
          ComposedEmail.reply_to :=
            match selected with
            | Some sel => chosen_reply_to sel reply_to
            | None => None
            end;
          ComposedEmail.subject := strip (default [] subject);
          ComposedEmail.body := strip (default [] body);
          ComposedEmail.cancelled := false |}.
Proof.
  unfold parse_template. rewrite generate_template_lines.
  rewrite (list_find_first _ header_lines).
  2:{ eapply Forall_impl; [apply header_lines_no_separator|].
      apply no_separator_strip. }
  2:{ done. }
  rewrite take_app_length.
  rewrite <- drop_drop, drop_app_length. cbn [drop].
  rewrite parse_generated_headers. cbn [mbind result_bind].
  rewrite generated_headers_from, parse_generated_from.
  cbn [mbind result_bind fst snd].
  rewrite generated_reply_to_clean. cbn [mbind result_bind].
  rewrite generated_headers_to, generated_headers_cc, generated_headers_bcc,
    generated_headers_subject.
  cbn [default from_option id].
  rewrite !parse_generated_addresses by set_solver.
  assert (strip (join NL ([] :: split NL (or_else body [])))
          = strip (default [] body)) as ->.
  { destruct (split_max_cons NL (length (or_else body [])) (or_else body []))
      as (x & l & Hx).
    pose proof (join_split_char 10 (or_else body [])) as Hjoin.
    unfold split, NL in *. rewrite Hx in *. rewrite join_cons by done.
    rewrite Hjoin, or_else_nil. change ([] ++ [10] ++ ?s) with ([10] ++ s).
    apply strip_blank_l. by repeat constructor. }
  by rewrite <- generated_reply_to_chosen.
Qed.

End RoundTrip.

(** *** The round trip on the configuration of the tests *)

(** A template for the default identity, two recipients and a body. *)
Lemma template_round_trip_witness :
  parse_template
    (generate_template Example.sample_config
       (Some [py "friend@example.org"; py " second@example.org "]) None None
       None (Some (py "alias@example.com")) (Some (py "Re: lunch"))
       (Some (py "See you at noon.")) None)
  = Ok {| ComposedEmail.to := [py "friend@example.org"; py "second@example.org"];
          ComposedEmail.cc := [];
          ComposedEmail.bcc := [];
          ComposedEmail.from_addr := py "user@example.com";
          ComposedEmail.from_name := Some (py "Test User");
          ComposedEmail.reply_to := Some (py "alias@example.com");
          ComposedEmail.subject := py "Re: lunch";
          ComposedEmail.body := py "See you at noon.";
          ComposedEmail.cancelled := false |}.
Proof.
  etrans; [apply template_round_trip|vm_compute; reflexivity].
  - each_line ltac:(split_and!; try each_line ltac:(by no_char); by no_char).
  - by no_char.
  - intros sel Hsel. vm_compute in Hsel. injection Hsel as <-.
    split_and!; try (by no_char); try each_line ltac:(by no_char).
    cbn [Identity.reply_to]. apply NoDup_cons. split; [|apply NoDup_singleton].
    intros H%list_elem_of_singleton. discriminate.
  - each_line ltac:(split; [split|]; by no_char).
  - split; by no_char.
Defined.

(** A requested reply-to address that is not among the allowed ones is
    not given back: the parsed template has no reply-to at all.  The
    fields have no colon and no comment marker in them, and one From line
    is uncommented. *)
Lemma requested_reply_to_is_lost :
  (exists composed,
     parse_template Example.template_other_reply_to = Ok composed
     /\ ComposedEmail.reply_to composed = None
     /\ ComposedEmail.reply_to composed <> Some (py "other@example.org")
     /\ ComposedEmail.from_addr composed = py "user@example.com"
     /\ ComposedEmail.to composed = [py "friend@example.org"])
  /\ no_char 58 (py "other@example.org") = true
  /\ no_char 35 (py "other@example.org") = true
  /\ length
       (filter (fun line => startswith line (py "From:") = true)
          (split NL Example.template_other_reply_to)) = 1%nat.
Proof.
  split; [|by vm_compute].
  eexists. split; [vm_compute; reflexivity|]. by vm_compute.
Qed.

(** ** The registry: loading a configuration *)

Lemma mapM_result_Ok {A B} (f : A -> result B) (l : list A) (k : list B) :
  mapM f l = Ok k <-> Forall2 (fun x y => f x = Ok y) l k.
Proof.
  revert k. induction l as [|x l IH]; intros k; simpl.
  - split; [intros [= <-]; constructor|by inversion 1].
  - unfold mbind, result_bind, mret, result_ret.
    destruct (f x) as [y|e] eqn:Hx.
    + destruct (mapM f l) as [k'|e] eqn:Hl.
      * split.
        -- intros [= <-]. constructor; [done|]. by apply IH.
        -- inversion 1 as [|? y' ? k'' Hy Hk]; subst.
           apply IH in Hk. congruence.
      * split; [done|]. inversion 1 as [|? y' ? k'' Hy Hk]; subst.
        apply IH in Hk. congruence.
    + split; [done|]. inversion 1; congruence.
Qed.

Lemma find_first_match {A} (P : A -> bool) (l : list A) :
  match List.find P l with
  | Some x =>
    exists before after,
      l = before ++ x :: after /\ P x = true
      /\ Forall (fun y => P y = false) before
  | None => Forall (fun y => P y = false) l
  end.
Proof.
  induction l as [|y l IH]; simpl; [done|].
  destruct (P y) eqn:Hy.
  - by exists [], l.
  - destruct (List.find P l) as [x|].
    + destruct IH as (before & after & -> & Hx & Hb).
      exists (y :: before), after. split_and!; [done..|by constructor].
    + by constructor.
Qed.

Lemma truthy_Some (o : option (list N)) :
  truthy o = true <-> exists c s, o = Some (c :: s).
Proof.
  destruct o as [[|c s]|]; simpl; split; try done; try by intros (? & ? & ?).
  by exists c, s.
Qed.

Lemma _parse_smtp_server_Ok (data : smtp_table) (server : SmtpServer.t) :
  _parse_smtp_server data = Ok server ->
  smtp_table_valid data
  /\ SmtpServer.name server = default [] (st_name data)
  /\ SmtpServer.host server = default [] (st_host data)
  /\ SmtpServer.password_encoding server
     = default (py "plain") (st_password_encoding data).
Proof.
  unfold _parse_smtp_server, smtp_table_valid.
  destruct (st_name data) as [[|c n]|]; try done.
  destruct (st_host data) as [[|h hs]|]; try done.
  destruct (bool_decide (lower _ = py "plain")) eqn:Hplain;
    [|destruct (bool_decide (lower _ = py "base64")) eqn:Hb64]; try done.
  - apply bool_decide_eq_true in Hplain. intros [= <-]. split_and!; auto.
  - apply bool_decide_eq_true in Hb64. intros [= <-]. split_and!; auto.
Qed.

Lemma _parse_smtp_server_valid (data : smtp_table) :
  smtp_table_valid data -> exists server, _parse_smtp_server data = Ok server.
Proof.
  unfold _parse_smtp_server, smtp_table_valid.
  intros ((c & n & ->)%truthy_Some & (h & hs & ->)%truthy_Some & Henc).
  destruct Henc as [Henc|Henc]; rewrite Henc.
  - rewrite bool_decide_eq_true_2 by done. by eexists.
  - rewrite (bool_decide_eq_true_2 (py "base64" = py "base64")) by done.
    rewrite orb_true_r. by eexists.
Qed.

Lemma _parse_identity_Ok (data : identity_table) (servers : list SmtpServer.t)
    (identity : Identity.t) :
  _parse_identity data servers = Ok identity ->
  truthy (it_name data) = true /\ truthy (it_email data) = true
  /\ truthy (it_smtp_server data) = true
  /\ lower (default [] (it_smtp_server data))
     ∈ (fun s => lower (SmtpServer.name s)) <$> servers
  /\ identity
     = Identity.make (default [] (it_name data)) (default [] (it_email data))
         (default [] (it_display_name data))
         (default [] (it_smtp_server data)) (default [] (it_reply_to data)).
Proof.
  unfold _parse_identity.
  destruct (it_name data) as [[|c n]|]; try done.
  destruct (it_email data) as [[|e es]|]; try done.
  destruct (it_smtp_server data) as [[|x xs]|]; try done.
  case_bool_decide as Hin; [|done]. intros [= <-]. by split_and!.
Qed.

Lemma _parse_identity_valid (data : identity_table) (servers : list SmtpServer.t) :
  truthy (it_name data) = true -> truthy (it_email data) = true ->
  truthy (it_smtp_server data) = true ->
  lower (default [] (it_smtp_server data))
    ∈ (fun s => lower (SmtpServer.name s)) <$> servers ->
  exists identity, _parse_identity data servers = Ok identity.
Proof.
  unfold _parse_identity.
  intros (c & n & ->)%truthy_Some (e & es & ->)%truthy_Some
    (x & xs & ->)%truthy_Some Hin.
  rewrite bool_decide_eq_true_2 by done. by eexists.
Qed.

Lemma make_reply_to name email display_name smtp_server reply_to :
  Identity.reply_to (Identity.make name email display_name smtp_server reply_to)
  = match reply_to with [] => [email] | _ => reply_to end.
Proof. done. Qed.

(** The names of the servers the loader builds are those of the tables. *)
Lemma parsed_server_names (tables : list smtp_table) (servers : list SmtpServer.t) :
  Forall2 (fun t s => _parse_smtp_server t = Ok s) tables servers ->
  (fun s => lower (SmtpServer.name s)) <$> servers
  = (fun t => lower (default [] (st_name t))) <$> tables.
Proof.
  induction 1 as [|t s tables servers Hts _ IH]; [done|].
  apply _parse_smtp_server_Ok in Hts as (_ & Hname & _).
  by rewrite !fmap_cons, IH, Hname.
Qed.

Lemma parsed_identity_names (tables : list identity_table)
    (servers : list SmtpServer.t) (identities : list Identity.t) :
  Forall2 (fun t i => _parse_identity t servers = Ok i) tables identities ->
  (fun i => lower (Identity.name i)) <$> identities
  = (fun t => lower (default [] (it_name t))) <$> tables.
Proof.
  induction 1 as [|t i tables identities Hti _ IH]; [done|].
  apply _parse_identity_Ok in Hti as (_ & _ & _ & _ & ->).
  by rewrite !fmap_cons, IH.
Qed.

(** A lookup by name finds something exactly when the name, in lower
    case, is among the names in lower case. *)
Lemma find_lower_is_Some {A} (key : A -> list N) (l : list A) (n : list N) :
  is_Some (List.find (fun x => bool_decide (lower (key x) = lower n)) l)
  <-> lower n ∈ (fun x => lower (key x)) <$> l.
Proof.
  induction l as [|x l IH]; simpl.
  - split; [by intros [? ?]|by intros ?%elem_of_nil].
  - case_bool_decide as Hx.
    + split; [|by eexists]. intros _. rewrite Hx. left.
    + rewrite IH. rewrite elem_of_cons. naive_solver.
Qed.

(** What [load_config] went through when it returns a configuration. *)
Lemma load_config_Ok_inv (path : list N) (file : config_file) (config : Config.t) :
  load_config path file = Ok config ->
  exists data,
    file = FileParsed data
    /\ default [] (td_smtp_servers data) <> []
    /\ default [] (td_identities data) <> []
    /\ Forall2 (fun t s => _parse_smtp_server t = Ok s)
         (default [] (td_smtp_servers data)) (Config.smtp_servers config)
    /\ Forall2 (fun t i => _parse_identity t (Config.smtp_servers config) = Ok i)
         (default [] (td_identities data)) (Config.identities config)
    /\ Config.defaults config
       = _parse_defaults (default empty_defaults_table (td_defaults data))
    /\ (forall n,
          Defaults.default_identity (Config.defaults config) = Some n ->
          n <> [] ->
          lower n ∈ (fun i => lower (Identity.name i)) <$> Config.identities config).
Proof.
  destruct file as [| |data]; try done. unfold load_config. cbv zeta.
  intros Hload. exists data.
  destruct (default [] (td_smtp_servers data)) as [|t tables] eqn:Htables;
    [done|].
  destruct (mapM _parse_smtp_server (t :: tables)) as [servers|] eqn:Hservers;
    [|done].
  cbn [mbind result_bind] in Hload.
  destruct (default [] (td_identities data)) as [|it its] eqn:Hits; [done|].
  destruct (mapM (fun i => _parse_identity i servers) (it :: its))
    as [identities|] eqn:Hids; [|done].
  cbn [mbind result_bind] in Hload.
  apply mapM_result_Ok in Hservers, Hids.
  destruct (Defaults.default_identity _) as [[|c n]|] eqn:Hdefault.
  - injection Hload as <-. split_and!; try done.
    cbn [Config.defaults]. intros n. rewrite Hdefault. by intros [= <-].
  - case_bool_decide as Hin; [|done]. injection Hload as <-.
    split_and!; try done.
    cbn [Config.defaults Config.identities]. intros n'. rewrite Hdefault.
    by intros [= <-].
  - injection Hload as <-. split_and!; try done.
    cbn [Config.defaults]. intros n. by rewrite Hdefault.
Qed.

(** X1.  A configuration that [load_config] returns is well formed: it
    has a server and an identity, every server has a name, a host and a
    password encoding that is plain or base64, every identity has a name,
    an address, at least one reply-to address and a server that
    [get_smtp_for_identity] finds, and there is a default identity, which
    is the one named in the defaults when one is named. *)
Theorem load_config_well_formed (path : list N) (file : config_file)
    (config : Config.t) :
  load_config path file = Ok config ->
  Config.smtp_servers config <> [] /\ Config.identities config <> []
  /\ Forall (fun s =>
               SmtpServer.name s <> [] /\ SmtpServer.host s <> []
               /\ (lower (SmtpServer.password_encoding s) = py "plain"
                   \/ lower (SmtpServer.password_encoding s) = py "base64"))
       (Config.smtp_servers config)
  /\ Forall (fun i =>
               Identity.name i <> [] /\ Identity.email i <> []
               /\ Identity.reply_to i <> []
               /\ is_Some (Config.get_smtp_for_identity config i))
       (Config.identities config)
  /\ is_Some (Config.get_default_identity config)
  /\ (forall n,
        Defaults.default_identity (Config.defaults config) = Some n ->
        n <> [] ->
        exists i,
          Config.get_identity config n = Some i
          /\ Config.get_default_identity config = Some i
          /\ lower (Identity.name i) = lower n).
Proof.
  intros (data & -> & Htables & Hits & Hservers & Hids & Hdefaults & Hdefault)
    %load_config_Ok_inv.
  assert (forall n, n <> [] ->
            Defaults.default_identity (Config.defaults config) = Some n ->
            exists i, Config.get_identity config n = Some i
                      /\ Config.get_default_identity config = Some i
                      /\ lower (Identity.name i) = lower n) as Hnamed.
  { intros n Hn Hsome. pose proof (Hdefault n Hsome Hn) as Hin.
    apply (find_lower_is_Some Identity.name) in Hin as [i Hi].
    exists i. unfold Config.get_default_identity, Config.get_identity.
    rewrite Hsome. destruct n as [|c n]; [done|]. rewrite Hi.
    split_and!; [done..|].
    apply find_some in Hi as [_ Hi]. by apply bool_decide_eq_true in Hi. }
  split_and!.
  - intros Hnil. rewrite Hnil in Hservers. by inversion Hservers.
  - intros Hnil. rewrite Hnil in Hids. by inversion Hids.
  - apply Forall_forall. intros s Hs.
    apply list_elem_of_lookup in Hs as [k Hk].
    destruct (Forall2_lookup_r _ _ _ _ _ Hservers Hk) as (t & _ & Ht).
    apply _parse_smtp_server_Ok in Ht
      as (((c & n & Hn)%truthy_Some & (h & hs & Hh)%truthy_Some & Henc)
          & -> & -> & ->).
    rewrite Hn, Hh. by split_and!.
  - apply Forall_forall. intros i Hi.
    apply list_elem_of_lookup in Hi as [k Hk].
    destruct (Forall2_lookup_r _ _ _ _ _ Hids Hk) as (t & _ & Ht).
    apply _parse_identity_Ok in Ht
      as ((c & n & Hn)%truthy_Some & (e & es & He)%truthy_Some
          & (x & xs & Hx)%truthy_Some & Hin & ->).
    rewrite Hn, He. cbn [default from_option id Identity.name Identity.email
                          Identity.make].
    split_and!; [done..| |].
    + rewrite make_reply_to. by destruct (default [] (it_reply_to t)).
    + unfold Config.get_smtp_for_identity, Config.get_smtp_server.
      by apply (find_lower_is_Some SmtpServer.name).
  - destruct (Defaults.default_identity (Config.defaults config))
      as [[|c n]|] eqn:Hd.
    + unfold Config.get_default_identity. rewrite Hd.
      destruct (Config.identities config); [by inversion Hids|by eexists].
    + destruct (Hnamed (c :: n)) as (i & _ & -> & _); [done..|by eexists].
    + unfold Config.get_default_identity. rewrite Hd.
      destruct (Config.identities config); [by inversion Hids|by eexists].
  - intros n Hsome Hn. by apply Hnamed.
Qed.

Lemma load_config_well_formed_witness :
  exists config,
    load_config (py "/home/user/.tmail.conf") Sample.valid_file = Ok config
    /\ Forall (fun i => is_Some (Config.get_smtp_for_identity config i))
         (Config.identities config)
    /\ is_Some (Config.get_default_identity config).
Proof.
  eexists. split; [vm_compute; reflexivity|].
  edestruct (load_config_well_formed (py "/home/user/.tmail.conf")
               Sample.valid_file) as (_ & _ & _ & Hids & Hdefault & _);
    [vm_compute; reflexivity|].
  split; [|exact Hdefault].
  eapply Forall_impl; [exact Hids|]. by intros i (_ & _ & _ & ?).
Defined.

Lemma mapM_result_total {A B} (f : A -> result B) (l : list A) :
  Forall (fun x => exists y, f x = Ok y) l -> exists k, mapM f l = Ok k.
Proof.
  induction 1 as [|x l [y Hy] _ [k Hk]]; [by exists []|].
  exists (y :: k). apply mapM_result_Ok. constructor; [done|].
  by apply mapM_result_Ok.
Qed.

(** X2.  [load_config] accepts a parsed file exactly when it has a server
    table and an identity table, every server table has a name, a host
    and a plain or base64 encoding, every identity table has a name, an
    address and the name of one of the server tables (letter case
    ignored), and the default identity, when named, is the name of an
    identity table (letter case ignored). *)
Theorem load_config_succeeds_iff (path : list N) (data : toml_document) :
  (exists config, load_config path (FileParsed data) = Ok config)
  <-> default [] (td_smtp_servers data) <> []
      /\ Forall smtp_table_valid (default [] (td_smtp_servers data))
      /\ default [] (td_identities data) <> []
      /\ Forall (identity_table_valid (default [] (td_smtp_servers data)))
           (default [] (td_identities data))
      /\ (forall n,
            dt_default_identity (default empty_defaults_table (td_defaults data))
            = Some n ->
            n <> [] ->
            lower n ∈ (fun t => lower (default [] (it_name t)))
                      <$> default [] (td_identities data)).
Proof.
  split.
  - intros (config & (data' & [= <-] & Htables & Hits & Hservers & Hids
                      & Hdefaults & Hdefault)%load_config_Ok_inv).
    split_and!; [done| |done| |].
    + apply Forall_forall. intros t Ht.
      apply list_elem_of_lookup in Ht as [k Hk].
      destruct (Forall2_lookup_l _ _ _ _ _ Hservers Hk) as (s & _ & Hs).
      by apply _parse_smtp_server_Ok in Hs as (? & _).
    + apply Forall_forall. intros t Ht.
      apply list_elem_of_lookup in Ht as [k Hk].
      destruct (Forall2_lookup_l _ _ _ _ _ Hids Hk) as (i & _ & Hi).
      apply _parse_identity_Ok in Hi as (? & ? & ? & Hin & _).
      rewrite (parsed_server_names _ _ Hservers) in Hin. by split_and!.
    + intros n Hn Hne. rewrite <- (parsed_identity_names _ _ _ Hids).
      apply Hdefault; [|done]. by rewrite Hdefaults.
  - intros (Htables & Hvalid & Hits & Hidvalid & Hdefault).
    destruct (mapM_result_total _parse_smtp_server
                (default [] (td_smtp_servers data))) as [servers Hservers].
    { eapply Forall_impl; [exact Hvalid|]. apply _parse_smtp_server_valid. }
    pose proof (proj1 (mapM_result_Ok _ _ _) Hservers) as Hservers2.
    destruct (mapM_result_total (fun i => _parse_identity i servers)
                (default [] (td_identities data))) as [identities Hids].
    { eapply Forall_impl; [exact Hidvalid|]. intros t (? & ? & ? & Hin).
      apply _parse_identity_valid; try done.
      by rewrite (parsed_server_names _ _ Hservers2). }
    pose proof (proj1 (mapM_result_Ok _ _ _) Hids) as Hids2.
    unfold load_config. cbv zeta.
    destruct (default [] (td_smtp_servers data)) as [|t tables]; [done|].
    rewrite Hservers. cbn [mbind result_bind].
    destruct (default [] (td_identities data)) as [|it its]; [done|].
    rewrite Hids. cbn [mbind result_bind].
    change (Defaults.default_identity (_parse_defaults ?d))
      with (dt_default_identity d).
    destruct (dt_default_identity _) as [[|c n]|] eqn:Hd; try by eexists.
    rewrite bool_decide_eq_true_2; [by eexists|].
    rewrite (parsed_identity_names _ _ _ Hids2). by apply Hdefault.
Qed.

(** ** The registry: lookups *)

(** X3.  [get_identity], [get_identity_by_email] and [get_smtp_server]
    return the first entry whose name (or address) is the key when letter
    case is ignored, and nothing only when no entry matches; keys that
    differ in letter case only find the same entry. *)
Theorem config_lookups_first_match (config : Config.t) (key : list N) :
  match Config.get_identity config key with
  | Some i =>
    exists before after,
      Config.identities config = before ++ i :: after
      /\ lower (Identity.name i) = lower key
      /\ Forall (fun j => lower (Identity.name j) <> lower key) before
  | None =>
    Forall (fun j => lower (Identity.name j) <> lower key)
      (Config.identities config)
  end
  /\ match Config.get_identity_by_email config key with
     | Some i =>
       exists before after,
         Config.identities config = before ++ i :: after
         /\ lower (Identity.email i) = lower key
         /\ Forall (fun j => lower (Identity.email j) <> lower key) before
     | None =>
       Forall (fun j => lower (Identity.email j) <> lower key)
         (Config.identities config)
     end
  /\ match Config.get_smtp_server config key with
     | Some s =>
       exists before after,
         Config.smtp_servers config = before ++ s :: after
         /\ lower (SmtpServer.name s) = lower key
         /\ Forall (fun t => lower (SmtpServer.name t) <> lower key) before
     | None =>
       Forall (fun t => lower (SmtpServer.name t) <> lower key)
         (Config.smtp_servers config)
     end
  /\ (forall key',
        lower key' = lower key ->
        Config.get_identity config key' = Config.get_identity config key
        /\ Config.get_identity_by_email config key'
           = Config.get_identity_by_email config key
        /\ Config.get_smtp_server config key'
           = Config.get_smtp_server config key).
Proof.
  assert (forall {A} (name : A -> list N) (l : list A),
            match List.find (fun x => bool_decide (lower (name x) = lower key)) l with
            | Some x =>
              exists before after,
                l = before ++ x :: after /\ lower (name x) = lower key
                /\ Forall (fun y => lower (name y) <> lower key) before
            | None => Forall (fun y => lower (name y) <> lower key) l
            end) as Hfind.
  { intros A name l.
    pose proof (find_first_match
                  (fun x => bool_decide (lower (name x) = lower key)) l) as H.
    destruct (List.find _ l) as [x|].
    - destruct H as (before & after & -> & Hx & Hb).
      exists before, after. split_and!; [done|by apply bool_decide_eq_true in Hx|].
      eapply Forall_impl; [exact Hb|]. intros y Hy.
      by apply bool_decide_eq_false in Hy.
    - eapply Forall_impl; [exact H|]. intros y Hy.
      by apply bool_decide_eq_false in Hy. }
  split_and!.
  - apply (Hfind _ Identity.name).
  - apply (Hfind _ Identity.email).
  - apply (Hfind _ SmtpServer.name).
  - intros key' Hkey.
    unfold Config.get_identity, Config.get_identity_by_email,
      Config.get_smtp_server.
    by rewrite Hkey.
Qed.

(** X4.  [get_default_identity] finds nothing only in a configuration
    without identities; what it finds is an identity of the
    configuration: the one the defaults name when [get_identity] finds
    it, and the first identity when no default is named or the name is
    not found. *)
Theorem get_default_identity_spec (config : Config.t) :
  (Config.get_default_identity config = None <-> Config.identities config = [])
  /\ (forall i,
        Config.get_default_identity config = Some i ->
        i ∈ Config.identities config)
  /\ (forall n i,
        Defaults.default_identity (Config.defaults config) = Some n ->
        n <> [] -> Config.get_identity config n = Some i ->
        Config.get_default_identity config = Some i)
  /\ (truthy (Defaults.default_identity (Config.defaults config)) = false
      \/ (exists n,
            Defaults.default_identity (Config.defaults config) = Some n
            /\ Config.get_identity config n = None) ->
      Config.get_default_identity config = head (Config.identities config)).
Proof.
  assert (forall n i, Config.get_identity config n = Some i ->
                      i ∈ Config.identities config) as Hmember.
  { intros n i Hi. apply find_some in Hi as [Hi _]. by apply list_elem_of_In. }
  assert (forall n, Config.identities config = [] ->
                    Config.get_identity config n = None) as Hnone.
  { intros n Hnil. unfold Config.get_identity. by rewrite Hnil. }
  unfold Config.get_default_identity.
  destruct (Defaults.default_identity (Config.defaults config))
    as [[|c n]|] eqn:Hd.
  - split_and!; try done.
    + by destruct (Config.identities config).
    + intros i Hi. destruct (Config.identities config); [done|].
      injection Hi as <-. left.
    + by intros n i [= <-] Hne.
  - split_and!.
    + destruct (Config.get_identity config (c :: n)) as [i|] eqn:Hi.
      * split; [done|]. intros Hnil. by rewrite (Hnone _ Hnil) in Hi.
      * by destruct (Config.identities config).
    + intros i. destruct (Config.get_identity config (c :: n)) as [j|] eqn:Hj.
      * intros [= <-]. by eapply Hmember.
      * destruct (Config.identities config); [done|]. intros [= <-]. left.
    + intros n' i [= <-] _ Hi. by rewrite Hi.
    + intros [Hfalse|(n' & [= <-] & Hn)]; [done|]. by rewrite Hn.
  - split_and!; try done.
    + by destruct (Config.identities config).
    + intros i Hi. destruct (Config.identities config); [done|].
      injection Hi as <-. left.
Qed.

(** ** The registry: the permission check *)

Lemma land_mask_split (mode a b : Z) :
  (Z.land mode (Z.lor a b) = 0 <-> Z.land mode a = 0 /\ Z.land mode b = 0)%Z.
Proof. by rewrite Z.land_lor_distr_r, Z.lor_eq_0_iff. Qed.

(** X5.  The permission check issues no warning when [os.stat] fails or
    when neither the group nor others can read or write the file (mode
    and 0o066 is zero), the warning about others when others can read or
    write it, and the warning about the group otherwise. *)
Theorem _check_config_permissions_spec (os_stat : Path -> os_result Z)
    (config_path : Path) :
  (forall err,
     os_stat config_path = Failed err ->
     _check_config_permissions os_stat config_path = [])
  /\ (forall mode,
        os_stat config_path = Done mode ->
        (_check_config_permissions os_stat config_path = []
         <-> Z.land mode 54 = 0%Z)
        /\ (Z.land mode 6 <> 0%Z ->
            _check_config_permissions os_stat config_path
            = [others_warning config_path])
        /\ (Z.land mode 6 = 0%Z -> Z.land mode 48 <> 0%Z ->
            _check_config_permissions os_stat config_path
            = [group_warning config_path])).
Proof.
  unfold _check_config_permissions. split; [by intros err ->|].
  intros mode ->. cbv zeta.
  change 54%Z with (Z.lor (Z.lor S_IROTH S_IWOTH) (Z.lor S_IRGRP S_IWGRP)).
  change 6%Z with (Z.lor S_IROTH S_IWOTH).
  change 48%Z with (Z.lor S_IRGRP S_IWGRP).
  rewrite !land_mask_split.
  destruct (Z.eqb_spec (Z.land mode S_IROTH) 0),
    (Z.eqb_spec (Z.land mode S_IWOTH) 0),
    (Z.eqb_spec (Z.land mode S_IRGRP) 0),
    (Z.eqb_spec (Z.land mode S_IWGRP) 0); cbn [negb orb];
    split_and!; try done; try tauto.
  all: try (split; [done|tauto]).
Qed.

(** A regular file only its owner can read and write (mode 0100600)
    gives no warning; one that everybody can read (mode 0100644) gives
    the warning about others. *)
Lemma _check_config_permissions_spec_witness :
  _check_config_permissions (fun _ => Done 33152%Z) (py "/home/user/.tmail.conf")
  = []
  /\ _check_config_permissions (fun _ => Done 33188%Z) (py "/home/user/.tmail.conf")
     = [others_warning (py "/home/user/.tmail.conf")].
Proof.
  split.
  - destruct (_check_config_permissions_spec (fun _ => Done 33152%Z)
                (py "/home/user/.tmail.conf")) as [_ Hmode].
    destruct (Hmode 33152%Z) as (Hnone & _); [reflexivity|].
    apply Hnone. reflexivity.
  - destruct (_check_config_permissions_spec (fun _ => Done 33188%Z)
                (py "/home/user/.tmail.conf")) as [_ Hmode].
    destruct (Hmode 33188%Z) as (_ & Hothers & _); [reflexivity|].
    apply Hothers. vm_compute. discriminate.
Defined.

(** ** The template parser: what it returns *)

Lemma split_char_no_sep (c : N) (s : list N) :
  Forall (fun part => c ∉ part) (split [c] s).
Proof.
  induction s as [s Hs|pre post Hpre IH] using (split_char_ind c).
  - rewrite split_char_absent by done. by constructor.
  - rewrite split_char_cut by done. by constructor.
Qed.

(** An address list the parser returns has no empty entry, no entry with
    white space around it and no entry with a comma. *)
Lemma parse_address_list_clean (s : list N) :
  Forall (fun a => a <> [] /\ strip a = a /\ 44 ∉ a) (parse_address_list s).
Proof.
  unfold parse_address_list. apply Forall_fmap, Forall_forall.
  intros a [Ha Hin]%list_elem_of_filter. cbn. split_and!; [done|apply strip_idem|].
  intros Hcomma%elem_of_strip.
  pose proof (split_char_no_sep 44 s) as Hsep.
  by apply (proj1 (Forall_forall _ _) Hsep a).
Qed.

(** What [parse_template] went through when it returns. *)
Lemma parse_template_Ok_inv (content : list N) (c : ComposedEmail.t) :
  parse_template content = Ok c ->
  exists i line headers from reply_to_raw,
    list_find (fun line => strip line = TEMPLATE_SEPARATOR) (split NL content)
    = Some (i, line)
    /\ parse_header_lines ∅ (take i (split NL content)) = Ok headers
    /\ parse_from (default [] (headers !! py "from")) = Ok from
    /\ strip_trailing_comment (default [] (headers !! py "reply-to"))
       = Ok reply_to_raw
    /\ c = {| ComposedEmail.to :=
                parse_address_list (default [] (headers !! py "to"));
              ComposedEmail.cc :=
                parse_address_list (default [] (headers !! py "cc"));
              ComposedEmail.bcc :=
                parse_address_list (default [] (headers !! py "bcc"));
              ComposedEmail.from_addr := from.2;
              ComposedEmail.from_name := from.1;
              ComposedEmail.reply_to := some_text reply_to_raw;
              ComposedEmail.subject := default [] (headers !! py "subject");
              ComposedEmail.body :=
                strip (join NL (drop (i + 1) (split NL content)));
              ComposedEmail.cancelled := false |}.
Proof.
  unfold parse_template. cbv zeta.
  destruct (list_find _ (split NL content)) as [[i line]|]; [|done].
  destruct (parse_header_lines ∅ _) as [headers|] eqn:Hh; [|done].
  cbn [mbind result_bind].
  destruct (parse_from _) as [from|] eqn:Hf; [|done].
  cbn [mbind result_bind].
  destruct (strip_trailing_comment _) as [r|] eqn:Hr; [|done].
  cbn [mbind result_bind]. intros [= <-].
  exists i, line, headers, from, r. by split_and!.
Qed.

Lemma parse_from_name (from_raw : list N) (name : option (list N)) (addr : list N) :
  parse_from from_raw = Ok (name, addr) ->
  forall n, name = Some n -> n <> [] /\ strip n = n.
Proof.
  unfold parse_from.
  destruct (contains (py "<") from_raw && contains (py ">") from_raw);
    [|by intros [= <- _]].
  destruct (index _ 0) as [p0|]; [|done]. cbn [mbind result_bind].
  destruct (index _ 1) as [p1|]; [|done]. cbn [mbind result_bind].
  destruct (index _ 0) as [a|]; [|done]. cbn [mbind result_bind].
  intros [= <- _] n. destruct (strip p0) as [|x xs] eqn:Hp0; [done|].
  intros [= <-]. split; [done|]. rewrite <- Hp0. apply strip_idem.
Qed.

(** X6.  Whatever the text, the fields [parse_template] returns are
    normalised: no address of To, Cc and Bcc is empty, has white space
    around it or contains a comma; a display name, when there is one, is
    not empty and has no white space around it; the reply-to, when there
    is one, is not empty; the body has no white space around it. *)
Theorem parse_template_normalised (content : list N) (c : ComposedEmail.t) :
  parse_template content = Ok c ->
  Forall (fun a => a <> [] /\ strip a = a /\ 44 ∉ a)
    (ComposedEmail.to c ++ ComposedEmail.cc c ++ ComposedEmail.bcc c)
  /\ (forall n, ComposedEmail.from_name c = Some n -> n <> [] /\ strip n = n)
  /\ ComposedEmail.reply_to c <> Some []
  /\ strip (ComposedEmail.body c) = ComposedEmail.body c.
Proof.
  intros (i & line & headers & [name addr] & r & _ & _ & Hfrom & _ & ->)
    %parse_template_Ok_inv.
  cbn [ComposedEmail.to ComposedEmail.cc ComposedEmail.bcc
       ComposedEmail.from_name ComposedEmail.reply_to ComposedEmail.body
       fst snd].
  split_and!.
  - rewrite !Forall_app. split_and!; apply parse_address_list_clean.
  - by apply (parse_from_name _ _ _ Hfrom).
  - by destruct r.
  - apply strip_idem.
Qed.

Lemma parse_template_normalised_witness :
  let c :=
    {| ComposedEmail.to := [py "a@example.com"; py "b@example.com"];
       ComposedEmail.cc := []; ComposedEmail.bcc := [];
       ComposedEmail.from_addr := py "sender@example.com";
       ComposedEmail.from_name := None; ComposedEmail.reply_to := None;
       ComposedEmail.subject := []; ComposedEmail.body := py "Hello";
       ComposedEmail.cancelled := false |} in
  parse_template
    (py "To:  a@example.com ,, b@example.com" ++ [10]
     ++ py "From:   <sender@example.com>" ++ [10]
     ++ py "---" ++ [10] ++ [10] ++ py " Hello " ++ [10]) = Ok c
  /\ Forall (fun a => a <> [] /\ strip a = a /\ 44 ∉ a)
       (ComposedEmail.to c ++ ComposedEmail.cc c ++ ComposedEmail.bcc c).
Proof.
  intros c.
  assert (parse_template
            (py "To:  a@example.com ,, b@example.com" ++ [10]
             ++ py "From:   <sender@example.com>" ++ [10]
             ++ py "---" ++ [10] ++ [10] ++ py " Hello " ++ [10]) = Ok c)
    as Hparse by (vm_compute; reflexivity).
  split; [exact Hparse|].
  exact (proj1 (parse_template_normalised _ c Hparse)).
Defined.

(** ** The template: the From menu *)

Lemma get_identity_member (config : Config.t) (n : list N) (i : Identity.t) :
  Config.get_identity config n = Some i -> i ∈ Config.identities config.
Proof. intros Hi. apply find_some in Hi as [Hi _]. by apply list_elem_of_In. Qed.

Lemma get_default_identity_member (config : Config.t) (i : Identity.t) :
  Config.get_default_identity config = Some i -> i ∈ Config.identities config.
Proof.
  unfold Config.get_default_identity.
  destruct (Defaults.default_identity _) as [[|c n]|];
    try destruct (Config.get_identity config (c :: n)) as [j|] eqn:Hj.
  all: try (intros [= <-]; by eapply get_identity_member).
  all: destruct (Config.identities config); [done|]; intros [= <-]; left.
Qed.

Lemma get_default_identity_is_Some (config : Config.t) :
  Config.identities config <> [] ->
  is_Some (Config.get_default_identity config).
Proof.
  intros Hne. unfold Config.get_default_identity.
  destruct (Defaults.default_identity _) as [[|c n]|];
    try destruct (Config.get_identity config (c :: n)); try by eexists.
  all: destruct (Config.identities config); [done|by eexists].
Qed.

(** X7.  The From menu of a template.  Without identities nothing is
    selected.  With identities, one of them is: the one
    [get_identity] finds for the requested name, else the default
    identity.  The menu line of an identity equal to the selected one is
    its uncommented From line, with the custom display name when one is
    given; the line of any other identity is commented out and shows the
    identity's own display name. *)
Theorem from_menu_selection (config : Config.t)
    (identity_name custom_display_name : option (list N)) :
  (Config.identities config = [] ->
   select_identity config identity_name = None)
  /\ (Config.identities config <> [] ->
      exists sel,
        select_identity config identity_name = Some sel
        /\ sel ∈ Config.identities config)
  /\ (forall n i,
        identity_name = Some n -> n <> [] ->
        Config.get_identity config n = Some i ->
        select_identity config identity_name = Some i)
  /\ (truthy identity_name = false
      \/ (exists n, identity_name = Some n
                    /\ Config.get_identity config n = None) ->
      Config.identities config <> [] ->
      select_identity config identity_name
      = Config.get_default_identity config)
  /\ (forall i,
        from_line (select_identity config identity_name)
          custom_display_name i
        = if decide (Some i = select_identity config identity_name)
          then py "From: " ++ from_value i custom_display_name
               ++ py "  # [" ++ Identity.name i ++ py "]"
          else py "#From: " ++ from_value i None
               ++ py "  # [" ++ Identity.name i ++ py "]").
Proof.
  split_and!.
  - intros Hnil. unfold select_identity, Config.get_identity. rewrite Hnil.
    by destruct identity_name as [[|c n]|].
  - intros Hne. unfold select_identity.
    destruct (get_default_identity_is_Some config Hne) as [d Hd].
    destruct identity_name as [[|c n]|];
      try destruct (Config.get_identity config (c :: n)) as [j|] eqn:Hj.
    all: try (destruct (Config.identities config) eqn:Hids; [done|];
              exists d; split; [done|]; rewrite <- Hids;
              by apply get_default_identity_member).
    exists j. split; [by destruct (Config.identities config)|].
    by eapply get_identity_member.
  - intros n i -> Hn Hi. unfold select_identity.
    destruct n as [|c n]; [done|]. rewrite Hi.
    by destruct (Config.identities config).
  - intros Hwhy Hne. unfold select_identity.
    destruct identity_name as [[|c n]|];
      try (by destruct (Config.identities config)).
    destruct Hwhy as [Hwhy|(n' & [= <-] & Hnone)]; [done|].
    rewrite Hnone. by destruct (Config.identities config).
  - intros i. unfold from_line, from_value, shown_name.
    destruct (decide (Some i = select_identity config identity_name))
      as [Heq|Hne].
    + rewrite bool_decide_eq_true_2 by done. cbn [andb].
      destruct custom_display_name as [[|c s]|];
        cbn [truthy or_else default from_option id];
        try destruct (Identity.display_name i); reflexivity.
    + rewrite bool_decide_eq_false_2 by done. cbn [andb or_else].
      destruct (Identity.display_name i); reflexivity.
Qed.

(** X8.  [Identity.format_from] writes the From value the template shows
    for the selected identity, and the parser reads it back: the display
    name (the custom one when given) and the address, both without the
    white space around them, when the name has no '<' and the address no
    '<' and no '>'. *)
Theorem format_from_read_back (self : Identity.t)
    (custom_display_name : option (list N)) :
  60 ∉ or_else custom_display_name (Identity.display_name self) ->
  60 ∉ Identity.email self -> 62 ∉ Identity.email self ->
  from_line (Some self) custom_display_name self
  = py "From: " ++ Identity.format_from self custom_display_name
    ++ py "  # [" ++ Identity.name self ++ py "]"
  /\ parse_from (strip (Identity.format_from self custom_display_name))
     = Ok (some_text
             (strip (or_else custom_display_name (Identity.display_name self))),
           strip (Identity.email self)).
Proof.
  intros Hname Hlt Hgt. split.
  - rewrite from_line_selected. unfold from_value, shown_name, Identity.format_from.
    by destruct (or_else _ _).
  - unfold Identity.format_from.
    destruct (or_else custom_display_name (Identity.display_name self))
      as [|c n] eqn:Hshown.
    + rewrite parse_from_plain; [done|]. by intros ?%elem_of_strip.
    + by rewrite parse_from_named.
Qed.

Lemma format_from_read_back_witness :
  Identity.format_from Example.personal (Some (py "Custom Name"))
  = py "Custom Name <user@example.com>"
  /\ parse_from (py "Custom Name <user@example.com>")
     = Ok (Some (py "Custom Name"), py "user@example.com").
Proof.
  split; [vm_compute; reflexivity|].
  destruct (format_from_read_back Example.personal (Some (py "Custom Name")))
    as [_ Hparse]; [by no_char..|].
  etrans; [|exact Hparse]. vm_compute. reflexivity.
Defined.

(** ** The editing session: its outcomes *)

Lemma os_call_failed {W A} (f : W -> os_result A * W) w err w' :
  f w = (Failed err, w') -> os_call f w = (Raise (OSError err), w').
Proof. intros H. unfold os_call. by rewrite H. Qed.

Section SessionOutcomes.

Context {world : Type}.
Variable environ : list N -> option (list N).
Variable NamedTemporaryFile : list N -> world -> os_result Path * world.
Variable stat_mtime : Path -> world -> os_result Z * world.
Variable subprocess_run : list (list N) -> world -> os_result Z * world.
Variable read_text : Path -> world -> os_result (list N) * world.
Variable unlink : Path -> world -> os_result unit * world.

Abbreviation session :=
  (compose_interactively environ NamedTemporaryFile stat_mtime subprocess_run
     read_text unlink).

(** X9.  An editing session whose temporary file was created always ends
    by removing that file, and a failure to remove it never shows in the
    result.  When the editor exits with a code other than zero the session
    raises a [ComposerError] that names the code, without looking at the
    file again; when the file was changed the result is that of
    [parse_template] on its text; an [OSError] of a call on the file or of
    starting the editor is the session's error. *)
Theorem session_outcomes (config : Config.t)
    (recipients cc bcc : option (list (list N)))
    (identity_name reply_to subject body custom_display_name : option (list N))
    (w0 w1 : world) (temp_path : Path) :
  NamedTemporaryFile
    (generate_template config recipients cc bcc identity_name reply_to
       subject body custom_display_name) w0 = (Done temp_path, w1) ->
  (exists w,
     (session config recipients cc bcc identity_name reply_to subject body
        custom_display_name w0).2 = (unlink temp_path w).2)
  /\ (forall err w2,
        stat_mtime temp_path w1 = (Failed err, w2) ->
        session config recipients cc bcc identity_name reply_to subject body
          custom_display_name w0
        = (Raise (OSError err), (unlink temp_path w2).2))
  /\ (forall mtime w2,
        stat_mtime temp_path w1 = (Done mtime, w2) ->
        (forall err w3,
           subprocess_run [get_editor environ; temp_path] w2
           = (Failed err, w3) ->
           session config recipients cc bcc identity_name reply_to subject
             body custom_display_name w0
           = (Raise (OSError err), (unlink temp_path w3).2))
        /\ (forall returncode w3,
              subprocess_run [get_editor environ; temp_path] w2
              = (Done returncode, w3) ->
              (returncode <> 0%Z ->
               session config recipients cc bcc identity_name reply_to
                 subject body custom_display_name w0
               = (Raise (ComposerError
                           (py "Editor exited with code "
                            ++ str_of_Z returncode)),
                  (unlink temp_path w3).2))
              /\ (returncode = 0%Z ->
                  forall mtime_after w4,
                    stat_mtime temp_path w3 = (Done mtime_after, w4) ->
                    mtime_after <> mtime ->
                    forall content w5,
                      read_text temp_path w4 = (Done content, w5) ->
                      session config recipients cc bcc identity_name reply_to
                        subject body custom_display_name w0
                      = (parse_template content, (unlink temp_path w5).2)))).
Proof.
  intros Htmp. unfold compose_interactively.
  rewrite (io_bind_ok _ _ _ _ _ (os_call_done _ _ _ _ Htmp)).
  unfold try_finally. split_and!.
  - match goal with
    | |- context [let '(_, _) := ?body w1 in _] =>
      destruct (body w1) as [r w]
    end.
    exists w. rewrite try_pass_os_call. by destruct r.
  - intros err w2 Hstat.
    rewrite (io_bind_raise _ _ _ _ _ (os_call_failed _ _ _ _ Hstat)).
    by rewrite try_pass_os_call.
  - intros mtime w2 Hstat.
    rewrite (io_bind_ok _ _ _ _ _ (os_call_done _ _ _ _ Hstat)).
    split.
    + intros err w3 Hrun.
      rewrite (io_bind_raise _ _ _ _ _ (os_call_failed _ _ _ _ Hrun)).
      by rewrite try_pass_os_call.
    + intros returncode w3 Hrun.
      rewrite (io_bind_ok _ _ _ _ _ (os_call_done _ _ _ _ Hrun)).
      split.
      * intros Hrc. rewrite (proj2 (Z.eqb_neq _ _) Hrc). cbn [negb].
        unfold throw. by rewrite try_pass_os_call.
      * intros -> mtime_after w4 Hafter Hne content w5 Hread.
        cbn [negb Z.eqb].
        rewrite (io_bind_ok _ _ _ _ _ (os_call_done _ _ _ _ Hafter)).
        rewrite (proj2 (Z.eqb_neq _ _) Hne).
        rewrite (io_bind_ok _ _ _ _ _ (os_call_done _ _ _ _ Hread)).
        unfold lift. rewrite try_pass_os_call.
        by destruct (parse_template content).
Qed.

End SessionOutcomes.

(** A session whose editor fails: the error names the code and the
    temporary file is gone. *)
Lemma session_outcomes_witness :
  SampleSession.failed_session []
  = (Raise (ComposerError (py "Editor exited with code 2")), []).
Proof.
  destruct (session_outcomes Example.no_environ SampleSession.create
              SampleSession.stat_mtime SampleSession.failing_editor
              SampleSession.read_text SampleSession.unlink
              create_empty_config None None None None None None None None
              [] [Example.temp_file] Example.temp_file eq_refl)
    as (_ & _ & Hstat).
  destruct (Hstat 1700000000%Z [Example.temp_file] eq_refl) as [_ Hrun].
  destruct (Hrun 2%Z [Example.temp_file] eq_refl) as [Hfail _].
  etrans; [apply Hfail; discriminate|]. vm_compute. reflexivity.
Defined.

(** ** The confirmation prompt *)

Lemma ask_neither (others : list (list N)) (answers : list answer)
    (printed : list (list N)) :
  Forall says_neither others ->
  ask ((Typed <$> others) ++ answers) printed
  = ask answers
      (printed ++ replicate (length others) (py "Please answer 'y' or 'n'")).
Proof.
  revert printed. induction others as [|line others IH]; intros printed Hall.
  - by rewrite app_nil_r.
  - apply Forall_cons in Hall as [[Hyes Hno] Hall].
    cbn [fmap list_fmap app ask]. unfold says_yes, says_no in Hyes, Hno.
    rewrite !bool_decide_eq_false_2 by done.
    rewrite IH by done. cbn [length replicate]. by rewrite <- app_assoc.
Qed.

Lemma ask_true_inv (answers : list answer) (printed : list (list N)) :
  (ask answers printed).1 = true ->
  exists others line rest,
    answers = (Typed <$> others) ++ Typed line :: rest
    /\ Forall says_neither others /\ says_yes line.
Proof.
  revert printed. induction answers as [|a answers IH]; intros printed;
    [done|].
  destruct a as [line| |]; [|done..]. cbn [ask].
  case_bool_decide as Hyes.
  - intros _. by exists [], line, answers.
  - case_bool_decide as Hno; [done|].
    intros (others & line' & rest & -> & Hall & Hline)%IH.
    exists (line :: others), line', rest. split_and!; [done| |done].
    by constructor.
Qed.

(** X10.  [confirm_send] prints the summary and then asks until it gets
    an answer it knows: every other answer is followed by a reminder.  It
    confirms only on a typed answer that is empty, y or yes (white space
    and letter case ignored); n, no, an interrupt and the end of the
    input decline. *)
Theorem confirm_send_decides (Path_name : Path -> list N)
    (email_data : EmailData.t) (others : list (list N))
    (printed : list (list N)) :
  Forall says_neither others ->
  let shown :=
    printed ++ summary_banner Path_name email_data
    ++ replicate (length others) (py "Please answer 'y' or 'n'") in
  (forall line rest,
     says_yes line ->
     confirm_send Path_name email_data
       {| stdin := (Typed <$> others) ++ Typed line :: rest;
          stdout := printed |}
     = (true, {| stdin := rest; stdout := shown |}))
  /\ (forall line rest,
        says_no line ->
        confirm_send Path_name email_data
          {| stdin := (Typed <$> others) ++ Typed line :: rest;
             stdout := printed |}
        = (false, {| stdin := rest; stdout := shown |}))
  /\ (forall a rest,
        a = EndOfInput \/ a = Interrupt ->
        confirm_send Path_name email_data
          {| stdin := (Typed <$> others) ++ a :: rest; stdout := printed |}
        = (false, {| stdin := rest; stdout := shown ++ [ [] ] |}))
  /\ confirm_send Path_name email_data
       {| stdin := Typed <$> others; stdout := printed |}
     = (false, {| stdin := []; stdout := shown ++ [ [] ] |})
  /\ (forall t,
        (confirm_send Path_name email_data t).1 = true ->
        exists line, Typed line ∈ stdin t /\ says_yes line).
Proof.
  intros Hall shown. unfold confirm_send, print_line. cbn [stdin stdout].
  assert (forall answers,
            ask ((Typed <$> others) ++ answers)
              (((((printed ++ [ [10] ++ replicate 60 61 ])
                   ++ [ py "EMAIL SUMMARY" ]) ++ [ replicate 60 61 ])
                 ++ [ format_message_summary Path_name email_data ])
              ++ [ replicate 60 61 ])
            = ask answers shown) as Hask.
  { intros answers. rewrite ask_neither by done. f_equal.
    unfold shown, summary_banner. by rewrite <- !app_assoc. }
  split_and!.
  - intros line rest Hyes. rewrite Hask. cbn [ask].
    unfold says_yes in Hyes. by rewrite bool_decide_eq_true_2.
  - intros line rest Hno. rewrite Hask. cbn [ask].
    unfold says_no in Hno.
    case_bool_decide as Hyes; [|by rewrite bool_decide_eq_true_2].
    exfalso. revert Hyes Hno. generalize (lower (strip line)). intros r.
    rewrite !elem_of_cons, !elem_of_nil.
    intros [->|[->|[->|[]]]] [H|[H|[]]]; vm_compute in H; discriminate.
  - intros a rest [-> | ->]; by rewrite Hask.
  - rewrite <- (app_nil_r (Typed <$> others)). by rewrite Hask.
  - intros t (others' & line & rest & Hin & _ & Hyes)%ask_true_inv.
    exists line. split; [|done]. rewrite Hin. apply elem_of_app. right. left.
Qed.

(** A user who types something else first and then YES. *)
Lemma confirm_send_decides_witness :
  (confirm_send SampleMessage.bare_name SampleMessage.email
     {| stdin := [Typed (py "maybe"); Typed (py " YES ")]; stdout := [] |}).1
  = true.
Proof.
  destruct (confirm_send_decides SampleMessage.bare_name SampleMessage.email
              [py "maybe"] []) as (Hyes & _).
  { constructor; [|constructor]. split; intros Hin; vm_compute in Hin;
      repeat (apply elem_of_cons in Hin as [Hin|Hin]; [discriminate|]);
      by apply elem_of_nil in Hin. }
  change [Typed (py "maybe"); Typed (py " YES ")]
    with ((Typed <$> [py "maybe"]) ++ [Typed (py " YES ")]).
  rewrite (Hyes (py " YES ") []); [reflexivity|].
  unfold says_yes. vm_compute. do 2 right. left.
Defined.

(** ** The message: domain and summary *)

(** X11.  [_extract_domain] never fails.  For an address without '@' it
    gives localhost; otherwise it gives what stands between the first '@'
    and the next one (or the end), so the domain never has an '@'. *)
Theorem _extract_domain_spec (email : list N) :
  exists domain,
    _extract_domain email = Ok domain
    /\ 64 ∉ domain
    /\ (64 ∉ email -> domain = py "localhost")
    /\ (forall local rest,
          email = local ++ 64 :: rest -> 64 ∉ local ->
          (64 ∉ rest -> domain = rest)
          /\ exists more,
               rest = domain ++ more
               /\ (more = [] \/ exists more', more = 64 :: more')).
Proof.
  unfold _extract_domain. change (py "@") with [64].
  destruct (first_char 64 email) as [Habsent|(local & rest & -> & Hlocal)].
  - rewrite (contains_absent [] 64) by done. exists (py "localhost").
    split_and!; [done|by no_char|done|].
    intros local rest -> _. exfalso. apply Habsent.
    apply elem_of_app. right. left.
  - rewrite contains_present by (apply elem_of_app; right; left).
    rewrite split_char_cut by done.
    assert (forall local' rest',
              local ++ 64 :: rest = local' ++ 64 :: rest' -> 64 ∉ local' ->
              rest' = rest) as Hsame.
    { intros local' rest' Heq Hlocal'.
      pose proof (find_char_first 64 local rest Hlocal) as H1.
      pose proof (find_char_first 64 local' rest' Hlocal') as H2.
      rewrite Heq, H2 in H1. injection H1 as Hlen.
      apply app_inj_1 in Heq as [_ [= <-]]; done. }
    destruct (first_char 64 rest) as [Hrest|(dom & more & -> & Hdom)].
    + rewrite split_char_absent by done. exists rest. cbn.
      split_and!; [done|done| |].
      * intros Hno. exfalso. apply Hno. apply elem_of_app. right. left.
      * intros local' rest' Heq Hl. rewrite (Hsame _ _ Heq Hl).
        split; [done|]. exists []. split; [by rewrite app_nil_r|by left].
    + rewrite split_char_cut by done. exists dom. cbn.
      split_and!; [done|done| |].
      * intros Hno. exfalso. apply Hno. apply elem_of_app. right. left.
      * intros local' rest' Heq Hl. rewrite (Hsame _ _ Heq Hl). split.
        -- intros Hno. exfalso. apply Hno. apply elem_of_app. right. left.
        -- exists (64 :: more). split; [done|right; by eexists].
Qed.

Lemma split_nonempty (sep s : list N) : split sep s <> [].
Proof.
  unfold split. destruct (split_max_cons sep (length s) s) as (p & rest & ->).
  done.
Qed.

(** X12.  The summary ends with the body marker and the body: the whole
    body, without the white space around it, when it has at most ten
    lines, and otherwise its first ten lines and a line that counts the
    others.  What stands before starts with the From line. *)
Theorem format_message_summary_body (Path_name : Path -> list N)
    (data : EmailData.t) :
  let body_lines := split NL (strip (EmailData.body data)) in
  exists header,
    (exists rest, header = py "From: " ++ rest)
    /\ ((length body_lines <= 10)%nat ->
        format_message_summary Path_name data
        = header ++ [10; 10] ++ py "--- Body ---" ++ [10]
          ++ strip (EmailData.body data))
    /\ ((10 < length body_lines)%nat ->
        format_message_summary Path_name data
        = header ++ [10; 10] ++ py "--- Body ---" ++ [10]
          ++ join NL (take 10 body_lines) ++ [10]
          ++ py "... (" ++ str_of_Z (Z.of_nat (length body_lines) - 10)
          ++ py " more lines)").
Proof.
  intros body_lines. unfold format_message_summary. cbv zeta.
  fold body_lines.
  match goal with
  | |- context [((?lines ++ [ [] ]) ++ [py "--- Body ---"]) ++ body_lines] =>
    set (header_lines := lines)
  end.
  assert (exists first others, header_lines = (py "From: " ++ first) :: others)
    as (first & others & Hlines).
  { unfold header_lines. cbn [app].
    destruct (EmailData.cc data), (EmailData.bcc data),
      (truthy (EmailData.reply_to data)), (EmailData.attachments data);
      cbn [app]; by eexists _, _. }
  assert (join NL ((header_lines ++ [ [] ]) ++ [py "--- Body ---"])
          = join NL header_lines ++ [10; 10] ++ py "--- Body ---") as Hhead.
  { rewrite <- app_assoc. rewrite join_app; [|by rewrite Hlines|done].
    by change (join NL ([ [] ] ++ [py "--- Body ---"]))
      with ([10] ++ py "--- Body ---"). }
  exists (join NL header_lines). split_and!.
  - rewrite Hlines. destruct others as [|o others].
    + by eexists.
    + rewrite join_cons by done. rewrite <- app_assoc. by eexists.
  - intros Hshort. rewrite (proj2 (Nat.ltb_ge _ _)) by done.
    rewrite join_app; [|by destruct header_lines|apply split_nonempty].
    rewrite Hhead. unfold body_lines, NL. rewrite join_split_char.
    by rewrite <- !app_assoc.
  - intros Hlong. rewrite (proj2 (Nat.ltb_lt _ _)) by done.
    rewrite join_app; [|by destruct header_lines|done].
    rewrite join_app; [|by destruct header_lines|].
    + rewrite Hhead. by rewrite <- !app_assoc.
    + destruct body_lines; [simpl in Hlong; lia|done].
Qed.

(** ** The delivery engine: every run *)

Lemma get_password_raises_ConfigError
    (subprocess_run : list N -> Z -> process_outcome) (self : SmtpServer.t)
    (e : exn) :
  SmtpServer.get_password subprocess_run self = Raise e ->
  exists text, e = ConfigError text.
Proof.
  unfold SmtpServer.get_password.
  destruct (SmtpServer.password_cmd self) as [[|c cmd]|].
  2: { destruct (subprocess_run _ _) as [|rc out err];
         [intros [= <-]; by eexists|].
       destruct (negb _); [intros [= <-]; by eexists|done]. }
  all: destruct (SmtpServer.password self) as [[|c pw]|]; try done.
  all: case_bool_decide; [|done].
  all: destruct (_ ≫= _) as [plain|e']; [done|intros [= <-]; by eexists].
Qed.

(** The waits of a part of a schedule are not negative either. *)
Lemma total_wait_parts_nonneg (retries : Z) (ports todo : list Z)
    (l1 l2 : list event) :
  (todo ≫= fun attempt => (Connect <$> ports) ++ backoff retries attempt)
  = l1 ++ l2 ->
  (0 <= total_wait l1)%Z /\ (0 <= total_wait l2)%Z.
Proof.
  intros Heq.
  assert (Forall (fun e => match e with
                           | Sleep t => (0 <= t)%Z
                           | Connect _ => True
                           end)
            (todo ≫= fun attempt =>
               (Connect <$> ports) ++ backoff retries attempt)) as Hall.
  { apply Forall_bind, Forall_forall. intros a _. apply Forall_app. split.
    - by apply Forall_fmap, Forall_forall.
    - unfold backoff. destruct (a <? retries)%Z; [|done].
      repeat constructor. by apply Z.pow_nonneg. }
  rewrite Heq in Hall. apply Forall_app in Hall as [H1 H2].
  assert (forall l, Forall (fun e => match e with
                                     | Sleep t => (0 <= t)%Z
                                     | Connect _ => True
                                     end) l -> (0 <= total_wait l)%Z) as Hsum.
  { induction 1 as [|[p|t] l Ht _ IH]; [done|done|].
    change (total_wait (Sleep t :: l)) with (t + total_wait l)%Z. lia. }
  split; by apply Hsum.
Qed.

Lemma connect_prefix (tried ports : list Z) (after rest : list event) :
  tried `prefix_of` ports ->
  (Connect <$> tried) `prefix_of` ((Connect <$> ports) ++ after) ++ rest.
Proof.
  intros [k ->]. rewrite fmap_app, <- !app_assoc. by apply prefix_app_r.
Qed.

Section MailerTrace.

Context {world : Type}.
Variable subprocess_run : list N -> Z -> process_outcome.
Variable print : list N -> world -> world.
Variable SMTP_SSL : list N -> Z -> io world unit.
Variable SMTP : list N -> Z -> io world unit.
Variable starttls : io world unit.
Variable set_debuglevel : world -> world.
Variable login : list N -> list N -> io world unit.
Variable sendmail : list N -> list (list N) -> list N -> io world (list (list N)).
Variable noop : io world (list N).
Variable quit : io world unit.
Variable sleep : Z -> world -> world.

Abbreviation cycle :=
  (_send_via_smtp print SMTP_SSL SMTP starttls set_debuglevel login sendmail
     noop quit).
Abbreviation ports_loop :=
  (try_ports print SMTP_SSL SMTP starttls set_debuglevel login sendmail
     noop quit).
Abbreviation attempts_loop :=
  (try_attempts print SMTP_SSL SMTP starttls set_debuglevel login sendmail
     noop quit sleep).
Abbreviation send :=
  (send_email subprocess_run print SMTP_SSL SMTP starttls set_debuglevel
     login sendmail noop quit sleep).

Variable msg : EmailMessage.
Variable recipients : list (list N).
Variable smtp_server : SmtpServer.t.
Variable retries : Z.
Variable verbose : bool.

(** The connections and waits of a delivery in which every cycle fails. *)
Abbreviation schedule todo :=
  (todo ≫= fun attempt =>
     (Connect <$> SmtpServer.ports smtp_server) ++ backoff retries attempt).

(** What the loop over the ports leaves behind, whatever the server
    does. *)
Lemma ports_loop_trace (password : option (list N)) (attempts : Z)
    (ports : list Z) (last_error : option exn) (st st' : state world)
    (r : result (SendResult.t + option exn)) :
  ports_loop msg recipients smtp_server password retries verbose attempts
    ports last_error st = (r, st') ->
  exists tried,
    history st' = history st ++ (Connect <$> tried)
    /\ tried `prefix_of` ports
    /\ match r with
       | Ok (inr _) => tried = ports
       | Ok (inl sent) =>
         exists port response,
           last tried = Some port
           /\ sent = {| SendResult.success := true;
                        SendResult.message :=
                          py "Email sent successfully via "
                          ++ SmtpServer.host smtp_server ++ py ":"
                          ++ str_of_Z port;
                        SendResult.attempts := attempts;
                        SendResult.smtp_response := Some response |}
       | Raise e => is_transport_error e = false /\ tried <> []
       end.
Proof.
  revert last_error st. induction ports as [|port rest IH];
    intros last_error st.
  - intros [= <- <-]. exists []. cbn. by rewrite app_nil_r.
  - cbn [try_ports]. rewrite (say_bind print).
    set (st1 := (say print verbose _ st).2).
    assert (history st1 = history st) as Hst1 by apply keeps_say.
    unfold try_except. unfold mbind at 1. unfold io_bind at 1.
    pose proof (cycle_history print SMTP_SSL SMTP starttls set_debuglevel
                  login sendmail noop quit msg recipients
                  (SmtpServer.host smtp_server) port
                  (SmtpServer.user smtp_server) password
                  (SmtpServer.use_tls smtp_server) verbose st1) as Hh.
    destruct (cycle _ _ _ port _ _ _ _ st1) as [[response|e] st2].
    + intros [= <- <-]. exists [port]. cbn in *. rewrite Hh, Hst1.
      split_and!; [done|by apply prefix_cons, prefix_nil|by eexists _, _].
    + cbn [snd] in Hh. destruct (is_transport_error e) eqn:He.
      * rewrite (say_bind print).
        set (st3 := (say print verbose _ st2).2).
        assert (history st3 = history st2) as Hst3 by apply keeps_say.
        intros (tried & Hhist & Hpre & Hres)%IH.
        exists (port :: tried). rewrite Hhist, Hst3, Hh, Hst1.
        split_and!.
        -- by rewrite <- app_assoc.
        -- by apply prefix_cons.
        -- destruct r as [[sent|le]|e'].
           ++ destruct Hres as (p & response & Hlast & ->).
              exists p, response. split; [|done].
              destruct tried; [done|]. by rewrite last_cons_cons.
           ++ by rewrite Hres.
           ++ by destruct Hres.
      * intros [= <- <-]. exists [port]. cbn. rewrite Hh, Hst1.
        split_and!; [done|by apply prefix_cons, prefix_nil|done|done].
Qed.

Lemma pause_history (attempt : Z) (st1 : state world) :
  exists st2,
    (if (attempt <? retries)%Z
     then
       say print verbose
         (py "Waiting " ++ str_of_Z (2 ^ attempt) ++ py "s before retry...");;
       time_sleep sleep (2 ^ attempt)
     else mret tt) st1 = (Ok tt, st2)
    /\ history st2 = history st1 ++ backoff retries attempt.
Proof.
  unfold backoff. destruct (attempt <? retries)%Z.
  - rewrite (say_bind print). set (st1' := (say _ _ _ _).2).
    assert (history st1' = history st1) as Hs by apply keeps_say.
    unfold time_sleep, record, on_net, effect, mbind, io_bind.
    eexists. split; [reflexivity|]. cbn. by rewrite Hs.
  - exists st1. split; [done|by rewrite app_nil_r].
Qed.

(** What the loop over the attempts leaves behind, whatever the server
    does. *)
Lemma attempts_loop_trace (password : option (list N)) (todo : list Z)
    (attempts : Z) (last_error : option exn) (st st' : state world)
    (r : result SendResult.t) :
  attempts_loop msg recipients smtp_server password retries verbose todo
    attempts last_error st = (r, st') ->
  exists tail,
    history st' = history st ++ tail
    /\ tail `prefix_of` schedule todo
    /\ match r with
       | Ok sent =>
         (exists attempt port response before,
            attempt ∈ todo /\ port ∈ SmtpServer.ports smtp_server
            /\ tail = before ++ [Connect port]
            /\ sent = {| SendResult.success := true;
                         SendResult.message :=
                           py "Email sent successfully via "
                           ++ SmtpServer.host smtp_server ++ py ":"
                           ++ str_of_Z port;
                         SendResult.attempts := attempt + 1;
                         SendResult.smtp_response := Some response |})
         \/ (exists last_error',
               tail = schedule todo
               /\ sent = failure
                           (default attempts ((fun a => a + 1)%Z <$> last todo))
                           last_error')
       | Raise e => is_transport_error e = false /\ tail <> []
       end.
Proof.
  revert attempts last_error st. induction todo as [|attempt rest IH];
    intros attempts last_error st.
  - intros [= <- <-]. exists []. rewrite app_nil_r.
    split_and!; [done..|]. right. by eexists.
  - cbn [try_attempts]. unfold mbind at 1. unfold io_bind at 1.
    destruct (ports_loop _ _ _ _ _ _ _ _ _ st) as [outcome st1] eqn:Hports.
    apply ports_loop_trace in Hports as (tried & Hh1 & Hpre1 & Hres1).
    destruct outcome as [[sent|last1]|e].
    + intros [= <- <-]. destruct Hres1 as (port & response & Hlast & ->).
      exists (Connect <$> tried). split_and!; [done| |].
      * rewrite bind_cons. by apply connect_prefix.
      * left. apply last_Some in Hlast as [before ->].
        exists attempt, port, response, (Connect <$> before).
        split_and!; [left| |by rewrite fmap_app|done].
        destruct Hpre1 as [k Hk]. rewrite Hk. set_solver.
    + subst tried.
      destruct (pause_history attempt st1) as (st2 & Hpause & Hh2).
      unfold mbind at 1. unfold io_bind at 1. rewrite Hpause.
      intros (tail & Hh & Hpre & Hres)%IH.
      exists ((Connect <$> SmtpServer.ports smtp_server)
              ++ backoff retries attempt ++ tail).
      split_and!.
      * rewrite Hh, Hh2, Hh1. by rewrite <- !app_assoc.
      * rewrite bind_cons, <- app_assoc. by do 2 apply prefix_app.
      * destruct r as [sent|e].
        2: { destruct Hres as [He Htail]. split; [done|].
             intros Hnil. apply app_eq_nil in Hnil as [_ Hnil].
             by apply app_eq_nil in Hnil as [_ Hnil]. }
        destruct Hres as [(a & port & response & before & Ha & Hp & -> & ->)
                         |(le & -> & ->)].
        -- left. exists a, port, response,
             ((Connect <$> SmtpServer.ports smtp_server)
              ++ backoff retries attempt ++ before).
           split_and!; [by right|done|by rewrite <- !app_assoc|done].
        -- right. exists le. split; [by rewrite bind_cons, <- app_assoc|].
           destruct rest as [|a rest']; [done|]. rewrite last_cons_cons.
           destruct (last (a :: rest')) eqn:Hl; [done|].
           by apply last_None in Hl.
    + intros [= <- <-]. destruct Hres1 as [He Htried].
      exists (Connect <$> tried). split_and!; [done| |done|].
      * rewrite bind_cons. by apply connect_prefix.
      * by destruct tried.
Qed.

Lemma schedule_bounds :
  (length (connections (schedule (range (retries + 1))))
   = Z.to_nat (retries + 1) * length (SmtpServer.ports smtp_server))%nat
  /\ total_wait (schedule (range (retries + 1))) = Z.max 0 (2 ^ retries - 1).
Proof.
  destruct (Z.le_gt_cases 0 retries) as [Hr|Hr].
  - rewrite failing_history by done.
    rewrite connections_app, connections_history, connections_connect.
    rewrite total_wait_app, waits_history, total_wait_connections.
    rewrite sum_powers_of_two by done. split.
    + rewrite length_app, length_join.
      assert (forall n, sum_list (length <$> replicate n (SmtpServer.ports smtp_server))
                        = (n * length (SmtpServer.ports smtp_server))%nat) as Hsum.
      { induction n as [|n IHn]; [done|]. cbn. by rewrite IHn. }
      rewrite Hsum. unfold range. rewrite length_fmap, length_seq. lia.
    + pose proof (Z.pow_pos_nonneg 2 retries). lia.
  - unfold range. replace (Z.to_nat (retries + 1)) with 0%nat by lia.
    cbn. rewrite Z.pow_neg_r by done. by split.
Qed.

(** X13.  Whatever the servers do, the connections and waits of a
    delivery are an initial part of those of a delivery in which every
    cycle fails: every port in order in each attempt, and the wait of
    [2 ^ attempt] after each attempt but the last.  So a delivery makes at
    most [(retries + 1) * len(ports)] connections and waits
    [2 ^ retries - 1] at most, and with a negative [retries] it makes no
    connection at all. *)
Theorem send_email_bounded (st : state world) :
  exists tail,
    history (send msg recipients smtp_server retries verbose st).2
    = history st ++ tail
    /\ tail `prefix_of` schedule (range (retries + 1))
    /\ (length (connections tail)
        <= Z.to_nat (retries + 1) * length (SmtpServer.ports smtp_server))%nat
    /\ (0 <= total_wait tail <= Z.max 0 (2 ^ retries - 1))%Z
    /\ ((retries < 0)%Z -> tail = []).
Proof.
  assert (exists tail,
            history (send msg recipients smtp_server retries verbose st).2
            = history st ++ tail
            /\ tail `prefix_of` schedule (range (retries + 1)))
    as (tail & Hh & Hpre).
  { unfold send_email, lift. unfold mbind at 1. unfold io_bind at 1.
    destruct (SmtpServer.get_password _ _) as [password|e].
    - destruct (attempts_loop _ _ _ _ _ _ _ _ _ st) as [r st'] eqn:Hrun.
      apply attempts_loop_trace in Hrun as (tail & Hh & Hpre & _).
      by exists tail.
    - exists []. split; [by rewrite app_nil_r|apply prefix_nil]. }
  exists tail. destruct Hpre as [k Hk].
  destruct schedule_bounds as [Hlen Hwait].
  repeat split.
  - done.
  - by exists k.
  - rewrite Hk, connections_app, length_app in Hlen. lia.
  - by destruct (total_wait_parts_nonneg _ _ _ _ _ Hk).
  - rewrite Hk, total_wait_app in Hwait.
    destruct (total_wait_parts_nonneg _ _ _ _ _ Hk). lia.
  - intros Hneg. unfold range in Hk.
    replace (Z.to_nat (retries + 1)) with 0%nat in Hk by lia.
    cbn in Hk. symmetry in Hk. by apply app_eq_nil in Hk as [-> _].
Qed.

(** X14.  The outcomes of a delivery.  When the secret cannot be
    resolved, the delivery raises that [ConfigError] and nothing else
    happens.  Otherwise it returns a success, for a port of the server
    and an attempt within the budget, right after the connection to that
    port; or it returns the failure, which counts every attempt, after the
    connections and waits of a delivery in which every cycle fails; or it
    raises an error that is not an SMTP or OS error: those never leave
    [send_email]. *)
Theorem send_email_outcomes (st st' : state world) (r : result SendResult.t) :
  send msg recipients smtp_server retries verbose st = (r, st') ->
  (forall e,
     SmtpServer.get_password subprocess_run smtp_server = Raise e ->
     r = Raise e /\ st' = st /\ exists text, e = ConfigError text)
  /\ (forall password,
        SmtpServer.get_password subprocess_run smtp_server = Ok password ->
      match r with
      | Ok sent =>
        (exists attempt port response before,
           (0 <= attempt <= retries)%Z
           /\ port ∈ SmtpServer.ports smtp_server
           /\ history st' = history st ++ before ++ [Connect port]
           /\ sent = {| SendResult.success := true;
                        SendResult.message :=
                          py "Email sent successfully via "
                          ++ SmtpServer.host smtp_server ++ py ":"
                          ++ str_of_Z port;
                        SendResult.attempts := attempt + 1;
                        SendResult.smtp_response := Some response |})
        \/ (exists last_error,
              history st' = history st ++ schedule (range (retries + 1))
              /\ sent = failure (Z.max 0 (retries + 1)) last_error)
      | Raise e => is_transport_error e = false /\ history st' <> history st
      end).
Proof.
  unfold send_email, lift. unfold mbind at 1. unfold io_bind at 1.
  destruct (SmtpServer.get_password _ _) as [password|e] eqn:Hpw.
  - intros Hrun. split; [done|]. intros password' _.
    pose proof Hrun as (tail & Hh & Hpre & Hres)%attempts_loop_trace.
    destruct r as [sent|e].
    + destruct Hres as [(a & port & response & before & Ha & Hp & -> & ->)
                       |(le & -> & ->)].
      * left. exists a, port, response, before.
        apply elem_of_range in Ha. split_and!; [lia|lia|done..].
      * right. exists le. split; [done|]. f_equal.
        destruct (Z.le_gt_cases 0 retries) as [Hr|Hr].
        -- rewrite range_succ, last_snoc by done. cbn. lia.
        -- unfold range. replace (Z.to_nat (retries + 1)) with 0%nat by lia.
           cbn. lia.
    + destruct Hres as [He Htail]. split; [done|]. rewrite Hh.
      intros Hsame. rewrite <- (app_nil_r (history st)) in Hsame at 2.
      by apply app_inv_head in Hsame.
  - intros [= <- <-]. split; [|done].
    intros e' [= <-]. split_and!; [done..|].
    by eapply get_password_raises_ConfigError.
Qed.

Lemma ports_loop_first_working (password : option (list N)) (attempts : Z)
    (failing : list Z) (port : Z) (rest : list Z) :
  (forall st p,
     p ∈ failing ->
     exists e,
       (cycle msg recipients (SmtpServer.host smtp_server) p
          (SmtpServer.user smtp_server) password
          (SmtpServer.use_tls smtp_server) verbose st).1 = Raise e
       /\ is_transport_error e = true) ->
  (forall st,
     exists response,
       (cycle msg recipients (SmtpServer.host smtp_server) port
          (SmtpServer.user smtp_server) password
          (SmtpServer.use_tls smtp_server) verbose st).1 = Ok response) ->
  forall (last_error : option exn) (st : state world),
  exists response st',
    ports_loop msg recipients smtp_server password retries verbose attempts
      (failing ++ port :: rest) last_error st
    = (Ok (inl {| SendResult.success := true;
                  SendResult.message :=
                    py "Email sent successfully via "
                    ++ SmtpServer.host smtp_server ++ py ":" ++ str_of_Z port;
                  SendResult.attempts := attempts;
                  SendResult.smtp_response := Some response |}), st')
    /\ history st' = history st ++ (Connect <$> failing) ++ [Connect port].
Proof.
  intros Hfail Hwork.
  induction failing as [|p failing IH]; intros last_error st.
  - cbn [app try_ports]. rewrite (say_bind print).
    set (st1 := (say print verbose _ st).2).
    assert (history st1 = history st) as Hst1 by apply keeps_say.
    unfold try_except. unfold mbind at 1. unfold io_bind at 1.
    pose proof (cycle_history print SMTP_SSL SMTP starttls set_debuglevel
                  login sendmail noop quit msg recipients
                  (SmtpServer.host smtp_server) port
                  (SmtpServer.user smtp_server) password
                  (SmtpServer.use_tls smtp_server) verbose st1) as Hh.
    destruct (Hwork st1) as [response Hr].
    destruct (cycle _ _ _ port _ _ _ _ st1) as [r st2].
    cbn [fst snd] in Hr, Hh. subst r.
    exists response, st2. split; [done|]. by rewrite Hh, Hst1.
  - cbn [app try_ports]. rewrite (say_bind print).
    set (st1 := (say print verbose _ st).2).
    assert (history st1 = history st) as Hst1 by apply keeps_say.
    unfold try_except. unfold mbind at 1. unfold io_bind at 1.
    pose proof (cycle_history print SMTP_SSL SMTP starttls set_debuglevel
                  login sendmail noop quit msg recipients
                  (SmtpServer.host smtp_server) p
                  (SmtpServer.user smtp_server) password
                  (SmtpServer.use_tls smtp_server) verbose st1) as Hh.
    destruct (Hfail st1 p) as (e & He & Htr); [left|].
    destruct (cycle _ _ _ p _ _ _ _ st1) as [r st2].
    cbn [fst snd] in He, Hh. subst r. rewrite Htr.
    rewrite (say_bind print).
    set (st3 := (say print verbose _ st2).2).
    assert (history st3 = history st2) as Hst3 by apply keeps_say.
    destruct (IH ltac:(intros ? ? ?; apply Hfail; by right) (Some e) st3)
      as (response & st' & Hrun & Hhist).
    exists response, st'. split; [done|].
    rewrite Hhist, Hst3, Hh, Hst1. cbn. by rewrite <- !app_assoc.
Qed.

(** X15.  The ports of the server are tried in their order, and the
    first that works ends the delivery: when the cycles on the ports
    before it fail with SMTP or OS errors and the cycle on it succeeds,
    the delivery succeeds in its first attempt, with one connection to
    each of these ports and no wait. *)
Theorem send_email_first_working_port (password : option (list N))
    (failing : list Z) (port : Z) (rest : list Z) (st : state world) :
  (0 <= retries)%Z ->
  SmtpServer.get_password subprocess_run smtp_server = Ok password ->
  SmtpServer.ports smtp_server = failing ++ port :: rest ->
  (forall st p,
     p ∈ failing ->
     exists e,
       (cycle msg recipients (SmtpServer.host smtp_server) p
          (SmtpServer.user smtp_server) password
          (SmtpServer.use_tls smtp_server) verbose st).1 = Raise e
       /\ is_transport_error e = true) ->
  (forall st,
     exists response,
       (cycle msg recipients (SmtpServer.host smtp_server) port
          (SmtpServer.user smtp_server) password
          (SmtpServer.use_tls smtp_server) verbose st).1 = Ok response) ->
  exists response st',
    send msg recipients smtp_server retries verbose st
    = (Ok {| SendResult.success := true;
             SendResult.message :=
               py "Email sent successfully via "
               ++ SmtpServer.host smtp_server ++ py ":" ++ str_of_Z port;
             SendResult.attempts := 1;
             SendResult.smtp_response := Some response |}, st')
    /\ history st' = history st ++ (Connect <$> failing) ++ [Connect port].
Proof.
  intros Hr Hpw Hports Hfail Hwork.
  unfold send_email, lift. unfold mbind at 1. unfold io_bind at 1.
  rewrite Hpw.
  assert (exists todo, range (retries + 1) = 0%Z :: todo) as [todo ->].
  { unfold range. replace (Z.to_nat (retries + 1)) with (S (Z.to_nat retries))
      by lia. by eexists. }
  cbn [try_attempts]. rewrite Hports.
  destruct (ports_loop_first_working password (0 + 1) failing port rest
              Hfail Hwork None st) as (response & st' & Hrun & Hh).
  unfold mbind at 1. unfold io_bind at 1. rewrite Hrun.
  by exists response, st'.
Qed.

End MailerTrace.

(** A server that is reachable on its second port only: the delivery
    succeeds there, in the first attempt. *)
Lemma send_email_first_working_port_witness :
  exists response st',
    SampleDelivery.send_smtps_only 1 Example.start
    = (Ok {| SendResult.success := true;
             SendResult.message :=
               py "Email sent successfully via "
               ++ SmtpServer.host Example.server ++ py ":" ++ str_of_Z 465;
             SendResult.attempts := 1;
             SendResult.smtp_response := Some response |}, st')
    /\ history st' = [Connect 587; Connect 465].
Proof.
  apply (send_email_first_working_port
           Example.no_shell Example.silent
           (fun _ _ => Example.fine tt) (fun _ _ => Example.unreachable)
           (Example.fine tt) (fun w => w) (fun _ _ => Example.fine tt)
           SampleDelivery.accept_all (Example.fine (py "(250, b'OK')"))
           (Example.fine tt) (fun _ w => w)
           Example.message Example.recipients Example.server 1 false
           None [587%Z] 465%Z [] Example.start).
  - lia.
  - reflexivity.
  - reflexivity.
  - intros st p Hp. apply list_elem_of_singleton in Hp as ->.
    exists (OSError (py "Connection refused")). split; reflexivity.
  - intros st. eexists. reflexivity.
Defined.

(** The same delivery: its result is a success within the budget. *)
Lemma send_email_outcomes_witness :
  match (SampleDelivery.send_smtps_only 1 Example.start).1 with
  | Ok sent =>
    (1 <= SendResult.attempts sent <= 2)%Z \/ SendResult.success sent = false
  | Raise e => is_transport_error e = false
  end.
Proof.
  destruct (SampleDelivery.send_smtps_only 1 Example.start) as [r st'] eqn:Hrun.
  destruct (send_email_outcomes
              Example.no_shell Example.silent
              (fun _ _ => Example.fine tt) (fun _ _ => Example.unreachable)
              (Example.fine tt) (fun w => w) (fun _ _ => Example.fine tt)
              SampleDelivery.accept_all (Example.fine (py "(250, b'OK')"))
              (Example.fine tt) (fun _ w => w)
              Example.message Example.recipients Example.server 1 false
              Example.start st' r Hrun) as [_ Hok].
  specialize (Hok None eq_refl). cbn [fst].
  destruct r as [sent|e]; [|by destruct Hok].
  destruct Hok as [(a & port & response & before & Ha & _ & _ & ->)
                  |(le & _ & ->)].
  - left. cbn. lia.
  - by right.
Defined.

(** ** The connection test *)

Section ProbeProps.

Context {world : Type}.
Variable subprocess_run : list N -> Z -> process_outcome.
Variable print : list N -> world -> world.
Variable SMTP_SSL : list N -> Z -> io world unit.
Variable SMTP : list N -> Z -> io world unit.
Variable starttls : io world unit.
Variable set_debuglevel : world -> world.
Variable login : list N -> list N -> io world unit.
Variable quit : io world unit.

Abbreviation probe :=
  (probe_ports print SMTP_SSL SMTP starttls set_debuglevel login quit).

(** One probe records its connection and nothing else. *)
Lemma probe_step_history {A} (port : Z) (m : io (state world) A)
    (st : state world) :
  keeps_history m ->
  history ((record (Connect port);; m) st).2 = history st ++ [Connect port].
Proof.
  intros Hm. unfold record, effect, mbind, io_bind.
  destruct (m _) as [r st'] eqn:Hrun.
  pose proof (Hm {| net := net st; history := history st ++ [Connect port] |})
    as Hh. rewrite Hrun in Hh. by destruct r.
Qed.

Ltac keeps_steps :=
  lazymatch goal with
  | |- keeps_history (mbind _ _) =>
    apply keeps_bind; [keeps_steps|intros ?; keeps_steps]
  | |- keeps_history (if ?c then _ else _) => destruct c; keeps_steps
  | |- keeps_history (on_net _) => apply keeps_on_net
  | |- keeps_history (mret _) => apply keeps_ret
  end.

Lemma io_seq_result {S A B} (m : io S A) (k : io S B) (x : B) :
  (forall st r st', k st = (Ok r, st') -> r = x) ->
  forall st r st', (m;; k) st = (Ok r, st') -> r = x.
Proof.
  intros Hk st r st'. unfold mbind, io_bind.
  destruct (m st) as [[a|e] st1]; [apply Hk|done].
Qed.

Lemma probe_ports_trace (smtp_server : SmtpServer.t)
    (password : option (list N)) (verbose : bool) (ports : list Z)
    (st st' : state world) (r : result SendResult.t) :
  probe smtp_server password verbose ports st = (r, st') ->
  exists tried,
    history st' = history st ++ (Connect <$> tried)
    /\ tried `prefix_of` ports
    /\ match r with
       | Ok res =>
         (exists port,
            last tried = Some port
            /\ res = {| SendResult.success := true;
                        SendResult.message :=
                          py "Successfully connected to "
                          ++ SmtpServer.host smtp_server ++ py ":"
                          ++ str_of_Z port;
                        SendResult.attempts := 1;
                        SendResult.smtp_response := None |})
         \/ (tried = ports
             /\ res = {| SendResult.success := false;
                         SendResult.message :=
                           py "Failed to connect to "
                           ++ SmtpServer.host smtp_server
                           ++ py " on any port";
                         SendResult.attempts := 1;
                         SendResult.smtp_response := None |})
       | Raise e => is_transport_error e = false /\ tried <> []
       end.
Proof.
  revert st. induction ports as [|port rest IH]; intros st.
  - intros [= <- <-]. exists []. rewrite app_nil_r.
    split_and!; [done..|]. by right.
  - cbn [probe_ports]. unfold try_except.
    match goal with
    | |- context [(record (Connect port);; ?m) st] =>
      assert (keeps_history m) as Hkeeps;
      [|assert (forall st0 res st1,
                  (record (Connect port);; m) st0 = (Ok res, st1) ->
                  res = {| SendResult.success := true;
                           SendResult.message :=
                             py "Successfully connected to "
                             ++ SmtpServer.host smtp_server ++ py ":"
                             ++ str_of_Z port;
                           SendResult.attempts := 1;
                           SendResult.smtp_response := None |}) as Hres;
        [|pose proof (probe_step_history port m st Hkeeps) as Hh;
          pose proof (Hres st) as Hres';
          destruct ((record (Connect port);; m) st) as [[res|e] st1]]]
    end.
    + keeps_steps.
    + do 5 (apply io_seq_result). by intros st0 res st1 [= <-].
    + intros [= <- <-]. exists [port]. cbn [snd] in Hh. rewrite Hh.
      split_and!; [done|by apply prefix_cons, prefix_nil|].
      left. exists port. split; [done|]. by eapply Hres'.
    + cbn [snd] in Hh. destruct (is_transport_error e) eqn:He.
      * rewrite (say_bind print).
        set (st2 := (say print verbose _ st1).2).
        assert (history st2 = history st1) as Hst2 by apply keeps_say.
        intros (tried & Hhist & Hpre & Hr)%IH.
        exists (port :: tried). rewrite Hhist, Hst2, Hh.
        split_and!.
        -- by rewrite <- app_assoc.
        -- by apply prefix_cons.
        -- destruct r as [res|e'].
           ++ destruct Hr as [(p & Hlast & ->)|[-> ->]].
              ** left. exists p. split; [|done].
                 destruct tried; [done|]. by rewrite last_cons_cons.
              ** by right.
           ++ by destruct Hr.
      * intros [= <- <-]. exists [port]. rewrite Hh.
        split_and!; [done|by apply prefix_cons, prefix_nil|done|done].
Qed.


End ProbeProps.


(** ** message.py: building the message *)

Section BuildMessageProps.

Context {W M : Type}.
Variable path_exists : Path -> bool.
Variable path_is_file : Path -> bool.
Variable EmailMessage_new : M.
Variable setitem : list N -> list N -> M -> result M.
Variable formataddr : list N -> list N -> result (list N).
Variable formatdate : W -> list N * W.
Variable make_msgid : list N -> W -> list N * W.
Variable set_content : list N -> M -> result M.
Variable guess_type : Path -> option (list N).
Variable read_bytes : Path -> W -> os_result (list N) * W.
Variable add_attachment :
  list N -> list N -> list N -> list N -> M -> result M.
Variable Path_name : Path -> list N.

Abbreviation build :=
  (build_message path_exists path_is_file EmailMessage_new setitem formataddr
     formatdate make_msgid set_content guess_type read_bytes add_attachment
     Path_name).

(** X17.  [build_message] builds a message only from data that
    [validate] has no complaint about.  For other data it raises a
    [MessageError] that lists every complaint on a line of its own, and
    neither the clock nor a file is read.  The Bcc addresses play no part
    in what it builds. *)
Theorem build_message_valid_only (data : EmailData.t) (w : W) :
  (EmailData.validate path_exists path_is_file data <> [] ->
   build data w
   = (Raise (MessageError
               (py "Invalid email data:" ++ NL
                ++ join NL ((fun e => py "  - " ++ e)
                            <$> EmailData.validate path_exists path_is_file
                                  data))), w))
  /\ (forall msg w',
        build data w = (Ok msg, w') ->
        EmailData.validate path_exists path_is_file data = []
        /\ EmailData.to data <> [] /\ EmailData.from_addr data <> [])
  /\ (forall bcc,
        build {| EmailData.to := EmailData.to data;
                 EmailData.cc := EmailData.cc data;
                 EmailData.bcc := bcc;
                 EmailData.from_addr := EmailData.from_addr data;
                 EmailData.from_name := EmailData.from_name data;
                 EmailData.reply_to := EmailData.reply_to data;
                 EmailData.subject := EmailData.subject data;
                 EmailData.body := EmailData.body data;
                 EmailData.attachments := EmailData.attachments data |} w
        = build data w).
Proof.
  split_and!.
  - intros Herr. unfold build_message.
    by destruct (EmailData.validate _ _ data).
  - intros msg w' Hbuild.
    assert (EmailData.validate path_exists path_is_file data = []) as Hvalid.
    { unfold build_message in Hbuild.
      by destruct (EmailData.validate _ _ data). }
    split; [done|]. unfold EmailData.validate in Hvalid.
    rewrite foldl_check_attachment in Hvalid.
    apply app_eq_nil in Hvalid as [Hvalid _].
    by destruct (EmailData.to data), (EmailData.from_addr data).
  - intros bcc. unfold build_message.
    by rewrite (validate_reads_to_from_attachments _ _ _ data).
Qed.

End BuildMessageProps.

(** ** __main__.py: the program *)

Lemma io_bind_inv {S A B} (m : io S A) (k : A -> io S B) (st st' : S)
    (r : result B) :
  (m ≫= k) st = (r, st') ->
  (exists a st1, m st = (Ok a, st1) /\ k a st1 = (r, st'))
  \/ (exists e, m st = (Raise e, st') /\ r = Raise e).
Proof.
  unfold mbind, io_bind. destruct (m st) as [[a|e] st1].
  - intros Hk. left. by exists a, st1.
  - intros [= <- <-]. right. by exists e.
Qed.

Lemma keeps_history_run {world A} (m : io (state world) A)
    (st st' : state world) (r : result A) :
  keeps_history m -> m st = (r, st') -> history st' = history st.
Proof. intros Hm Hrun. specialize (Hm st). by rewrite Hrun in Hm. Qed.

Lemma schedule_connects (retries : Z) (ports todo : list Z) (port : Z) :
  Connect port
    ∈ (todo ≫= fun attempt => (Connect <$> ports) ++ backoff retries attempt) ->
  port ∈ ports.
Proof.
  intros (attempt & Hin & _)%list_elem_of_bind.
  apply elem_of_app in Hin as [Hin|Hin].
  - by apply list_elem_of_fmap in Hin as (q & [= ->] & Hq).
  - unfold backoff in Hin. destruct (_ <? _)%Z.
    + by apply list_elem_of_singleton in Hin.
    + by apply elem_of_nil in Hin.
Qed.

Section ProgramProps.

Context {W M : Type}.
Variable p : Platform.t W M.

Lemma keeps_out (text : list N) : keeps_history (out (W := W) text).
Proof. apply keeps_on_net. Qed.

Lemma keeps_err (text : list N) : keeps_history (err (W := W) text).
Proof. apply keeps_on_net. Qed.

Lemma keeps_err_each (texts : list (list N)) :
  keeps_history (err_each (W := W) texts).
Proof.
  induction texts as [|text texts IH]; [apply keeps_ret|].
  cbn [err_each]. apply keeps_bind; [apply keeps_err|done].
Qed.

Lemma keeps_warn_each (texts : list (list N)) :
  keeps_history (warn_each p texts).
Proof.
  induction texts as [|text texts IH]; [apply keeps_ret|].
  cbn [warn_each]. apply keeps_bind; [apply keeps_on_net|done].
Qed.

Lemma warn_each_completes (texts : list (list N)) (st : state (machine W)) :
  exists st1, warn_each p texts st = (Ok tt, st1).
Proof.
  revert st. induction texts as [|text texts IH]; intros st; [by eexists|].
  cbn [warn_each]. unfold mbind, io_bind, on_net, effect. cbn. apply IH.
Qed.

(** What [load_config] comes back with on the machine is what the loader
    makes of the file found at the start. *)
Lemma load_config_on_spec (config_path : list N)
    (st st' : state (machine W)) (r : result Config.t) :
  load_config_on p config_path st = (r, st') ->
  history st' = history st
  /\ r = load_config (Platform.expanduser p config_path)
           (Platform.config_file_at p (Platform.expanduser p config_path)
              (os (net st))).
Proof.
  unfold load_config_on.
  set (path := Platform.expanduser p config_path).
  set (file := Platform.config_file_at p path (os (net st))).
  assert (forall texts,
            (warn_each p texts;; lift (load_config path file)) st = (r, st') ->
            history st' = history st /\ r = load_config path file) as Hwarn.
  { intros texts Hrun. apply io_bind_inv in Hrun as [(a & st1 & H1 & H2)|(e & H1 & _)].
    - apply (keeps_history_run _ _ _ _ (keeps_warn_each texts)) in H1.
      unfold lift in H2. injection H2 as <- <-. by split.
    - destruct (warn_each_completes texts st) as [st1 Hok]. congruence. }
  destruct file eqn:Hfile.
  - unfold lift. by intros [= <- <-].
  - apply Hwarn.
  - apply Hwarn.
Qed.

Lemma resolve_config_spec (args : Args.t) (st st' : state (machine W))
    (r : result Config.t) :
  resolve_config p args st = (r, st') ->
  history st' = history st
  /\ forall config, r = Ok config ->
       config = create_empty_config
       \/ (Args.no_config args = false
           /\ load_config (Platform.expanduser p (Args.config_path args))
                (Platform.config_file_at p
                   (Platform.expanduser p (Args.config_path args))
                   (os (net st)))
              = Ok config).
Proof.
  unfold resolve_config. destruct (Args.no_config args).
  { intros [= <- <-]. split; [done|]. intros config [= <-]. by left. }
  unfold try_except.
  destruct (load_config_on p (Args.config_path args) st) as [[config|e] st1]
    eqn:Hload; apply load_config_on_spec in Hload as [Hh Hload].
  - intros [= <- <-]. split; [done|]. intros c [= <-]. by right.
  - destruct (is_ConfigError e); [|intros [= <- <-]; by split].
    destruct (_ && _).
    + unfold err, on_net, effect, mbind, io_bind. cbn.
      intros [= <- <-]. split; [done|]. intros c [= <-]. by left.
    + intros [= <- <-]. by split.
Qed.

Lemma resolve_identity_spec (args : Args.t) (config : Config.t)
    (st st' : state (machine W)) (r : result (Z + option Identity.t)) :
  resolve_identity args config st = (r, st') ->
  history st' = history st
  /\ exists resolved,
       r = Ok resolved
       /\ match resolved with
          | inl code => code = 1%Z
          | inr (Some identity) => identity ∈ Config.identities config
          | inr None => True
          end.
Proof.
  unfold resolve_identity.
  destruct (truthy (Args.identity args)).
  { destruct (Config.get_identity _ _) as [identity|] eqn:Hid.
    - intros [= <- <-]. split; [done|]. eexists. split; [done|].
      by eapply get_identity_member.
    - unfold err, on_net, effect, mbind, io_bind. cbn.
      intros [= <- <-]. split; [done|]. by eexists. }
  destruct (truthy (Args.from_addr args)).
  { destruct (Config.get_identity_by_email _ _) as [identity|] eqn:Hid.
    - intros [= <- <-]. split; [done|]. eexists. split; [done|].
      apply find_some in Hid as [Hid _]. by apply list_elem_of_In.
    - destruct (Args.no_config args); cbn [negb].
      + intros [= <- <-]. split; [done|]. by eexists.
      + unfold err, on_net, effect, mbind, io_bind. cbn.
        intros [= <- <-]. split; [done|]. by eexists. }
  destruct (Config.identities config) eqn:Hids.
  - intros [= <- <-]. split; [done|]. by eexists.
  - intros [= <- <-]. split; [done|]. eexists. split; [done|].
    destruct (Config.get_default_identity config) as [d|] eqn:Hd; [|done].
    rewrite <- Hids. by apply get_default_identity_member.
Qed.

Lemma sends_only_ret (C : result Z -> list event -> Prop) (code : Z) :
  (code = 0 \/ code = 1)%Z -> sends_only (W := W) C (mret code).
Proof.
  intros Hcode st r st' [= <- <-]. split; [|by left]. by intros c [= <-].
Qed.

Lemma sends_only_bind {A} (C : result Z -> list event -> Prop)
    (m : io (state (machine W)) A) (k : A -> io (state (machine W)) Z) :
  keeps_history m -> (forall a, sends_only C (k a)) ->
  sends_only C (m ≫= k).
Proof.
  intros Hm Hk st r st' Hrun.
  apply io_bind_inv in Hrun as [(a & st1 & H1 & H2)|(e & H1 & ->)].
  - apply (keeps_history_run _ _ _ _ Hm) in H1. rewrite <- H1.
    by apply (Hk a).
  - apply (keeps_history_run _ _ _ _ Hm) in H1. split; [done|by left].
Qed.

Lemma sends_only_mono (C C' : result Z -> list event -> Prop)
    (m : io (state (machine W)) Z) :
  (forall r tail, C r tail -> C' r tail) -> sends_only C m -> sends_only C' m.
Proof.
  intros HC Hm st r st' Hrun. destruct (Hm st r st' Hrun) as [Hcode Hh].
  split; [done|]. destruct Hh as [Hh|(tail & Hh & Htail)]; [by left|].
  right. exists tail. split; [done|by apply HC].
Qed.

Ltac keeps :=
  repeat first
    [ apply keeps_ret | apply keeps_on_net | apply keeps_err_each
    | apply keeps_bind | progress intros
    | match goal with
      | |- keeps_history (if ?b then _ else _) => destruct b
      | |- keeps_history (match ?x with _ => _ end) => destruct x
      end ].

(** A delivery adds a part of the schedule of the server to the history;
    when it reports success, the last event is a connection. *)
Lemma deliver_trace (msg : M) (recipients : list (list N))
    (server : SmtpServer.t) (retries : Z) (verbose : bool)
    (st st' : state (machine W)) (r : result SendResult.t) :
  deliver p msg recipients server retries verbose st = (r, st') ->
  exists tail,
    history st' = history st ++ tail
    /\ (forall port, Connect port ∈ tail -> port ∈ SmtpServer.ports server)
    /\ (forall sent, r = Ok sent -> SendResult.success sent = true ->
        exists before port, tail = before ++ [Connect port]).
Proof.
  unfold deliver, send_email, lift. unfold mbind at 1. unfold io_bind at 1.
  destruct (SmtpServer.get_password _ _) as [password|e].
  - intros Hrun.
    apply (attempts_loop_trace (Platform.shell p)) in Hrun
      as (tail & Hh & Hpre & Hr).
    exists tail. split; [done|]. split.
    + intros port Hin. eapply schedule_connects.
      by eapply elem_of_prefix.
    + intros sent -> Hsent.
      destruct Hr as [(attempt & port & response & before & _ & _ & Ht & _)
                     |(last_error & _ & Hfail)].
      * by exists before, port.
      * by rewrite Hfail in Hsent.
  - intros [= <- <-]. exists []. rewrite app_nil_r. split; [done|].
    split; [by intros port Hin%elem_of_nil|done].
Qed.

Lemma sends_only_after {A} (C : result Z -> list event -> Prop)
    (P : A -> Prop) (m : io (state (machine W)) A)
    (k : A -> io (state (machine W)) Z) :
  (forall st r st', m st = (r, st') ->
     history st' = history st /\ forall a, r = Ok a -> P a) ->
  (forall a, P a -> sends_only C (k a)) ->
  sends_only C (m ≫= k).
Proof.
  intros Hm Hk st r st' Hrun.
  apply io_bind_inv in Hrun as [(a & st1 & H1 & H2)|(e & H1 & ->)].
  - apply Hm in H1 as [H1 Ha]. rewrite <- H1. apply (Hk a); [by apply Ha|done].
  - apply Hm in H1 as [H1 _]. split; [done|by left].
Qed.

Ltac quiet :=
  repeat first
    [ apply sends_only_ret; by auto
    | apply sends_only_bind; [by keeps|intros] ].

(** The end of a delivery: the result is printed and gives the exit
    code. *)
Lemma report_sends_only (msg : M) (recipients : list (list N))
    (server : SmtpServer.t) (retries : Z) (verbose : bool) :
  sends_only
    (fun r tail =>
       (forall port, Connect port ∈ tail -> port ∈ SmtpServer.ports server)
       /\ (r = Ok 0%Z -> exists before port, tail = before ++ [Connect port]))
    (result ← deliver p msg recipients server retries verbose;
     if SendResult.success result then
       out (SendResult.message result);; mret 0%Z
     else err (py "Error: " ++ SendResult.message result);; mret 1%Z).
Proof.
  intros st r st' Hrun.
  apply io_bind_inv in Hrun as [(sent & st1 & H1 & H2)|(e & H1 & ->)];
    apply deliver_trace in H1 as (tail & Hh & Hports & Hlast).
  - destruct (SendResult.success sent) eqn:Hsent;
      unfold out, err, on_net, effect, mbind, io_bind in H2; cbn in H2;
      injection H2 as <- <-; cbn [history].
    + split; [intros code [= <-]; by left|]. right. exists tail.
      repeat split; [done..|]. intros _. by eapply Hlast.
    + split; [intros code [= <-]; by right|]. right. exists tail.
      by repeat split.
  - split; [done|]. right. exists tail. by repeat split.
Qed.

Lemma finish_sends_only (args : Args.t) (skip_confirmation : bool)
    (retries : Z) (smtp_server : option SmtpServer.t) (data : EmailData.t) :
  sends_only
    (fun r tail =>
       Args.dry_run args = false
       /\ EmailData.validate (Platform.path_exists p)
            (Platform.path_is_file p) data = []
       /\ exists server,
            smtp_server = Some server
            /\ (forall port, Connect port ∈ tail ->
                port ∈ SmtpServer.ports server)
            /\ (r = Ok 0%Z ->
                exists before port, tail = before ++ [Connect port]))
    (finish p args skip_confirmation retries smtp_server data).
Proof.
  unfold finish. cbv zeta.
  match goal with
  | |- sends_only ?C (if _ then _ else ?body) =>
    assert (sends_only C body) as Hchecked
  end.
  { destruct (EmailData.validate _ _ data) eqn:Hvalid; [|by quiet].
    destruct (Args.dry_run args) eqn:Hdry; [by quiet|].
    apply sends_only_bind; [by keeps|]. intros [|]; cbn [negb]; [|by quiet].
    destruct smtp_server as [server|]; [|by quiet].
    apply sends_only_bind; [by keeps|]. intros msg.
    apply sends_only_bind; [by keeps|]. intros _.
    eapply sends_only_mono; [|apply report_sends_only].
    intros r tail [Hports Hlast]. repeat split. by exists server. }
  destruct (EmailData.is_empty data); [|done].
  destruct (Args.discard_empty args); [by quiet|].
  apply sends_only_bind; [by keeps|]. by intros _.
Qed.

Lemma _list_accounts_sends_only (C : result Z -> list event -> Prop)
    (config : Config.t) :
  sends_only C (on_net (_list_accounts (W := W) config)).
Proof.
  intros st r st'. unfold on_net, _list_accounts.
  destruct (Config.identities config);
    unfold mbind, io_bind, effect, mret, io_ret; cbn; intros [= <- <-].
  all: split; [intros code [= <-]; by left|by left].
Qed.

(** The server after the editing session belongs to an identity of the
    configuration when the server before it does. *)
Lemma composed_server (config : Config.t) (from_addr : list N)
    (smtp_server : option SmtpServer.t) (server : SmtpServer.t) :
  match
    match from_addr with
    | [] => None
    | c :: s => Config.get_identity_by_email config (c :: s)
    end
  with
  | Some found => Config.get_smtp_for_identity config found
  | None => smtp_server
  end = Some server ->
  (forall kept, smtp_server = Some kept ->
     exists chosen,
       chosen ∈ Config.identities config
       /\ Config.get_smtp_for_identity config chosen = Some kept) ->
  exists chosen,
    chosen ∈ Config.identities config
    /\ Config.get_smtp_for_identity config chosen = Some server.
Proof.
  intros Hserver Hkept.
  destruct from_addr as [|c s]; [by apply Hkept|].
  destruct (Config.get_identity_by_email config (c :: s)) as [found|] eqn:Hf;
    [|by apply Hkept].
  exists found. split; [|done].
  apply find_some in Hf as [Hf _]. by apply list_elem_of_In.
Qed.

(** X18.  [_run] returns exit code 0 or 1 when it returns.  It connects
    only when it is not run with [-n], [--list-accounts] or [--dry-run]
    and the configuration file was loaded; then every connection goes to
    a port of the SMTP server of an identity of that configuration, and
    exit code 0 means that the last thing that happened on the network is
    a connection. *)
Theorem _run_connects_only_when (args : Args.t) (st st' : state (machine W))
    (r : result Z) :
  _run p args st = (r, st') ->
  (forall code, r = Ok code -> code = 0 \/ code = 1)%Z
  /\ (history st' = history st
      \/ exists config identity server tail,
           Args.no_config args = false
           /\ Args.list_accounts args = false
           /\ Args.dry_run args = false
           /\ load_config (Platform.expanduser p (Args.config_path args))
                (Platform.config_file_at p
                   (Platform.expanduser p (Args.config_path args))
                   (os (net st)))
              = Ok config
           /\ identity ∈ Config.identities config
           /\ Config.get_smtp_for_identity config identity = Some server
           /\ history st' = history st ++ tail
           /\ (forall port, Connect port ∈ tail ->
               port ∈ SmtpServer.ports server)
           /\ (r = Ok 0%Z ->
               exists before port, tail = before ++ [Connect port])).
Proof.
  unfold _run. intros Hrun.
  apply io_bind_inv in Hrun as [(config & st1 & H1 & H2)|(e & H1 & ->)];
    apply resolve_config_spec in H1 as [Hh Hconfig];
    [|split; [done|by left]].
  specialize (Hconfig config eq_refl).
  match type of H2 with
  | ?m st1 = _ =>
    assert (sends_only
              (fun r tail =>
                 Args.list_accounts args = false
                 /\ Args.dry_run args = false
                 /\ exists identity server,
                      identity ∈ Config.identities config
                      /\ Config.get_smtp_for_identity config identity
                         = Some server
                      /\ (forall port, Connect port ∈ tail ->
                          port ∈ SmtpServer.ports server)
                      /\ (r = Ok 0%Z ->
                          exists before port,
                            tail = before ++ [Connect port])) m) as Hbody
  end.
  { destruct (Args.list_accounts args) eqn:Hlist;
      [apply _list_accounts_sends_only|].
    cbv zeta.
    apply sends_only_after with
      (P := fun resolved =>
              match resolved with
              | inl code => code = 1%Z
              | inr (Some identity) => identity ∈ Config.identities config
              | inr None => True
              end).
    { intros s0 r0 s0' Hres.
      apply resolve_identity_spec in Hres as [Hres (resolved & -> & HP)].
      split; [done|]. by intros a [= <-]. }
    intros [code|identity] Hres; [apply sends_only_ret; by right|].
    assert (forall data b smtp_server',
              (forall server, smtp_server' = Some server ->
                 exists chosen,
                   chosen ∈ Config.identities config
                   /\ Config.get_smtp_for_identity config chosen
                      = Some server) ->
              sends_only
                (fun r tail =>
                   false = false
                   /\ Args.dry_run args = false
                   /\ exists identity server,
                        identity ∈ Config.identities config
                        /\ Config.get_smtp_for_identity config identity
                           = Some server
                        /\ (forall port, Connect port ∈ tail ->
                            port ∈ SmtpServer.ports server)
                        /\ (r = Ok 0%Z ->
                            exists before port,
                              tail = before ++ [Connect port]))
                (finish p args b
                   (default (Defaults.retries (Config.defaults config))
                      (Args.retries args))
                   smtp_server' data)) as Hfinish.
    { intros data b smtp_server' Hserver.
      eapply sends_only_mono; [|apply finish_sends_only].
      intros r0 tail (Hdry & _ & server & -> & Hports & Hlast).
      destruct (Hserver server eq_refl) as (chosen & Hin & Hsmtp).
      repeat split; [done|]. by exists chosen, server. }
    destruct identity as [chosen|];
      [|destruct (Args.no_config args); [|by quiet]].
    - change (Some chosen ≫= Config.get_smtp_for_identity config)
        with (Config.get_smtp_for_identity config chosen).
      destruct (Config.get_smtp_for_identity config chosen) as [server|]
        eqn:Hsmtp; [|by quiet].
      apply sends_only_bind; [by keeps|]. intros _.
      destruct (_ && Platform.isatty p).
      + apply sends_only_bind; [by keeps|]. intros composed.
        destruct (ComposedEmail.cancelled composed); [by quiet|].
        apply Hfinish. intros server' Hserver.
        eapply composed_server; [exact Hserver|].
        intros kept [= <-]. by exists chosen.
      + apply sends_only_bind; [by keeps|]. intros body.
        apply Hfinish. intros kept [= <-]. by exists chosen.
    - apply sends_only_bind; [by keeps|]. intros _.
      destruct (_ && Platform.isatty p).
      + apply sends_only_bind; [by keeps|]. intros composed.
        destruct (ComposedEmail.cancelled composed); [by quiet|].
        apply Hfinish. intros server' Hserver.
        eapply composed_server; [exact Hserver|]. done.
      + apply sends_only_bind; [by keeps|]. intros body.
        by apply Hfinish. }
  destruct (Hbody _ _ _ H2) as [Hcode Hsent]. split; [done|].
  rewrite <- Hh.
  destruct Hsent as [Hsent|(tail & Hsent & Hlist & Hdry & identity & server
                            & Hin & Hsmtp & Hports & Hlast)]; [by left|].
  right. exists config, identity, server, tail.
  destruct Hconfig as [->|[Hnc Hload]]; [by apply elem_of_nil in Hin|].
  by repeat split.
Qed.

(** X19.  When the configuration file is not there and [-n] is not given,
    [_run] never gets to a message.  Without a from address it raises the
    loader's error.  With one it warns and goes on with an empty
    configuration, in which no identity is found: it lists no accounts
    and returns 0 when asked for the accounts, and otherwise prints two
    error lines and returns 1.  Nothing else changes and nothing is
    sent. *)
Theorem _run_config_file_missing (args : Args.t) (st : state (machine W)) :
  Args.no_config args = false ->
  Platform.config_file_at p (Platform.expanduser p (Args.config_path args))
    (os (net st)) = FileMissing ->
  let not_found :=
    py "Config file not found: "
    ++ Platform.expanduser p (Args.config_path args) in
  _run p args st =
    if truthy (Args.from_addr args) then
      if Args.list_accounts args then
        (Ok 0%Z,
         {| net :=
              {| console :=
                   print_line (py "No identities configured.")
                     (console (net st));
                 stderr := stderr (net st) ++ [py "Warning: " ++ not_found];
                 os := os (net st) |};
            history := history st |})
      else
        (Ok 1%Z,
         {| net :=
              {| console := console (net st);
                 stderr :=
                   stderr (net st)
                   ++ [ py "Warning: " ++ not_found;
                        if truthy (Args.identity args) then
                          py "Error: Identity '"
                          ++ default [] (Args.identity args)
                          ++ py "' not found."
                        else
                          py "Error: No identity configured for '"
                          ++ default [] (Args.from_addr args) ++ py "'";
                        py "Available identities: " ];
                 os := os (net st) |};
            history := history st |})
    else (Raise (ConfigError not_found), st).
Proof.
  intros Hnc Hmissing not_found.
  assert (contains (py "not found") not_found = true) as Hsays
    by by vm_compute.
  unfold _run, resolve_config. rewrite Hnc.
  unfold mbind at 1. unfold io_bind at 1.
  unfold try_except, load_config_on. rewrite Hmissing.
  unfold lift, load_config. fold not_found. cbn [is_ConfigError exn_str].
  rewrite Hsays. cbn [andb].
  destruct (truthy (Args.from_addr args)) eqn:Hfrom; [|done].
  unfold err at 1. unfold mbind at 1. unfold io_bind at 1.
  unfold on_net at 1. unfold effect at 1. cbn [net history print_err
    console stderr os mret io_ret].
  destruct (Args.list_accounts args); [done|].
  unfold mbind at 1. unfold io_bind at 1.
  match goal with
  | |- (let '(_, _) := resolve_identity _ _ ?s in _) = (_, ?s') =>
    assert (resolve_identity args create_empty_config s = (Ok (inl 1%Z), s'))
      as ->; [|done]
  end.
  unfold resolve_identity. rewrite Hfrom, Hnc.
  destruct (truthy (Args.identity args)); cbn;
    unfold err, on_net, effect, mbind, io_bind, print_err, mret, io_ret; cbn;
    by rewrite <- !app_assoc, app_nil_r.
Qed.

End ProgramProps.

Lemma _run_connects_only_when_witness :
  _run SampleProgram.platform (SampleProgram.args (py "tmail.conf") None)
    SampleProgram.start
  = (Ok 0%Z,
     {| net :=
          {| console :=
               {| stdin := [];
                  stdout :=
                    [py "Email sent successfully via smtp.gmail.com:465"] |};
             stderr := [];
             os := tt |};
        history := [Connect 587; Connect 465] |})
  /\ exists before port, [Connect 587; Connect 465] = before ++ [Connect port].
Proof.
  assert (_run SampleProgram.platform (SampleProgram.args (py "tmail.conf") None)
            SampleProgram.start
          = (Ok 0%Z,
             {| net :=
                  {| console :=
                       {| stdin := [];
                          stdout :=
                            [py "Email sent successfully via smtp.gmail.com:465"] |};
                     stderr := [];
                     os := tt |};
                history := [Connect 587; Connect 465] |}))
    as Hrun by (vm_compute; reflexivity).
  split; [exact Hrun|].
  destruct (_run_connects_only_when _ _ _ _ _ Hrun)
    as [_ [Hsame|(config & identity & server & tail & _ & _ & _ & _ & _ & _
                  & Hh & _ & Hlast)]].
  - discriminate Hsame.
  - cbn in Hh. destruct (Hlast eq_refl) as (before & port & Htail).
    exists before, port. by rewrite Hh, Htail.
Defined.

Lemma _run_config_file_missing_witness :
  _run SampleProgram.platform
    (SampleProgram.args (py "other.conf") (Some (py "user@example.com")))
    SampleProgram.start
  = (Ok 1%Z,
     {| net :=
          {| console := console (net SampleProgram.start);
             stderr :=
               [ py "Warning: Config file not found: other.conf";
                 py "Error: No identity configured for 'user@example.com'";
                 py "Available identities: " ];
             os := tt |};
        history := [] |}).
Proof.
  assert (Platform.config_file_at SampleProgram.platform
            (Platform.expanduser SampleProgram.platform
               (Args.config_path
                  (SampleProgram.args (py "other.conf")
                     (Some (py "user@example.com")))))
            (os (net SampleProgram.start)) = FileMissing)
    as Hmissing by (vm_compute; reflexivity).
  rewrite (_run_config_file_missing SampleProgram.platform
             (SampleProgram.args (py "other.conf")
                (Some (py "user@example.com")))
             SampleProgram.start eq_refl Hmissing).
  vm_compute. reflexivity.
Defined.
